(** * Uncertainty baselines: CondConv CIFAR driver and retinopathy utilities

    A shallow embedding of
    - [baselines/cifar/condconv.py]: the mixture-of-experts loss and
      consensus arithmetic, the per-step training and evaluation functions,
      the metric dictionaries and the epoch loop of [main];
    - [baselines/diabetic_retinopathy_detection/utils.py]: the metric
      dictionary, the epoch logger and the saved-model directory parser.

    Conventions.
    - Python exceptions are values of [exn]; code that can raise lives in the
      [result] monad.
    - Python dictionaries that are only indexed by key are [gmap string _];
      dictionaries that are iterated are association lists in insertion
      order ([odict_set], [odict_get]).
    - Python integers are [Z]; [Z.div] and [Z.modulo] are Python's [//] and
      [%] for a non-zero divisor.
    - float32 tensors are nested lists of real numbers: the arithmetic is the
      exact arithmetic that the floating-point kernels approximate. *)

From Stdlib Require Import Reals Lra Lia ZArith List String Ascii.
From stdpp Require Import gmap strings list fin_maps pretty.

Open Scope string_scope.

(** ** Python exceptions and the error monad *)

Module Py.

(** [ShapeError] is the framework's incompatible-shapes error (a
    [ValueError] while a [tf.function] is traced, an [InvalidArgumentError]
    in eager execution). It is kept apart from [ValueError] so that the
    errors of the framework and those the script raises itself can be told
    apart; [traced] below gives the exception as Python sees it. *)
Inductive exn : Type :=
| KeyError (key : string)
| AttributeError (module_name attribute : string)
| ValueError (message : string)
| IndexError
| ShapeError
| NameError (name : string)
| NotFoundError (path : string).

Inductive result (A : Type) : Type :=
| Ok (a : A)
| Raise (e : exn).

Arguments Ok {A} a.
Arguments Raise {A} e.

Definition bind {A B} (c : result A) (k : A -> result B) : result B :=
  match c with
  | Ok a => k a
  | Raise e => Raise e
  end.

Definition returns {A} (c : result A) : Prop := exists a, c = Ok a.

(** [for x in xs: acc = body(acc, x)], stopping at the first exception. *)
Fixpoint for_each {A S} (xs : list A) (body : S -> A -> result S) (s : S)
  : result S :=
  match xs with
  | [] => Ok s
  | x :: rest => bind (body s x) (for_each rest body)
  end.

(** A list comprehension whose element expression can raise. *)
Fixpoint traverse {A B} (f : A -> result B) (xs : list A) : result (list B) :=
  match xs with
  | [] => Ok []
  | x :: rest =>
      bind (f x) (fun y => bind (traverse f rest) (fun ys => Ok (y :: ys)))
  end.

(** [d[key]] on a dictionary. *)
Definition getitem {V} (d : gmap string V) (key : string) : result V :=
  match d !! key with
  | Some v => Ok v
  | None => Raise (KeyError key)
  end.

(** [d.update(other)]: the entries of [other] win. *)
Definition dict_update {V} (d other : gmap string V) : gmap string V :=
  other ∪ d.

(** A dictionary display [{k1: v1, ..., kn: vn}]: later entries win. *)
Definition dict_of {V} (entries : list (string * V)) : gmap string V :=
  fold_left (fun d kv => <[kv.1 := kv.2]> d) entries ∅.

(** [needle in haystack] on strings. *)
Fixpoint str_contains (needle haystack : string) : bool :=
  String.prefix needle haystack ||
  match haystack with
  | EmptyString => false
  | String _ rest => str_contains needle rest
  end.

Definition startswith (p s : string) : bool := String.prefix p s.

Fixpoint endswith_sep (s : string) : bool :=
  match s with
  | EmptyString => false
  | String c EmptyString => bool_decide (c = "/"%char)
  | String _ rest => endswith_sep rest
  end.

(** [os.path.join(a, b)] of [posixpath]. *)
Definition os_path_join (a b : string) : string :=
  if startswith "/" b then b
  else if bool_decide (a = "") || endswith_sep a then a ++ b
  else a ++ "/" ++ b.

(** [range(lo, hi)]. *)
Definition range (lo hi : Z) : list Z :=
  map (fun i => (lo + Z.of_nat i)%Z) (seq 0 (Z.to_nat (hi - lo))).

End Py.

Import Py.

Notation "'do' x <- c ; k" := (Py.bind c (fun x => k))
  (at level 10, x name, c at level 100, k at level 200).
Notation "'do' ' pat <- c ; k" :=
  (Py.bind c (fun x => match x with pat => k end))
  (at level 10, pat pattern, c at level 100, k at level 200).

(** ** [baselines/diabetic_retinopathy_detection/utils.py] *)

Module Retinopathy.

(** The metric objects the dictionary holds. *)
Inductive metric : Type :=
| Mean
| BinaryAccuracy
| AUC
| ExpectedCalibrationError (num_bins : Z).

Definition get_diabetic_retinopathy_base_metrics (use_tpu : bool) (num_bins : Z)
  : gmap string metric :=
  let metrics := dict_of
    [ ("train/negative_log_likelihood", Mean);
      ("train/accuracy", BinaryAccuracy);
      ("train/loss", Mean);
      ("test/negative_log_likelihood", Mean);
      ("test/accuracy", BinaryAccuracy) ] in
  if use_tpu then
    dict_update metrics (dict_of
      [ ("train/auc", AUC);
        ("test/auc", AUC) ])
  else
    dict_update metrics (dict_of
      [ ("train/ece", ExpectedCalibrationError num_bins);
        ("test/ece", ExpectedCalibrationError num_bins) ]).

(** The subscripts [metrics[...]] that [log_epoch_metrics] evaluates, in
    evaluation order: the arguments of the first [logging.info] call, then
    those of the second. *)
Definition log_epoch_metrics_keys (use_tpu : bool) : list string :=
  if use_tpu then
    [ "train/loss"; "train/accuracy"; "train/auc";
      "test/negative_log_likelihood"; "test/accuracy"; "test/auc" ]
  else
    [ "train/loss"; "train/accuracy"; "train/auc"; "train/ece";
      "test/negative_log_likelihood"; "test/accuracy"; "test/auc";
      "test/ece" ].

(** [log_epoch_metrics]: the result is the list of metric objects whose
    [.result()] is formatted into the two log lines. *)
Definition log_epoch_metrics (metrics : gmap string metric) (use_tpu : bool)
  : result (list metric) :=
  traverse (getitem metrics) (log_epoch_metrics_keys use_tpu).

(** The part of the file system that [tf.io.gfile] reads. *)
Record filesystem : Type := {
  fs_listdir : string -> option (list string);
  fs_isdir : string -> bool
}.

(** File-system actions: a state transformer that can raise. *)
Definition io (A : Type) : Type := filesystem -> result A * filesystem.

Definition io_ret {A} (a : A) : io A := fun fs => (Ok a, fs).

Definition io_bind {A B} (c : io A) (k : A -> io B) : io B :=
  fun fs =>
    match c fs with
    | (Ok a, fs') => k a fs'
    | (Raise e, fs') => (Raise e, fs')
    end.

(** [io.gfile.listdir(path)]: raises when [path] is not a directory. *)
Definition gfile_listdir (path : string) : io (list string) :=
  fun fs =>
    match fs_listdir fs path with
    | Some entries => (Ok entries, fs)
    | None => (Raise (NotFoundError path), fs)
    end.

(** [tf.io.gfile.isdir(path)]. *)
Definition gfile_isdir (path : string) : io bool :=
  fun fs => (Ok (fs_isdir fs path), fs).

Definition is_keras_model_dir (dir_name : string) : bool :=
  str_contains "keras_model" dir_name.

(** The body of the [for dir_name in ...] loop, threading [paths]. *)
Fixpoint parse_keras_models_loop (checkpoint_dir : string)
  (entries : list string) (paths : list string) : io (list string) :=
  match entries with
  | [] => io_ret paths
  | dir_name :: rest =>
      let dir_path := os_path_join checkpoint_dir dir_name in
      io_bind (gfile_isdir dir_path) (fun d =>
        if d && is_keras_model_dir dir_name
        then parse_keras_models_loop checkpoint_dir rest
               (paths ++ [dir_path])%list
        else parse_keras_models_loop checkpoint_dir rest paths)
  end.

Definition parse_keras_models (checkpoint_dir : string) : io (list string) :=
  io_bind (gfile_listdir checkpoint_dir) (fun entries =>
    parse_keras_models_loop checkpoint_dir entries []).

End Retinopathy.

(** ** The TensorFlow operations the CIFAR script calls *)

Module TF.

Local Open Scope R_scope.

Abbreviation tensor1 := (list R).
Abbreviation tensor2 := (list (list R)).
Abbreviation tensor3 := (list (list (list R))).

(** The attributes of the [tensorflow] module that the script dereferences
    as [tf.<name>].  TensorFlow 2 exports softmax as [tf.nn.softmax] and
    [tf.math.softmax] only: [softmax] is not a top-level attribute. *)
Definition tf_toplevel : list string :=
  [ "io"; "random"; "distribute"; "config"; "tpu"; "keras"; "summary";
    "train"; "function"; "GradientTape"; "float32"; "cast"; "expand_dims";
    "tile"; "reshape"; "reduce_mean"; "math"; "nn" ].

(** [tf.<name>]: module attribute lookup. *)
Definition tf_getattr (name : string) : result unit :=
  if bool_decide (name ∈ tf_toplevel) then Ok ()
  else Raise (AttributeError "tensorflow" name).

Fixpoint sum_list (xs : tensor1) : R :=
  match xs with
  | [] => 0
  | x :: rest => x + sum_list rest
  end.

(** One axis of an elementwise binary operation with broadcasting: equal
    lengths are paired, a length-1 axis is stretched, anything else is the
    "Incompatible shapes" error. *)
Definition broadcast {A B C} (f : A -> B -> result C)
  (xs : list A) (ys : list B) : result (list C) :=
  if (length xs =? length ys)%nat then
    traverse (fun p => f p.1 p.2) (zip xs ys)
  else
    match xs, ys with
    | [x], _ => traverse (f x) ys
    | _, [y] => traverse (fun x => f x y) xs
    | _, _ => Raise ShapeError
    end.

Definition mul0 (x y : R) : result R := Ok (x * y).
Definition mul1 : tensor1 -> tensor1 -> result tensor1 := broadcast mul0.
(** [a * b] on rank-2 tensors. *)
Definition mul2 : tensor2 -> tensor2 -> result tensor2 := broadcast mul1.
(** [a * b] on rank-3 tensors. *)
Definition mul3 : tensor3 -> tensor3 -> result tensor3 := broadcast mul2.

(** [tf.expand_dims(t, axis=-1)] on a rank-2 tensor. *)
Definition expand_dims_last (t : tensor2) : tensor3 :=
  map (map (fun w => [w])) t.

Definition add1 (xs ys : tensor1) : tensor1 := zip_with Rplus xs ys.

(** The sum of the rows of a matrix. With no row the width of the matrix is
    not recorded in the nested list, and the result is the empty vector. *)
Definition sum_rows (rows : tensor2) : tensor1 :=
  match rows with
  | [] => []
  | r :: rest => fold_left add1 rest r
  end.

(** [tf.math.reduce_sum(t, axis=1)] on a rank-3 tensor. *)
Definition reduce_sum_axis1 (t : tensor3) : tensor2 := map sum_rows t.

(** [tf.math.reduce_mean(t, axis=1)] on a rank-3 tensor. *)
Definition reduce_mean_axis1 (t : tensor3) : tensor2 :=
  map (fun rows => map (fun s => s / INR (length rows)) (sum_rows rows)) t.

(** [tf.math.reduce_sum(t, axis=1)] on a rank-2 tensor. *)
Definition reduce_sum_rows (t : tensor2) : tensor1 := map sum_list t.

(** [tf.math.reduce_mean(t)] on a rank-1 tensor. *)
Definition reduce_mean1 (t : tensor1) : R := sum_list t / INR (length t).

(** [tf.math.reduce_mean(t)] on a rank-2 tensor: the mean of all entries. *)
Definition reduce_mean2 (t : tensor2) : R := reduce_mean1 (concat t).

(** [tf.nn.softmax] along the last axis. *)
Definition softmax1 (xs : tensor1) : tensor1 :=
  let z := sum_list (map exp xs) in map (fun x => exp x / z) xs.
Definition softmax2 (t : tensor2) : tensor2 := map softmax1 t.
Definition softmax3 (t : tensor3) : tensor3 := map softmax2 t.

(** [tf.nn.sparse_softmax_cross_entropy_with_logits] for one example
    whose label is in the class range. For a label outside of it the
    operation fails when the traced step is executed (on CPU), which is not
    modelled: there this function reads the default [0], and every
    statement that concludes a result through it assumes the labels in
    range. *)
Definition sparse_xent (label : nat) (logits : tensor1) : R :=
  - ln (nth label (softmax1 logits) 0).

Definition clip_by_value (x lo hi : R) : R := Rmin (Rmax x lo) hi.

(** [tf.keras.backend.epsilon()]. *)
Definition epsilon : R := / 10 ^ 7.

(** The last axis of [tf.keras.losses.sparse_categorical_crossentropy]:
    with [from_logits=False] the probabilities are clipped to
    [[epsilon, 1 - epsilon]] and their logarithms are used as logits.
    (When the output comes straight from a softmax operation, Keras takes
    the input of that operation as logits instead; the two readings agree
    up to the clipping.) *)
Definition scce_row (from_logits : bool) (label : nat) (output : tensor1)
  : R :=
  if from_logits then sparse_xent label output
  else
    sparse_xent label
      (map (fun p => ln (clip_by_value p epsilon (1 - epsilon))) output).

(** Pairing two axes that must have the same length. *)
Definition zip_exact {A B C} (f : A -> B -> result C)
  (xs : list A) (ys : list B) : result (list C) :=
  if (length xs =? length ys)%nat then
    traverse (fun p => f p.1 p.2) (zip xs ys)
  else Raise ShapeError.

(** [sparse_categorical_crossentropy(labels, output)] with labels of rank 1
    and an output of rank 2. *)
Definition scce_1_2 (from_logits : bool) (labels : list nat)
  (output : tensor2) : result tensor1 :=
  zip_exact (fun l row => Ok (scce_row from_logits l row)) labels output.

(** ... with labels of rank 2 and an output of rank 3. *)
Definition scce_2_3 (from_logits : bool) (labels : list (list nat))
  (output : tensor3) : result tensor2 :=
  zip_exact (scce_1_2 from_logits) labels output.

(** ... with labels of rank 1 and an output of rank 3: the ranks differ by
    two, so Keras flattens the labels and reshapes the output to rank 2
    before the loss and restores the leading axes of the output after. *)
Definition scce_1_3 (from_logits : bool) (labels : list nat)
  (output : tensor3) : result tensor1 :=
  scce_1_2 from_logits labels (concat output).

(** [tf.tile(tf.reshape(labels, (-1, 1)), (1, n))]. *)
Definition tile_labels (labels : list nat) (n : nat) : list (list nat) :=
  map (fun l => repeat l n) labels.

End TF.

Import TF.

(** ** [baselines/cifar/condconv.py] *)

Module CondConv.

Local Open Scope R_scope.

(** The values of the [loss] flag. *)
Inductive loss_kind : Type :=
| loss_gibbs_ce
| loss_unweighted_gibbs_ce
| loss_moe
| loss_unweighted_moe
| loss_poe
| loss_unweighted_poe.

(** The flags that the modelled code reads. *)
Record flags : Type := {
  FLAGS_loss : loss_kind;
  FLAGS_num_experts : nat;
  FLAGS_use_cond_dense : bool;
  FLAGS_reduce_dense_outputs : bool;
  FLAGS_use_bfloat16 : bool;
  FLAGS_corruptions_interval : Z;
  FLAGS_checkpoint_interval : Z;
  FLAGS_train_epochs : Z
}.

(** The flag defaults of the script. *)
Definition default_flags : flags := {|
  FLAGS_loss := loss_gibbs_ce;
  FLAGS_num_experts := 4;
  FLAGS_use_cond_dense := true;
  FLAGS_reduce_dense_outputs := false;
  FLAGS_use_bfloat16 := false;
  FLAGS_corruptions_interval := -1;
  FLAGS_checkpoint_interval := -1;
  FLAGS_train_epochs := 200
|}.

(** The dictionary that [_process_3d_logits] returns; its keys are fixed. *)
Record processing_results : Type := {
  weighted_logits : tensor2;
  unweighted_logits : tensor2;
  unweighted_probs : tensor2;
  weighted_probs : tensor2;
  neg_log_likelihoods : tensor2;
  unweighted_gibbs_ce : R;
  weighted_gibbs_ce : R
}.

Definition _process_3d_logits (F : flags) (logits : tensor3)
  (routing_weights : tensor2) (labels : list nat)
  : result processing_results :=
  let routing_weights_3d := expand_dims_last routing_weights in
  do weighted <- mul3 routing_weights_3d logits;
  let weighted_logits := reduce_mean_axis1 weighted in
  let unweighted_logits := reduce_mean_axis1 logits in
  let probs := softmax3 logits in
  let unweighted_probs := reduce_mean_axis1 probs in
  do weighted_p <- mul3 routing_weights_3d probs;
  let weighted_probs := reduce_sum_axis1 weighted_p in
  let labels_broadcasted := tile_labels labels (FLAGS_num_experts F) in
  do neg_log_likelihoods <- scce_2_3 true labels_broadcasted logits;
  let unweighted_ce := reduce_mean2 neg_log_likelihoods in
  do weighted_nll <- mul2 routing_weights neg_log_likelihoods;
  let weighted_ce := reduce_mean1 (reduce_sum_rows weighted_nll) in
  Ok {| weighted_logits := weighted_logits;
        unweighted_logits := unweighted_logits;
        unweighted_probs := unweighted_probs;
        weighted_probs := weighted_probs;
        neg_log_likelihoods := neg_log_likelihoods;
        unweighted_gibbs_ce := unweighted_ce;
        weighted_gibbs_ce := weighted_ce |}.

Definition _process_3d_logits_train (F : flags) (logits : tensor3)
  (routing_weights : tensor2) (labels : list nat) : result (tensor2 * R) :=
  do processing_results <- _process_3d_logits F logits routing_weights labels;
  match FLAGS_loss F with
  | loss_gibbs_ce =>
      let probs := weighted_probs processing_results in
      let negative_log_likelihood :=
        weighted_gibbs_ce processing_results in
      Ok (probs, negative_log_likelihood)
  | loss_unweighted_gibbs_ce =>
      let probs := unweighted_probs processing_results in
      let negative_log_likelihood :=
        unweighted_gibbs_ce processing_results in
      Ok (probs, negative_log_likelihood)
  | loss_moe =>
      let probs := weighted_probs processing_results in
      do nll <- scce_1_2 false labels probs;
      Ok (probs, reduce_mean1 nll)
  | loss_unweighted_moe =>
      let probs := unweighted_probs processing_results in
      do nll <- scce_1_2 false labels probs;
      Ok (probs, reduce_mean1 nll)
  | loss_poe =>
      do _ <- tf_getattr "softmax";
      let probs := softmax2 (weighted_logits processing_results) in
      do nll <- scce_1_2 true labels (weighted_logits processing_results);
      Ok (probs, reduce_mean1 nll)
  | loss_unweighted_poe =>
      do _ <- tf_getattr "softmax";
      let probs := softmax2 (unweighted_logits processing_results) in
      do nll <- scce_1_2 true labels (unweighted_logits processing_results);
      Ok (probs, reduce_mean1 nll)
  end.

(** The dictionary that [_process_3d_logits_test] returns. *)
Record test_results : Type := {
  nll_poe : R;
  nll_moe : R;
  nll_unweighted_poe : R;
  nll_unweighted_moe : R;
  t_unweighted_gibbs_ce : R;
  t_weighted_gibbs_ce : R;
  t_weighted_probs : tensor2;
  t_unweighted_probs : tensor2;
  t_weighted_logits : tensor2;
  t_unweighted_logits : tensor2
}.

Definition _process_3d_logits_test (F : flags) (routing_weights : tensor2)
  (logits : tensor3) (labels : list nat) : result test_results :=
  do processing_results <- _process_3d_logits F logits routing_weights labels;
  do l_poe <- scce_1_2 true labels (weighted_logits processing_results);
  do l_unweighted_poe <-
    scce_1_2 true labels (unweighted_logits processing_results);
  do l_moe <- scce_1_2 false labels (weighted_probs processing_results);
  do l_unweighted_moe <-
    scce_1_2 false labels (unweighted_probs processing_results);
  Ok {| nll_poe := reduce_mean1 l_poe;
        nll_moe := reduce_mean1 l_moe;
        nll_unweighted_poe := reduce_mean1 l_unweighted_poe;
        nll_unweighted_moe := reduce_mean1 l_unweighted_moe;
        t_unweighted_gibbs_ce := unweighted_gibbs_ce processing_results;
        t_weighted_gibbs_ce := weighted_gibbs_ce processing_results;
        t_weighted_probs := weighted_probs processing_results;
        t_unweighted_probs := unweighted_probs processing_results;
        t_weighted_logits := weighted_logits processing_results;
        t_unweighted_logits := unweighted_logits processing_results |}.

(** *** The per-replica step functions *)

(** What the name [logits] can hold in a step function: the model's rank-3
    output, the pair [(logits, all_routing_weights)], or the rank-4 tensor
    that packing such a pair produces. *)
Inductive value : Type :=
| Tensor3 (t : tensor3)
| Tensor4 (t : list tensor3)
| Tuple (logits : tensor3) (all_routing_weights : list tensor2).

Definition shape2 (t : tensor2) : list nat := [length t; length (hd [] t)].
Definition shape3 (t : tensor3) : list nat := length t :: shape2 (hd [] t).

(** [tf.cast(x, tf.float32)]. A tensor stays a tensor. Anything else goes
    through [convert_to_tensor] first, which packs a nested sequence into
    one tensor when its members have one common shape and raises
    otherwise: the result of a cast is never a tuple. *)
Definition tf_cast (x : value) : result value :=
  match x with
  | Tensor3 t => Ok (Tensor3 t)
  | Tensor4 t => Ok (Tensor4 t)
  | Tuple logits all_routing_weights =>
      if bool_decide (shape3 logits = shape3 all_routing_weights)
         && forallb (fun w => bool_decide (shape2 w = tl (shape3 logits)))
              all_routing_weights
      then Ok (Tensor4 [logits; all_routing_weights])
      else Raise ShapeError
  end.

(** [isinstance(logits, tuple)]. *)
Definition is_tuple (x : value) : bool :=
  match x with
  | Tuple _ _ => true
  | _ => false
  end.

(** [all_routing_weights[-1]]. *)
Definition last_item {A} (xs : list A) : result A :=
  match last xs with
  | Some x => Ok x
  | None => Raise IndexError
  end.

(** The value of [probs] after the loss branch of a step function. *)
Inductive probs_value : Type :=
| Probs2 (t : tensor2)
| Probs3 (t : tensor3).

Definition cond_dense_path (F : flags) : bool :=
  negb (FLAGS_reduce_dense_outputs F) && FLAGS_use_cond_dense F.

(** *** Metric dictionaries *)

Inductive metric_kind : Type :=
| Mean
| SparseCategoricalAccuracy
| ExpectedCalibrationError.

(** A metric accumulator: its class and the number of [update_state] calls
    since the last [reset_states]. The accumulated numbers are not
    modelled. *)
Record metric : Type := {
  metric_class : metric_kind;
  metric_updates : nat
}.

Definition new_metric (k : metric_kind) : metric :=
  {| metric_class := k; metric_updates := 0 |}.

(** [store[key].update_state(...)]. *)
Definition update_state (key : string) (store : gmap string metric)
  : result (gmap string metric) :=
  do m <- getitem store key;
  Ok (<[key := {| metric_class := metric_class m;
                  metric_updates := S (metric_updates m) |}]> store).

(** ['{0}_{1}'.format(corruption, intensity)]. *)
Definition corrupted_name (corruption : string) (intensity : Z) : string :=
  corruption ++ "_" ++ pretty intensity.

(** The [metrics] dictionary as the step functions see it (built in the
    strategy scope, and extended with ['test/ms_per_example'] before the
    first step runs). *)
Definition build_metrics (F : flags) : gmap string metric :=
  let metrics := dict_of
    [ ("train/negative_log_likelihood", new_metric Mean);
      ("train/accuracy", new_metric SparseCategoricalAccuracy);
      ("train/loss", new_metric Mean);
      ("train/ece", new_metric ExpectedCalibrationError);
      ("test/negative_log_likelihood", new_metric Mean);
      ("test/accuracy", new_metric SparseCategoricalAccuracy);
      ("test/ece", new_metric ExpectedCalibrationError) ] in
  let metrics :=
    if cond_dense_path F then
      let metrics := dict_update metrics (dict_of
        [ ("test/nll_poe", new_metric Mean);
          ("test/nll_moe", new_metric Mean);
          ("test/nll_unweighted_poe", new_metric Mean);
          ("test/nll_unweighted_moe", new_metric Mean);
          ("test/unweighted_gibbs_ce", new_metric Mean);
          ("test/ece_unweighted_moe", new_metric ExpectedCalibrationError);
          ("test/accuracy_unweighted_moe",
            new_metric SparseCategoricalAccuracy);
          ("test/ece_poe", new_metric ExpectedCalibrationError);
          ("test/accuracy_poe", new_metric SparseCategoricalAccuracy);
          ("test/ece_unweighted_poe", new_metric ExpectedCalibrationError);
          ("test/accuracy_unweighted_poe",
            new_metric SparseCategoricalAccuracy) ]) in
      fold_left (fun metrics idx =>
          <["test/dense_routing_weight_normalized_" ++ pretty idx :=
              new_metric Mean]>
          (<["test/dense_routing_weight_" ++ pretty idx := new_metric Mean]>
             metrics))
        (range 0 (Z.of_nat (FLAGS_num_experts F))) metrics
    else metrics in
  dict_update metrics (dict_of [ ("test/ms_per_example", new_metric Mean) ]).

(** The six entries that one corrupted data set adds to [corrupt_metrics]. *)
Definition add_corrupt_metrics (dataset_name : string)
  (corrupt_metrics : gmap string metric) : gmap string metric :=
  <["test/ece_weighted_moe_" ++ dataset_name :=
      new_metric ExpectedCalibrationError]>
  (<["test/accuracy_weighted_moe_" ++ dataset_name :=
      new_metric SparseCategoricalAccuracy]>
  (<["test/nll_weighted_moe_" ++ dataset_name := new_metric Mean]>
  (<["test/ece_" ++ dataset_name := new_metric ExpectedCalibrationError]>
  (<["test/accuracy_" ++ dataset_name :=
      new_metric SparseCategoricalAccuracy]>
  (<["test/nll_" ++ dataset_name := new_metric Mean]>
     corrupt_metrics))))).

(** [corrupt_metrics]: bound only when [corruptions_interval > 0].
    [types] and [max_i] are the [corruption_types] and [max_intensity]
    that [utils.load_corrupted_test_info] returned. *)
Definition build_corrupt_metrics (F : flags) (types : list string)
  (max_i : Z) : option (gmap string metric) :=
  if bool_decide (FLAGS_corruptions_interval F > 0)%Z then
    Some (fold_left (fun cm intensity =>
            fold_left (fun cm corruption =>
                add_corrupt_metrics (corrupted_name corruption intensity) cm)
              types cm)
          (range 1 (max_i + 1)) ∅)
  else None.

(** Reading the variable [corrupt_metrics]. *)
Definition corrupt_metrics_var (cm : option (gmap string metric))
  : result (gmap string metric) :=
  match cm with
  | Some d => Ok d
  | None => Raise (NameError "corrupt_metrics")
  end.

(** The metric updates of [test_step] on the clean data set, CondDense
    path. *)
Definition update_clean_cond_dense (F : flags) (metrics : gmap string metric)
  : result (gmap string metric) :=
  do metrics <- update_state "test/nll_poe" metrics;
  do metrics <- update_state "test/nll_moe" metrics;
  do metrics <- update_state "test/nll_unweighted_poe" metrics;
  do metrics <- update_state "test/nll_unweighted_moe" metrics;
  do metrics <- update_state "test/unweighted_gibbs_ce" metrics;
  do metrics <- update_state "test/negative_log_likelihood" metrics;
  do metrics <- update_state "test/ece" metrics;
  do metrics <- update_state "test/accuracy" metrics;
  do metrics <- update_state "test/ece_unweighted_moe" metrics;
  do metrics <- update_state "test/accuracy_unweighted_moe" metrics;
  do metrics <- update_state "test/ece_poe" metrics;
  do metrics <- update_state "test/accuracy_poe" metrics;
  do metrics <- update_state "test/ece_unweighted_poe" metrics;
  do metrics <- update_state "test/accuracy_unweighted_poe" metrics;
  for_each (range 0 (Z.of_nat (FLAGS_num_experts F)))
    (fun metrics idx =>
       do metrics <-
         update_state ("test/dense_routing_weight_" ++ pretty idx) metrics;
       update_state ("test/dense_routing_weight_normalized_" ++ pretty idx)
         metrics)
    metrics.

(** ... on a corrupted data set, CondDense path. *)
Definition update_corrupt_cond_dense (dataset_name : string)
  (corrupt_metrics : gmap string metric) : result (gmap string metric) :=
  do cm <- update_state ("test/nll_" ++ dataset_name) corrupt_metrics;
  do cm <- update_state ("test/accuracy_" ++ dataset_name) cm;
  do cm <- update_state ("test/ece_" ++ dataset_name) cm;
  do cm <- update_state ("test/nll_weighted_moe" ++ dataset_name) cm;
  do cm <- update_state ("test/accuracy_weighted_moe_" ++ dataset_name) cm;
  update_state ("test/ece_weighted_moe" ++ dataset_name) cm.

(** ... on a corrupted data set, other path. *)
Definition update_corrupt_plain (dataset_name : string)
  (corrupt_metrics : gmap string metric) : result (gmap string metric) :=
  do cm <- update_state ("test/nll_" ++ dataset_name) corrupt_metrics;
  do cm <- update_state ("test/accuracy_" ++ dataset_name) cm;
  update_state ("test/ece_" ++ dataset_name) cm.

(** ... on the clean data set, other path. *)
Definition update_clean_plain (metrics : gmap string metric)
  : result (gmap string metric) :=
  do metrics <- update_state "test/negative_log_likelihood" metrics;
  do metrics <- update_state "test/accuracy" metrics;
  update_state "test/ece" metrics.

(** [step_fn] of [train_step]: [model_output] is
    [model(images, training=True)] and [l2_loss] is [sum(model.losses)].
    The gradient computation and the optimizer update, which happen between
    the loss and the metric updates, belong to the framework and are not
    modelled. The result is [(probs, negative_log_likelihood, loss)] and
    the [metrics] dictionary after the four updates. *)
Definition train_step_fn (F : flags) (metrics : gmap string metric)
  (model_output : value) (labels : list nat) (l2_loss : R)
  : result (probs_value * R * R * gmap string metric) :=
  do logits <-
    (if FLAGS_use_bfloat16 F then tf_cast model_output else Ok model_output);
  match logits with
  | Tuple logits all_routing_weights =>
      do routing_weights <- last_item all_routing_weights;
      do '(probs, negative_log_likelihood) <-
        (if cond_dense_path F then
           do '(probs, nll) <-
             _process_3d_logits_train F logits routing_weights labels;
           Ok (Probs2 probs, nll)
         else
           let probs := softmax3 logits in
           do nll <- scce_1_3 true labels logits;
           Ok (Probs3 probs, reduce_mean1 nll));
      let loss := negative_log_likelihood + l2_loss in
      do metrics <- update_state "train/ece" metrics;
      do metrics <- update_state "train/loss" metrics;
      do metrics <- update_state "train/negative_log_likelihood" metrics;
      do metrics <- update_state "train/accuracy" metrics;
      Ok (probs, negative_log_likelihood, loss, metrics)
  | _ => Raise (ValueError "Logits are not a tuple.")
  end.

(** [step_fn] of [test_step]: [model_output] is
    [model(images, training=False)]. The result is the two metric
    dictionaries after the updates. *)
Definition test_step_fn (F : flags) (metrics : gmap string metric)
  (corrupt_metrics : option (gmap string metric)) (dataset_name : string)
  (model_output : value) (labels : list nat)
  : result (gmap string metric * option (gmap string metric)) :=
  do logits <-
    (if FLAGS_use_bfloat16 F then tf_cast model_output else Ok model_output);
  match logits with
  | Tuple logits all_routing_weights =>
      do routing_weights <- last_item all_routing_weights;
      do _ <-
        (if cond_dense_path F then
           do _ <- _process_3d_logits_test F routing_weights logits labels;
           Ok ()
         else
           let probs := softmax3 logits in
           do _ <- scce_1_3 false labels probs;
           Ok ());
      if bool_decide (dataset_name = "clean") then
        do metrics <-
          (if cond_dense_path F then update_clean_cond_dense F metrics
           else update_clean_plain metrics);
        Ok (metrics, corrupt_metrics)
      else
        do cm <- corrupt_metrics_var corrupt_metrics;
        do cm <-
          (if cond_dense_path F then update_corrupt_cond_dense dataset_name cm
           else update_corrupt_plain dataset_name cm);
        Ok (metrics, Some cm)
  | _ => Raise (ValueError "Logits not a tuple")
  end.

(** *** The epoch loop of [main] *)

(** The data sets of [test_datasets]. *)
Inductive dataset : Type :=
| CleanTest
| CorruptedTest (corruption : string) (intensity : Z).

(** [d[key] = v] on an insertion-ordered dictionary: a key that is present
    keeps its position. *)
Fixpoint odict_set {V} (key : string) (v : V) (d : list (string * V))
  : list (string * V) :=
  match d with
  | [] => [(key, v)]
  | (k, w) :: rest =>
      if bool_decide (k = key) then (k, v) :: rest
      else (k, w) :: odict_set key v rest
  end.

Definition build_test_datasets (F : flags) (types : list string)
  (max_i : Z) : list (string * dataset) :=
  let test_datasets := [("clean", CleanTest)] in
  if bool_decide (FLAGS_corruptions_interval F > 0)%Z then
    fold_left (fun ds corruption =>
        fold_left (fun ds intensity =>
            odict_set (corrupted_name corruption intensity)
              (CorruptedTest corruption intensity) ds)
          (range 1 (max_i + 1)) ds)
      types test_datasets
  else test_datasets.

(** Where a [checkpoint.save] call stands. *)
Inductive save_site : Type :=
| InEpoch (epoch : Z)
| AfterLoop.

(** The calls of the loop to the step functions, the data sets, the
    metric aggregation, the summary writer and the checkpoint, in the order
    in which they are made. Logging and timing are left out. *)
Inductive call : Type :=
| Call_train_step (epoch step : Z)
| Call_iter (dataset_name : string) (epoch : Z)
| Call_test_step (dataset_name : string) (epoch step : Z)
| Call_aggregate_corrupt_metrics (epoch : Z)
| Call_write_summaries (epoch : Z)
| Call_reset_states (epoch : Z)
| Call_checkpoint_save (site : save_site).

Definition trace : Type := list call.

(** What the calls of a run do: [None] for a call that returns, [Some e]
    for a call that raises [e]. *)
Definition outcomes : Type := call -> option exn.

(** Making one call. A call that returns is added to the trace; the loop
    has no [try], so a call that raises ends the run. *)
Definition perform (W : outcomes) (c : call) (t : trace) : result trace :=
  match W c with
  | None => Ok (t ++ [c])%list
  | Some e => Raise e
  end.

(** [for x in xs: body(x)], threading the trace. *)
Definition for_loop {A} (xs : list A) (body : A -> trace -> result trace)
  (t : trace) : result trace :=
  for_each xs (fun t x => body x t) t.

(** [d[key]] on an insertion-ordered dictionary. *)
Fixpoint odict_get {V} (key : string) (d : list (string * V)) : option V :=
  match d with
  | [] => None
  | (k, w) :: rest =>
      if bool_decide (k = key) then Some w else odict_get key rest
  end.

(** What the loop reads besides the flags: the epoch restored from the
    latest checkpoint, the step counts, and what
    [utils.load_corrupted_test_info] returned. *)
Record loop_env : Type := {
  initial_epoch : Z;
  steps_per_epoch : Z;
  steps_per_eval : Z;
  corruption_types : list string;
  max_intensity : Z
}.

Definition test_datasets (F : flags) (E : loop_env)
  : list (string * dataset) :=
  build_test_datasets F (corruption_types E) (max_intensity E).

Definition interval_hit (interval epoch : Z) : bool :=
  bool_decide (interval > 0)%Z && bool_decide ((epoch + 1) mod interval = 0)%Z.

(** [datasets_to_evaluate] of one epoch. ['clean'] is a key of
    [test_datasets] in every run, so the subscript cannot fail. *)
Definition datasets_to_evaluate (F : flags) (E : loop_env) (epoch : Z)
  : list (string * dataset) :=
  if interval_hit (FLAGS_corruptions_interval F) epoch
  then test_datasets F E
  else
    match odict_get "clean" (test_datasets F E) with
    | Some clean => [("clean", clean)]
    | None => []
    end.

(** The body of [for epoch in range(initial_epoch, FLAGS.train_epochs)]. *)
Definition epoch_body (W : outcomes) (F : flags) (E : loop_env) (epoch : Z)
  (t : trace) : result trace :=
  do t <- for_loop (range 0 (steps_per_epoch E))
            (fun step => perform W (Call_train_step epoch step)) t;
  do t <- for_loop (datasets_to_evaluate F E epoch)
            (fun kv t =>
               do t <- perform W (Call_iter kv.1 epoch) t;
               for_loop (range 0 (steps_per_eval E))
                 (fun step => perform W (Call_test_step kv.1 epoch step)) t)
            t;
  do t <- (if interval_hit (FLAGS_corruptions_interval F) epoch
           then perform W (Call_aggregate_corrupt_metrics epoch) t
           else Ok t);
  do t <- perform W (Call_write_summaries epoch) t;
  do t <- perform W (Call_reset_states epoch) t;
  if interval_hit (FLAGS_checkpoint_interval F) epoch
  then perform W (Call_checkpoint_save (InEpoch epoch)) t
  else Ok t.

(** The loop and the statements after it. *)
Definition main_loop (W : outcomes) (F : flags) (E : loop_env)
  : result trace :=
  do t <- for_loop (range (initial_epoch E) (FLAGS_train_epochs F))
            (epoch_body W F E) [];
  perform W (Call_checkpoint_save AfterLoop) t.

End CondConv.

(** ** Vocabulary of the statements *)

Module Spec.

Import CondConv.

(** [needle] occurs in [s]. *)
Definition contains_substring (needle s : string) : Prop :=
  exists a b, s = a ++ needle ++ b.

(** The sum of [f 0], ..., [f (n - 1)]. *)
Definition big_sum (n : nat) (f : nat -> R) : R := sum_list (map f (seq 0 n)).

(** Entries of a tensor by index. *)
Definition at1 (t : tensor1) (i : nat) : R := nth i t 0%R.
Definition at2 (t : tensor2) (i j : nat) : R := at1 (nth i t []) j.
Definition at3 (t : tensor3) (i j k : nat) : R := at2 (nth i t []) j k.

(** [t] has shape [[B, E]]. *)
Definition has_shape2 (B E : nat) (t : tensor2) : Prop :=
  length t = B /\ Forall (fun row => length row = E) t.

(** [t] has shape [[B, E, C]]. *)
Definition has_shape3 (B E C : nat) (t : tensor3) : Prop :=
  length t = B /\ Forall (has_shape2 E C) t.

(** Class [c] of every expert of one example. *)
Definition expert_values (m : tensor2) (c : nat) : list R :=
  map (fun row => at1 row c) m.

(** The mean of [xs] weighted by [ws]. *)
Definition weighted_mean (ws xs : list R) : R :=
  (sum_list (zip_with Rmult ws xs) / sum_list ws)%R.

Definition arithmetic_mean (xs : list R) : R :=
  (sum_list xs / INR (length xs))%R.

(** The four combined quantities of [r] are the weighted and the
    arithmetic means over the expert axis of the logits and of the
    per-expert probabilities. *)
Definition combined_by_means (logits : tensor3) (routing_weights : tensor2)
  (r : processing_results) : Prop :=
  forall b c,
    at2 (weighted_logits r) b c =
      weighted_mean (nth b routing_weights [])
        (expert_values (nth b logits []) c)
    /\ at2 (unweighted_logits r) b c =
         arithmetic_mean (expert_values (nth b logits []) c)
    /\ at2 (weighted_probs r) b c =
         weighted_mean (nth b routing_weights [])
           (expert_values (nth b (softmax3 logits) []) c)
    /\ at2 (unweighted_probs r) b c =
         arithmetic_mean (expert_values (nth b (softmax3 logits) []) c).

(** The values of the [loss] flag whose training branch goes through
    [tf.softmax]. *)
Definition uses_tf_softmax (l : loss_kind) : bool :=
  match l with
  | loss_poe | loss_unweighted_poe => true
  | _ => false
  end.

(** The key prefixes that one corrupted data set has in
    [corrupt_metrics]. *)
Definition corrupt_key_prefixes : list string :=
  [ "test/nll_"; "test/accuracy_"; "test/ece_"; "test/nll_weighted_moe_";
    "test/accuracy_weighted_moe_"; "test/ece_weighted_moe_" ].

(** A corruption name that is not empty and starts with neither ['_'] nor
    ['w']: the keys built from such names cannot be confused with one
    another. *)
Definition plain_name (c : string) : bool :=
  match c with
  | EmptyString => false
  | String a _ => negb (bool_decide (a = "_"%char))
                  && negb (bool_decide (a = "w"%char))
  end.

Definition is_checkpoint_save (c : call) : bool :=
  match c with
  | Call_checkpoint_save _ => true
  | _ => false
  end.

(** The calls that evaluate one data set for [spv] steps. *)
Definition eval_calls (epoch spv : Z) (dataset_name : string) : list call :=
  Call_iter dataset_name epoch
    :: map (Call_test_step dataset_name epoch) (range 0 spv).

(** Making the calls of a list in order. *)
Definition perform_all (W : outcomes) (calls : list call) (t : trace)
  : result trace :=
  for_each calls (fun t c => perform W c t) t.

(** The calls of one epoch, as a list. *)
Definition epoch_calls (F : flags) (E : loop_env) (epoch : Z) : list call :=
  (map (Call_train_step epoch) (range 0 (steps_per_epoch E))
   ++ flat_map (fun kv => eval_calls epoch (steps_per_eval E) kv.1)
        (datasets_to_evaluate F E epoch)
   ++ (if interval_hit (FLAGS_corruptions_interval F) epoch
       then [Call_aggregate_corrupt_metrics epoch] else [])
   ++ [Call_write_summaries epoch; Call_reset_states epoch]
   ++ (if interval_hit (FLAGS_checkpoint_interval F) epoch
       then [Call_checkpoint_save (InEpoch epoch)] else []))%list.

(** The calls of a run, as a list. *)
Definition main_calls (F : flags) (E : loop_env) : list call :=
  (flat_map (epoch_calls F E)
     (range (initial_epoch E) (FLAGS_train_epochs F))
   ++ [Call_checkpoint_save AfterLoop])%list.

End Spec.

(** ** Sample inputs *)

Module Sample.

Import CondConv.

(** A checkpoint directory with two saved models, one other directory and
    one file whose name mentions a model. *)
Definition demo_fs : Retinopathy.filesystem := {|
  Retinopathy.fs_listdir := fun path =>
    if bool_decide (path = "/ckpt")
    then Some [ "keras_model_0"; "summaries"; "keras_model_1";
                "old_keras_model.txt" ]
    else None;
  Retinopathy.fs_isdir := fun path =>
    bool_decide (path ∈ [ "/ckpt"; "/ckpt/keras_model_0"; "/ckpt/summaries";
                          "/ckpt/keras_model_1" ])
|}.

(** Two experts on the CondDense path, corrupted evaluation and
    checkpoints every second epoch. *)
Definition demo_flags : flags := {|
  FLAGS_loss := loss_gibbs_ce;
  FLAGS_num_experts := 2;
  FLAGS_use_cond_dense := true;
  FLAGS_reduce_dense_outputs := false;
  FLAGS_use_bfloat16 := false;
  FLAGS_corruptions_interval := 2;
  FLAGS_checkpoint_interval := 2;
  FLAGS_train_epochs := 4
|}.

(** [F] with another value of the [loss] flag. *)
Definition with_loss (l : loss_kind) (F : flags) : flags := {|
  FLAGS_loss := l;
  FLAGS_num_experts := FLAGS_num_experts F;
  FLAGS_use_cond_dense := FLAGS_use_cond_dense F;
  FLAGS_reduce_dense_outputs := FLAGS_reduce_dense_outputs F;
  FLAGS_use_bfloat16 := FLAGS_use_bfloat16 F;
  FLAGS_corruptions_interval := FLAGS_corruptions_interval F;
  FLAGS_checkpoint_interval := FLAGS_checkpoint_interval F;
  FLAGS_train_epochs := FLAGS_train_epochs F
|}.

(** [demo_flags] with [--use_bfloat16]. *)
Definition bfloat16_flags : flags := {|
  FLAGS_loss := loss_gibbs_ce;
  FLAGS_num_experts := 2;
  FLAGS_use_cond_dense := true;
  FLAGS_reduce_dense_outputs := false;
  FLAGS_use_bfloat16 := true;
  FLAGS_corruptions_interval := 2;
  FLAGS_checkpoint_interval := 2;
  FLAGS_train_epochs := 4
|}.

Definition demo_env : loop_env := {|
  initial_epoch := 0;
  steps_per_epoch := 2;
  steps_per_eval := 1;
  corruption_types := [ "gaussian_noise"; "brightness" ];
  max_intensity := 2
|}.

(** A run in which every call returns. *)
Definition all_return : outcomes := fun _ => None.

(** A run in which the evaluation steps on corrupted data sets raise. *)
Definition corrupted_steps_raise : outcomes := fun c =>
  match c with
  | Call_test_step dataset_name _ _ =>
      if bool_decide (dataset_name = "clean") then None
      else Some (KeyError ("test/nll_weighted_moe" ++ dataset_name))
  | _ => None
  end.

(** One example, two experts, two classes: every logit is 1. *)
Definition ones_logits : tensor3 := [[[1; 1]; [1; 1]]]%R.

(** Routing weights 1/2 and 1/2 (the sigmoid of 0, and also normalised). *)
Definition half_weights : tensor2 := [[1 / 2; 1 / 2]]%R.

Definition zero_labels : list nat := [0].

(** One example whose two experts disagree: softmax (1/2, 1/2) and
    (3/4, 1/4). *)
Definition mixed_logits : tensor3 := [[[0; 0]; [ln 3; 0]]]%R.

End Sample.

Import Spec Sample.

(** ** The rest of [baselines/cifar/condconv.py]: the setup arithmetic *)

Module Driver.

(** [a // b]: [None] stands for [ZeroDivisionError]. *)
Definition floordiv (a b : Z) : option Z :=
  if bool_decide (b = 0)%Z then None else Some (a / b)%Z.

(** [batch_size = FLAGS.per_core_batch_size * FLAGS.num_cores]. *)
Definition batch_size (per_core_batch_size num_cores : Z) : Z :=
  (per_core_batch_size * num_cores)%Z.

(** [steps_per_epoch = num_examples // batch_size]; [steps_per_eval] is
    the same expression on the test split. *)
Definition steps_of (num_examples per_core_batch_size num_cores : Z)
  : option Z :=
  floordiv num_examples (batch_size per_core_batch_size num_cores).

(** [initial_epoch]: 0, or [optimizer.iterations.numpy() // steps_per_epoch]
    when [tf.train.latest_checkpoint] found a checkpoint ([None] and the
    empty string are false). The dividend is a NumPy integer: its floor
    division by zero gives 0 with a warning, as [Z.div] does, and does not
    raise. *)
Definition restored_initial_epoch (latest_checkpoint : option string)
  (iterations steps_per_epoch : Z) : Z :=
  match latest_checkpoint with
  | None => 0%Z
  | Some path =>
      if bool_decide (path = "") then 0%Z
      else (iterations / steps_per_epoch)%Z
  end.

(** [current_step = epoch * steps_per_epoch + (step + 1)]. *)
Definition current_step (epoch steps_per_epoch step : Z) : Z :=
  (epoch * steps_per_epoch + (step + 1))%Z.

(** [max_steps = steps_per_epoch * FLAGS.train_epochs]. *)
Definition max_steps (steps_per_epoch train_epochs : Z) : Z :=
  (steps_per_epoch * train_epochs)%Z.

(** [lr_decay_epochs]: [parse] is [int] on the strings of the flag. *)
Definition lr_decay_epochs (parse : string -> result Z)
  (flag : list string) (train_epochs : Z) : result (list Z) :=
  traverse (fun start_epoch_str =>
              do start <- parse start_epoch_str;
              Ok ((start * train_epochs) / 200)%Z)
    flag.

(** What the setup of [main] reads: the sizes of the two splits, two flags,
    what [tf.train.latest_checkpoint] found and the restored step counter,
    and what [utils.load_corrupted_test_info] returned. *)
Record setup : Type := {
  train_examples : Z;
  test_examples : Z;
  per_core_batch_size : Z;
  num_cores : Z;
  latest_checkpoint : option string;
  iterations : Z;
  loaded_corruption_types : list string;
  loaded_max_intensity : Z
}.

(** The values with which [main] enters the epoch loop. *)
Definition loop_env_of (S : setup) : option CondConv.loop_env :=
  spe ← steps_of (train_examples S) (per_core_batch_size S) (num_cores S);
  spv ← steps_of (test_examples S) (per_core_batch_size S) (num_cores S);
  Some {| CondConv.initial_epoch :=
            restored_initial_epoch (latest_checkpoint S) (iterations S) spe;
          CondConv.steps_per_epoch := spe;
          CondConv.steps_per_eval := spv;
          CondConv.corruption_types := loaded_corruption_types S;
          CondConv.max_intensity := loaded_max_intensity S |}.

(** The distribution strategy set up at the start of [main]. *)
Inductive strategy : Type :=
| MirroredStrategy
| TPUStrategy (tpu : option string).

(** What the setup does besides returning: log lines, clusters connected
    to and TPU systems initialised, each in order. *)
Record host : Type := {
  environ : gmap string string;
  log : list string;
  connected : list (option string);
  initialized : list (option string)
}.

Definition logging_info (line : string) (h : host) : host :=
  {| environ := environ h; log := (log h ++ [line])%list;
     connected := connected h; initialized := initialized h |}.

Definition setenv (name v : string) (h : host) : host :=
  {| environ := <[name := v]> (environ h); log := log h;
     connected := connected h; initialized := initialized h |}.

(** The three calls that bring a TPU up, and the strategy built on it.
    The calls are taken to succeed. *)
Definition connect_tpu (tpu : option string) (h : host) : strategy * host :=
  (TPUStrategy tpu,
   {| environ := environ h; log := log h;
      connected := (connected h ++ [tpu])%list;
      initialized := (initialized h ++ [tpu])%list |}).

(** ['Use TPU at %s'] with [tpu if tpu is not None else 'local']. *)
Definition tpu_log_line (tpu : option string) : string :=
  "Use TPU at " ++ match tpu with Some name => name | None => "local" end.

(** The strategy selection of [main]. *)
Definition main_strategy (use_gpu : bool) (tpu : option string) (h : host)
  : strategy * host :=
  if use_gpu then (MirroredStrategy, logging_info "Use GPU" h)
  else connect_tpu tpu (logging_info (tpu_log_line tpu) h).

End Driver.

(** ** [train_step] and [test_step] as Python sees them *)

Module Steps.

Import CondConv.

(** Both steps are decorated with [@tf.function]: their body runs once,
    while the function is traced, and what it raises then is what the
    caller sees. An incompatible-shapes error of the framework is then a
    Python [ValueError]; [shape_message] is the text the framework gives
    it, which depends on the operation. *)
Definition traced {A} (shape_message : string) (c : result A) : result A :=
  match c with
  | Raise ShapeError => Raise (ValueError shape_message)
  | _ => c
  end.

(** [train_step] on one batch. *)
Definition train_step (shape_message : string) (F : flags)
  (metrics : gmap string metric) (model_output : value) (labels : list nat)
  (l2_loss : R) : result (probs_value * R * R * gmap string metric) :=
  traced shape_message (train_step_fn F metrics model_output labels l2_loss).

(** [test_step] on one batch. *)
Definition test_step (shape_message : string) (F : flags)
  (metrics : gmap string metric)
  (corrupt_metrics : option (gmap string metric)) (dataset_name : string)
  (model_output : value) (labels : list nat)
  : result (gmap string metric * option (gmap string metric)) :=
  traced shape_message
    (test_step_fn F metrics corrupt_metrics dataset_name model_output labels).

End Steps.

(** ** The rest of [baselines/diabetic_retinopathy_detection/utils.py] *)

Module RetinopathyUtils.

Import Driver.

Definition init_distribution_strategy (force_use_cpu use_gpu : bool)
  (tpu_name : option string) (h : host) : strategy * host :=
  let h :=
    if force_use_cpu then
      setenv "CUDA_VISIBLE_DEVICES" "-1" (logging_info "Use CPU" h)
    else if use_gpu then logging_info "Use GPU" h
    else h in
  if force_use_cpu || use_gpu then (MirroredStrategy, h)
  else connect_tpu tpu_name (logging_info (tpu_log_line tpu_name) h).

(** A [TensorShape]: [None] when the rank is unknown, else its dimensions,
    each known or not. *)
Definition tensor_shape : Type := option (list (option Z)).

(** An entry of [element_spec]: a [TensorSpec], which has [.shape], or a
    [PerReplicaSpec], which has not and keeps the specs of its replicas in
    [_flat_tensor_specs]. *)
Inductive spec : Type :=
| TensorSpec (shape : tensor_shape)
| PerReplicaSpec (flat_tensor_specs : list tensor_shape).

(** [shape.as_list()]: raises [ValueError] on an unknown rank. *)
Definition as_list (shape : tensor_shape) : result (list (option Z)) :=
  match shape with
  | Some dims => Ok dims
  | None =>
      Raise (ValueError "as_list() is not defined on an unknown TensorShape.")
  end.

(** [xs[0]]. *)
Definition first_item {A} (xs : list A) : result A :=
  match xs with
  | x :: _ => Ok x
  | [] => Raise IndexError
  end.

Definition load_input_shape (element_spec : gmap string spec)
  : result (list (option Z)) :=
  do features <- getitem element_spec "features";
  do shape_tuple <-
    match features with
    | TensorSpec shape => Ok shape
    | PerReplicaSpec tensor_spec_list => first_item tensor_spec_list
    end;
  do dims <- as_list shape_tuple;
  Ok (tl dims).

(** What [parse_checkpoint_dir] reads: [io.gfile.glob], [io.gfile.walk]
    (the triples [(path, directories, files)] in walk order) and
    [tf.train.latest_checkpoint]. *)
Record checkpoint_fs : Type := {
  fs_glob : string -> list string;
  fs_walk : string -> list (string * list string * list string);
  fs_latest_checkpoint : string -> option string
}.

(** [is_checkpoint]. *)
Definition is_checkpoint (f : string) : bool :=
  str_contains "checkpoint" f && str_contains ".index" f.

(** [any(f for f in files if is_checkpoint(f))]: some selected name is a
    non-empty string. *)
Definition any_checkpoint (files : list string) : bool :=
  existsb (fun f => negb (bool_decide (f = "")))
    (List.filter is_checkpoint files).

(** The result of [parse_checkpoint_dir]: the paths, or the [TypeError] of
    [os.path.join(path, None)] for a directory without a latest
    checkpoint. *)
Inductive parsed : Type :=
| Paths (paths : list string)
| JoinTypeError (path : string).

(** The inner loop: the first walked directory with a checkpoint index
    file decides, and the [break] skips the rest. *)
Fixpoint first_checkpoint (fs : checkpoint_fs)
  (walked : list (string * list string * list string))
  : option (string * option string) :=
  match walked with
  | [] => None
  | (path, _, files) :: rest =>
      if any_checkpoint files
      then Some (path, fs_latest_checkpoint fs path)
      else first_checkpoint fs rest
  end.

(** The outer loop, threading [paths]. *)
Fixpoint parse_subdirectories (fs : checkpoint_fs)
  (subdirectories : list string) (paths : list string) : parsed :=
  match subdirectories with
  | [] => Paths paths
  | subdir :: rest =>
      match first_checkpoint fs (fs_walk fs subdir) with
      | None => parse_subdirectories fs rest paths
      | Some (path, Some latest_checkpoint_without_suffix) =>
          parse_subdirectories fs rest
            (paths ++ [os_path_join path latest_checkpoint_without_suffix])%list
      | Some (path, None) => JoinTypeError path
      end
  end.

Definition parse_checkpoint_dir (fs : checkpoint_fs) (checkpoint_dir : string)
  : parsed :=
  parse_subdirectories fs (fs_glob fs checkpoint_dir) [].

End RetinopathyUtils.

(** ** Vocabulary of the further statements *)

Module MoreSpec.

Import CondConv Driver RetinopathyUtils.

(** [S] with another restored checkpoint. *)
Definition with_checkpoint (latest : option string) (its : Z) (S : setup)
  : setup := {|
  train_examples := train_examples S;
  test_examples := test_examples S;
  per_core_batch_size := per_core_batch_size S;
  num_cores := num_cores S;
  latest_checkpoint := latest;
  iterations := its;
  loaded_corruption_types := loaded_corruption_types S;
  loaded_max_intensity := loaded_max_intensity S
|}.

(** One more [update_state] call on a metric. *)
Definition bump (m : metric) : metric :=
  {| metric_class := metric_class m; metric_updates := S (metric_updates m) |}.

(** [store[key].update_state(...)] for each key of a list, in order. *)
Definition update_all (keys : list string) (store : gmap string metric)
  : result (gmap string metric) :=
  for_each keys (fun store key => update_state key store) store.

(** The keys that [train_step] updates, in the order of the source. *)
Definition train_keys : list string :=
  [ "train/ece"; "train/loss"; "train/negative_log_likelihood";
    "train/accuracy" ].

(** The keys that [test_step] updates on the clean data set. *)
Definition clean_keys (F : flags) : list string :=
  if cond_dense_path F then
    ([ "test/nll_poe"; "test/nll_moe"; "test/nll_unweighted_poe";
       "test/nll_unweighted_moe"; "test/unweighted_gibbs_ce";
       "test/negative_log_likelihood"; "test/ece"; "test/accuracy";
       "test/ece_unweighted_moe"; "test/accuracy_unweighted_moe";
       "test/ece_poe"; "test/accuracy_poe"; "test/ece_unweighted_poe";
       "test/accuracy_unweighted_poe" ]
     ++ flat_map (fun idx =>
          [ ("test/dense_routing_weight_" ++ pretty idx)%string;
            ("test/dense_routing_weight_normalized_" ++ pretty idx)%string ])
          (range 0 (Z.of_nat (FLAGS_num_experts F))))%list
  else [ "test/negative_log_likelihood"; "test/accuracy"; "test/ece" ].

(** The updates of [test_step] on the clean data set. *)
Definition update_clean (F : flags) (metrics : gmap string metric)
  : result (gmap string metric) :=
  if cond_dense_path F then update_clean_cond_dense F metrics
  else update_clean_plain metrics.

(** An evaluation step on a data set other than ['clean']. *)
Definition evaluates_corrupted (c : call) : bool :=
  match c with
  | Call_test_step dataset_name _ _ =>
      negb (bool_decide (dataset_name = "clean"))
  | _ => false
  end.

(** What one globbed subdirectory contributes: nothing when no walked
    directory holds a checkpoint index file, else the first such directory
    and its latest checkpoint. *)
Definition found (fs : checkpoint_fs) (subdir : string)
  : option (string * option string) :=
  first_checkpoint fs (fs_walk fs subdir).

(** The path that a subdirectory adds to the result. *)
Definition joined_path (fs : checkpoint_fs) (subdir : string)
  : option string :=
  match found fs subdir with
  | Some (path, Some latest) => Some (os_path_join path latest)
  | _ => None
  end.

(** The subdirectory makes [os.path.join] fail. *)
Definition breaks_join (fs : checkpoint_fs) (subdir : string) : bool :=
  match found fs subdir with
  | Some (_, None) => true
  | _ => false
  end.

End MoreSpec.

Import MoreSpec.

(** ** Sample inputs for the setup and the utilities *)

Module MoreSamples.

Import Driver RetinopathyUtils.

(** Two runs below one root: the first keeps its checkpoints one level
    down, in two directories, the second has none. *)
Definition demo_checkpoint_fs : checkpoint_fs := {|
  fs_glob := fun pattern =>
    if bool_decide (pattern = "/runs/*") then ["/runs/a"; "/runs/b"] else [];
  fs_walk := fun top =>
    if bool_decide (top = "/runs/a") then
      [ ("/runs/a", ["ckpt"; "old"], ["notes.txt"]);
        ("/runs/a/ckpt", [], ["checkpoint"; "checkpoint-3.index"]);
        ("/runs/a/old", [], ["checkpoint"; "checkpoint-1.index"]) ]
    else if bool_decide (top = "/runs/b") then
      [ ("/runs/b", [], ["events.out"]) ]
    else [];
  fs_latest_checkpoint := fun path =>
    if bool_decide (path = "/runs/a/ckpt")
    then Some "/runs/a/ckpt/checkpoint-3"
    else if bool_decide (path = "/runs/a/old")
    then Some "/runs/a/old/checkpoint-1"
    else None
|}.

(** [int] on the default value of the [lr_decay_epochs] flag. *)
Definition parse_default_epochs (s : string) : result Z :=
  if bool_decide (s = "60") then Ok 60%Z
  else if bool_decide (s = "120") then Ok 120%Z
  else if bool_decide (s = "160") then Ok 160%Z
  else Raise (ValueError "invalid literal for int() with base 10").

(** The CIFAR splits in batches of 64 * 8, from scratch. *)
Definition demo_setup : setup := {|
  train_examples := 50000;
  test_examples := 10000;
  per_core_batch_size := 64;
  num_cores := 8;
  latest_checkpoint := None;
  iterations := 0;
  loaded_corruption_types := [ "gaussian_noise"; "brightness" ];
  loaded_max_intensity := 5
|}.

(** A directory written with TensorFlow's default checkpoint names: the
    state file is called [checkpoint], the index file is not. *)
Definition default_names_fs : checkpoint_fs := {|
  fs_glob := fun _ => ["/runs/c"];
  fs_walk := fun _ =>
    [ ("/runs/c", [],
       ["checkpoint"; "ckpt-1.index"; "ckpt-1.data-00000-of-00001"]) ];
  fs_latest_checkpoint := fun _ => Some "/runs/c/ckpt-1"
|}.

End MoreSamples.

Import MoreSamples.

(** * Verified properties *)

(** ** The definitions on small inputs *)

Example range_1_3 : range 1 3 = [1; 2]%Z.
Proof. reflexivity. Qed.

Example range_empty : range 5 2 = [].
Proof. reflexivity. Qed.

Example os_path_join_dir : os_path_join "/ckpt" "keras_model_0"
                           = "/ckpt/keras_model_0".
Proof. reflexivity. Qed.

Example os_path_join_trailing_sep : os_path_join "/ckpt/" "m" = "/ckpt/m".
Proof. reflexivity. Qed.

Example os_path_join_absolute : os_path_join "/ckpt" "/tmp/m" = "/tmp/m".
Proof. reflexivity. Qed.

Example str_contains_inside :
  str_contains "keras_model" "old_keras_model.txt" = true.
Proof. reflexivity. Qed.

Example str_contains_absent : str_contains "keras_model" "summaries" = false.
Proof. reflexivity. Qed.

Example corrupted_name_fog : CondConv.corrupted_name "fog" 3 = "fog_3".
Proof. reflexivity. Qed.

Example test_datasets_sample :
  map fst (CondConv.test_datasets demo_flags demo_env) =
    [ "clean"; "gaussian_noise_1"; "gaussian_noise_2"; "brightness_1";
      "brightness_2" ].
Proof. reflexivity. Qed.

Example test_datasets_default :
  CondConv.test_datasets CondConv.default_flags demo_env
  = [("clean", CondConv.CleanTest)].
Proof. reflexivity. Qed.

Example saves_sample :
  CondConv.main_loop all_return demo_flags demo_env
  = Ok (main_calls demo_flags demo_env)
  /\ List.filter is_checkpoint_save (main_calls demo_flags demo_env) =
      [ CondConv.Call_checkpoint_save (CondConv.InEpoch 1);
        CondConv.Call_checkpoint_save (CondConv.InEpoch 3);
        CondConv.Call_checkpoint_save CondConv.AfterLoop ].
Proof. split; vm_compute; reflexivity. Qed.

Example saves_default :
  exists t,
    CondConv.main_loop all_return CondConv.default_flags demo_env = Ok t
    /\ List.filter is_checkpoint_save t =
        [ CondConv.Call_checkpoint_save CondConv.AfterLoop ].
Proof. eexists. split; vm_compute; reflexivity. Qed.

Example corrupted_steps_end_the_run :
  CondConv.main_loop corrupted_steps_raise demo_flags demo_env
  = Raise (KeyError "test/nll_weighted_moegaussian_noise_1").
Proof. vm_compute. reflexivity. Qed.

(** ** Strings *)

Section StringFacts.

Lemma prefix_app (s t : string) :
  String.prefix s t = true <-> exists b, t = s ++ b.
Proof.
  revert t. induction s as [|c s IH]; intros t; simpl.
  - split; [intros _; exists t; reflexivity |].
    intros _. destruct t; reflexivity.
  - destruct t as [|d t]; simpl.
    + split; [discriminate | intros [b Hb]; discriminate].
    + destruct (Ascii.ascii_dec c d) as [->|Hne].
      * rewrite IH. split; intros [b Hb]; exists b.
        -- subst t. reflexivity.
        -- inversion Hb. reflexivity.
      * split; [discriminate | intros [b Hb]; inversion Hb; congruence].
Qed.

Lemma str_contains_spec (s t : string) :
  str_contains s t = true <-> exists a b, t = a ++ s ++ b.
Proof.
  induction t as [|c t IH].
  - change (str_contains s "") with (String.prefix s "" || false).
    rewrite orb_false_r, prefix_app. split.
    + intros [b Hb]. exists "", b. exact Hb.
    + intros [a [b Hab]]. destruct a; simpl in Hab.
      * exists b. exact Hab.
      * discriminate.
  - change (str_contains s (String c t))
      with (String.prefix s (String c t) || str_contains s t).
    rewrite orb_true_iff, prefix_app, IH. split.
    + intros [[b Hb] | [a [b Hab]]].
      * exists "", b. exact Hb.
      * exists (String c a), b. subst t. reflexivity.
    + intros [a [b Hab]]. destruct a as [|d a]; simpl in Hab.
      * left. exists b. exact Hab.
      * right. exists a, b. inversion Hab. reflexivity.
Qed.

End StringFacts.

(** ** Retinopathy utilities *)

Import Retinopathy.

(** C8. For every [use_tpu] and [num_bins] the keys of the dictionary that
    [get_diabetic_retinopathy_base_metrics] returns are the five base keys
    together with the two AUC keys when [use_tpu] is true and with the two
    ECE keys when it is false: an AUC key is present exactly when [use_tpu]
    is true, an ECE key exactly when it is false, and never both. *)
Theorem base_metrics_keys (use_tpu : bool) (num_bins : Z) :
  let metrics := get_diabetic_retinopathy_base_metrics use_tpu num_bins in
  dom metrics =
    list_to_set
      ([ "train/negative_log_likelihood"; "train/accuracy"; "train/loss";
         "test/negative_log_likelihood"; "test/accuracy" ] ++
       (if use_tpu then [ "train/auc"; "test/auc" ]
        else [ "train/ece"; "test/ece" ]))%list
  /\ (forall k, k ∈ [ "train/auc"; "test/auc" ] ->
        (is_Some (metrics !! k) <-> use_tpu = true))
  /\ (forall k, k ∈ [ "train/ece"; "test/ece" ] ->
        (is_Some (metrics !! k) <-> use_tpu = false))
  /\ (forall ka ke, ka ∈ [ "train/auc"; "test/auc" ] ->
        ke ∈ [ "train/ece"; "test/ece" ] ->
        ~ (is_Some (metrics !! ka) /\ is_Some (metrics !! ke))).
Proof.
  assert (Hauc : forall k, k ∈ [ "train/auc"; "test/auc" ] ->
     (is_Some (get_diabetic_retinopathy_base_metrics use_tpu num_bins !! k)
      <-> use_tpu = true)).
  { intros k Hk. rewrite !elem_of_cons, elem_of_nil in Hk.
    destruct Hk as [-> | [-> | []]]; destruct use_tpu;
      (split; [intros [v Hv]; (reflexivity || discriminate Hv)
              | intros H; (discriminate H || (eexists; reflexivity))]). }
  assert (Hece : forall k, k ∈ [ "train/ece"; "test/ece" ] ->
     (is_Some (get_diabetic_retinopathy_base_metrics use_tpu num_bins !! k)
      <-> use_tpu = false)).
  { intros k Hk. rewrite !elem_of_cons, elem_of_nil in Hk.
    destruct Hk as [-> | [-> | []]]; destruct use_tpu;
      (split; [intros [v Hv]; (reflexivity || discriminate Hv)
              | intros H; (discriminate H || (eexists; reflexivity))]). }
  cbv zeta. repeat split.
  - destruct use_tpu; reflexivity.
  - apply Hauc; assumption.
  - apply Hauc; assumption.
  - apply Hece; assumption.
  - apply Hece; assumption.
  - intros ka ke Hka Hke [Ha He].
    apply (Hauc ka Hka) in Ha. apply (Hece ke Hke) in He. congruence.
Qed.

(** C9, counterexample. With [use_tpu = False] the key ['train/auc'] is
    read by [log_epoch_metrics] and absent from the base metrics, and the
    composition raises [KeyError]. *)
Lemma log_epoch_metrics_gpu_key_error :
  "train/auc" ∈ log_epoch_metrics_keys false
  /\ get_diabetic_retinopathy_base_metrics false 15 !! "train/auc" = None
  /\ log_epoch_metrics (get_diabetic_retinopathy_base_metrics false 15) false
     = Raise (KeyError "train/auc").
Proof.
  split; [|split].
  - unfold log_epoch_metrics_keys. rewrite !elem_of_cons. auto.
  - reflexivity.
  - reflexivity.
Qed.

(** C9, amended. Every key that [log_epoch_metrics] reads is present in
    the base metrics for the same [use_tpu] when [use_tpu] is true, and when
    it is false for every key other than ['train/auc'] and ['test/auc']. *)
Theorem log_epoch_metrics_lookups (use_tpu : bool) (num_bins : Z) (k : string) :
  k ∈ log_epoch_metrics_keys use_tpu ->
  use_tpu = true \/ (k <> "train/auc" /\ k <> "test/auc") ->
  is_Some (get_diabetic_retinopathy_base_metrics use_tpu num_bins !! k).
Proof.
  intros Hk Hcond. destruct use_tpu; unfold log_epoch_metrics_keys in Hk;
    rewrite !elem_of_cons, elem_of_nil in Hk.
  - repeat (destruct Hk as [-> | Hk]; [eexists; reflexivity |]). destruct Hk.
  - destruct Hcond as [Ht | [Hn1 Hn2]]; [discriminate Ht |].
    repeat (destruct Hk as [-> | Hk];
            [first [eexists; reflexivity | congruence] |]).
    destruct Hk.
Qed.

(** The amended C9 at [use_tpu = False], [num_bins = 15] and the key
    ['train/ece']. *)
Lemma log_epoch_metrics_lookups_witness :
  "train/ece" ∈ log_epoch_metrics_keys false
  /\ is_Some (get_diabetic_retinopathy_base_metrics false 15 !! "train/ece").
Proof.
  assert (H : "train/ece" ∈ log_epoch_metrics_keys false).
  { unfold log_epoch_metrics_keys. rewrite !elem_of_cons. auto 6. }
  split; [exact H |].
  apply (log_epoch_metrics_lookups false 15 "train/ece" H).
  right. split; discriminate.
Defined.

(** On TPU the composition of the two functions returns. *)
Lemma log_epoch_metrics_tpu_returns (num_bins : Z) :
  returns
    (log_epoch_metrics (get_diabetic_retinopathy_base_metrics true num_bins)
       true).
Proof. eexists. reflexivity. Qed.

(** Off TPU it returns once the caller has added the two AUC metrics, as
    the docstring of [get_diabetic_retinopathy_base_metrics] asks. *)
Lemma log_epoch_metrics_gpu_with_auc_returns (num_bins : Z) :
  returns
    (log_epoch_metrics
       (dict_update (get_diabetic_retinopathy_base_metrics false num_bins)
          (dict_of [("train/auc", AUC); ("test/auc", AUC)]))
       false).
Proof. eexists. reflexivity. Qed.

Section ParseKerasModels.

Variable fs : filesystem.
Variable checkpoint_dir : string.

Local Abbreviation selected :=
  (fun dir_name =>
     fs_isdir fs (os_path_join checkpoint_dir dir_name)
     && str_contains "keras_model" dir_name).

Lemma parse_keras_models_loop_spec (entries paths : list string) :
  parse_keras_models_loop checkpoint_dir entries paths fs =
    (Ok (paths ++ map (os_path_join checkpoint_dir)
                    (List.filter selected entries))%list, fs).
Proof.
  revert paths. induction entries as [|d rest IH]; intros paths.
  - simpl. unfold io_ret. rewrite app_nil_r. reflexivity.
  - cbn [parse_keras_models_loop List.filter].
    unfold io_bind, gfile_isdir, is_keras_model_dir. cbn beta.
    destruct (fs_isdir fs (os_path_join checkpoint_dir d)
              && str_contains "keras_model" d).
    + rewrite IH. cbn [map]. rewrite <- app_assoc. reflexivity.
    + apply IH.
Qed.

Lemma parse_keras_models_state : (parse_keras_models checkpoint_dir fs).2 = fs.
Proof.
  unfold parse_keras_models, io_bind, gfile_listdir.
  destruct (fs_listdir fs checkpoint_dir) as [entries|].
  - rewrite parse_keras_models_loop_spec. reflexivity.
  - reflexivity.
Qed.

End ParseKerasModels.

(** C10. When [checkpoint_dir] can be listed, [parse_keras_models] returns
    the joined paths of the listed entries that are directories and whose
    name contains ['keras_model'], in listing order, and leaves the file
    system as it was. *)
Theorem parse_keras_models_spec (fs : filesystem) (checkpoint_dir : string)
  (entries : list string) :
  fs_listdir fs checkpoint_dir = Some entries ->
  parse_keras_models checkpoint_dir fs =
    (Ok (map (os_path_join checkpoint_dir)
           (List.filter
              (fun d => fs_isdir fs (os_path_join checkpoint_dir d)
                        && str_contains "keras_model" d)
              entries)), fs)
  /\ (forall d,
        fs_isdir fs (os_path_join checkpoint_dir d)
        && str_contains "keras_model" d = true <->
        fs_isdir fs (os_path_join checkpoint_dir d) = true
        /\ contains_substring "keras_model" d).
Proof.
  intros Hls. split.
  - unfold parse_keras_models, io_bind, gfile_listdir. rewrite Hls.
    apply parse_keras_models_loop_spec.
  - intros d. unfold contains_substring.
    rewrite andb_true_iff, str_contains_spec. reflexivity.
Qed.

(** C10 on the sample checkpoint directory. *)
Lemma parse_keras_models_spec_witness :
  fs_listdir demo_fs "/ckpt" =
    Some ["keras_model_0"; "summaries"; "keras_model_1";
          "old_keras_model.txt"]
  /\ parse_keras_models "/ckpt" demo_fs =
      (Ok ["/ckpt/keras_model_0"; "/ckpt/keras_model_1"], demo_fs).
Proof.
  split; [reflexivity |].
  apply (parse_keras_models_spec demo_fs "/ckpt"
           ["keras_model_0"; "summaries"; "keras_model_1";
            "old_keras_model.txt"]).
  reflexivity.
Defined.

(** For a non-empty directory name without a trailing separator and a
    relative entry, the joined path is [checkpoint_dir/entry]. *)
Lemma os_path_join_plain (a b : string) :
  a <> "" -> endswith_sep a = false -> startswith "/" b = false ->
  os_path_join a b = a ++ "/" ++ b.
Proof.
  intros Ha He Hb. unfold os_path_join. rewrite Hb, He.
  rewrite bool_decide_eq_false_2 by exact Ha. reflexivity.
Qed.

(** ** The epoch loop *)

Import CondConv.

Section Loop.

Variable W : outcomes.

Lemma perform_all_app (calls1 calls2 : list call) (t : trace) :
  perform_all W (calls1 ++ calls2)%list t =
    bind (perform_all W calls1 t) (perform_all W calls2).
Proof.
  unfold perform_all. revert t.
  induction calls1 as [|c calls1 IH]; intros t; simpl; [reflexivity |].
  destruct (perform W c t) as [t' | e]; simpl; [apply IH | reflexivity].
Qed.

(** A loop whose body makes a list of calls makes their concatenation. *)
Lemma for_loop_perform_all {A} (h : A -> list call)
  (body : A -> trace -> result trace) (xs : list A) (t : trace) :
  (forall x t, body x t = perform_all W (h x) t) ->
  for_loop xs body t = perform_all W (flat_map h xs) t.
Proof.
  intros Hbody. unfold for_loop. revert t.
  induction xs as [|x xs IH]; intros t; simpl; [reflexivity |].
  rewrite perform_all_app, Hbody.
  destruct (perform_all W (h x) t) as [t' | e]; simpl;
    [apply IH | reflexivity].
Qed.

Lemma perform_single (c : call) (t : trace) :
  perform W c t = perform_all W [c] t.
Proof.
  unfold perform_all. simpl. destruct (perform W c t); reflexivity.
Qed.

Lemma for_loop_perform {A} (g : A -> call) (xs : list A) (t : trace) :
  for_loop xs (fun x => perform W (g x)) t = perform_all W (map g xs) t.
Proof.
  rewrite (for_loop_perform_all (fun x => [g x]))
    by (intros x t'; apply perform_single).
  f_equal.
Qed.

(** The loop body, written in the error monad, makes the calls of
    [epoch_calls] in order. *)
Lemma epoch_body_calls (F : flags) (E : loop_env) (epoch : Z) (t : trace) :
  epoch_body W F E epoch t = perform_all W (epoch_calls F E epoch) t.
Proof.
  unfold epoch_body, epoch_calls.
  rewrite perform_all_app, (for_loop_perform (Call_train_step epoch)).
  destruct (perform_all W _ t) as [t1 | e]; cbn [bind]; [| reflexivity].
  rewrite (for_loop_perform_all
             (fun kv => eval_calls epoch (steps_per_eval E) kv.1)).
  2:{ intros kv t'. unfold eval_calls.
      change (Call_iter kv.1 epoch
                :: map (Call_test_step kv.1 epoch)
                     (range 0 (steps_per_eval E)))
        with ([Call_iter kv.1 epoch]
              ++ map (Call_test_step kv.1 epoch)
                   (range 0 (steps_per_eval E)))%list.
      rewrite perform_all_app, <- perform_single.
      destruct (perform W (Call_iter kv.1 epoch) t') as [t'' | e];
        cbn [bind]; [| reflexivity].
      apply (for_loop_perform (Call_test_step kv.1 epoch)). }
  rewrite perform_all_app.
  destruct (perform_all W _ t1) as [t2 | e]; cbn [bind]; [| reflexivity].
  rewrite perform_all_app.
  assert (Hagg :
    (if interval_hit (FLAGS_corruptions_interval F) epoch
     then perform W (Call_aggregate_corrupt_metrics epoch) t2 else Ok t2) =
    perform_all W
      (if interval_hit (FLAGS_corruptions_interval F) epoch
       then [Call_aggregate_corrupt_metrics epoch] else []) t2).
  { destruct (interval_hit (FLAGS_corruptions_interval F) epoch);
      [apply perform_single | reflexivity]. }
  rewrite Hagg.
  destruct (perform_all W _ t2) as [t3 | e]; cbn [bind]; [| reflexivity].
  unfold perform_all. cbn [app for_each].
  destruct (perform W (Call_write_summaries epoch) t3) as [t4 | e];
    cbn [bind]; [| reflexivity].
  destruct (perform W (Call_reset_states epoch) t4) as [t5 | e];
    cbn [bind]; [| reflexivity].
  destruct (interval_hit (FLAGS_checkpoint_interval F) epoch);
    cbn [for_each]; [| reflexivity].
  destruct (perform W _ t5); reflexivity.
Qed.

Lemma main_loop_calls (F : flags) (E : loop_env) :
  main_loop W F E = perform_all W (main_calls F E) [].
Proof.
  unfold main_loop, main_calls.
  rewrite (for_loop_perform_all (epoch_calls F E))
    by (intros e t; apply epoch_body_calls).
  rewrite perform_all_app.
  destruct (perform_all W _ []) as [t | e]; cbn [bind];
    [apply perform_single | reflexivity].
Qed.

(** The calls are made until one raises: the list completes exactly when
    each of its calls returns, and then the trace has grown by the list. *)
Lemma perform_all_ok (calls : list call) (t t' : trace) :
  perform_all W calls t = Ok t' <->
  Forall (fun c => W c = None) calls /\ t' = (t ++ calls)%list.
Proof.
  unfold perform_all. revert t.
  induction calls as [|c calls IH]; intros t; simpl.
  - rewrite app_nil_r. split.
    + intros Heq. injection Heq as <-. split; [constructor | reflexivity].
    + intros [_ ->]. reflexivity.
  - unfold perform at 1. destruct (W c) as [e |] eqn:Hc; simpl.
    + split; [discriminate |]. intros [Hall _].
      apply Forall_cons in Hall. destruct Hall as [Hc' _]. congruence.
    + rewrite IH, <- app_assoc. simpl. split.
      * intros [Hall ->]. split; [constructor; assumption | reflexivity].
      * intros [Hall ->]. apply Forall_cons in Hall.
        destruct Hall as [_ Hall]. auto.
Qed.

(** A run completes exactly when each of its calls returns. *)
Lemma main_loop_returns (F : flags) (E : loop_env) :
  returns (main_loop W F E) <->
  Forall (fun c => W c = None) (main_calls F E).
Proof.
  rewrite main_loop_calls. unfold returns. split.
  - intros [t Ht]. apply perform_all_ok in Ht. tauto.
  - intros Hall. eexists. apply perform_all_ok. split; [exact Hall |].
    reflexivity.
Qed.

End Loop.

Section Schedule.

Lemma interval_hit_spec (interval epoch : Z) :
  interval_hit interval epoch = true <->
  (interval > 0 /\ (epoch + 1) mod interval = 0)%Z.
Proof.
  unfold interval_hit.
  rewrite andb_true_iff, !bool_decide_eq_true. reflexivity.
Qed.

Lemma interval_hit_divides (interval epoch : Z) :
  interval_hit interval epoch = true <->
  (interval > 0 /\ (interval | epoch + 1))%Z.
Proof.
  rewrite interval_hit_spec. split; intros [Hpos H]; (split; [exact Hpos |]).
  - apply Z.mod_divide; [lia | exact H].
  - apply Z.mod_divide; [lia | exact H].
Qed.

Lemma filter_map_none {A} (p : call -> bool) (g : A -> call) (xs : list A) :
  (forall x, p (g x) = false) -> List.filter p (map g xs) = [].
Proof.
  intros Hp. induction xs as [|x xs IH]; simpl; [reflexivity |].
  rewrite Hp. exact IH.
Qed.

Lemma filter_flat_map_none {A} (p : call -> bool) (h : A -> list call)
  (xs : list A) :
  (forall x, List.filter p (h x) = []) -> List.filter p (flat_map h xs) = [].
Proof.
  intros Hp. induction xs as [|x xs IH]; simpl; [reflexivity |].
  rewrite List.filter_app, Hp, IH. reflexivity.
Qed.

Lemma epoch_calls_saves (F : flags) (E : loop_env) (epoch : Z) :
  List.filter is_checkpoint_save (epoch_calls F E epoch) =
    if interval_hit (FLAGS_checkpoint_interval F) epoch
    then [Call_checkpoint_save (InEpoch epoch)] else [].
Proof.
  unfold epoch_calls. rewrite !List.filter_app.
  rewrite filter_map_none by reflexivity.
  rewrite filter_flat_map_none.
  2:{ intros kv. unfold eval_calls. simpl.
      apply filter_map_none. reflexivity. }
  destruct (interval_hit (FLAGS_corruptions_interval F) epoch);
    destruct (interval_hit (FLAGS_checkpoint_interval F) epoch); reflexivity.
Qed.

Lemma epoch_calls_last_save (F : flags) (E : loop_env) (epoch : Z) :
  interval_hit (FLAGS_checkpoint_interval F) epoch = true ->
  last (epoch_calls F E epoch) = Some (Call_checkpoint_save (InEpoch epoch)).
Proof.
  intros Hhit. unfold epoch_calls. rewrite Hhit.
  rewrite !app_assoc. apply last_snoc.
Qed.

Lemma main_calls_saves (F : flags) (E : loop_env) :
  List.filter is_checkpoint_save (main_calls F E) =
    (map (fun e => Call_checkpoint_save (InEpoch e))
       (List.filter (interval_hit (FLAGS_checkpoint_interval F))
          (range (initial_epoch E) (FLAGS_train_epochs F)))
     ++ [Call_checkpoint_save AfterLoop])%list.
Proof.
  unfold main_calls. rewrite List.filter_app. f_equal.
  induction (range (initial_epoch E) (FLAGS_train_epochs F)) as [|e es IH];
    [reflexivity |].
  cbn [flat_map List.filter]. rewrite List.filter_app, epoch_calls_saves, IH.
  destruct (interval_hit (FLAGS_checkpoint_interval F) e); reflexivity.
Qed.

End Schedule.

(** C6. In a run that completes, the [checkpoint.save] calls are, in
    order, one call at the end of each epoch [e] of the loop with
    [checkpoint_interval > 0] and [checkpoint_interval] dividing [e + 1],
    and then one final call after the loop, whatever [checkpoint_interval]
    is; with a non-positive interval (such as -1) the final call is the
    only one. *)
Theorem checkpoint_schedule (W : outcomes) (F : flags) (E : loop_env)
  (t : trace) :
  main_loop W F E = Ok t ->
  List.filter is_checkpoint_save t =
    (map (fun e => Call_checkpoint_save (InEpoch e))
       (List.filter (interval_hit (FLAGS_checkpoint_interval F))
          (range (initial_epoch E) (FLAGS_train_epochs F)))
     ++ [Call_checkpoint_save AfterLoop])%list
  /\ (forall e te, epoch_body W F E e [] = Ok te ->
        List.filter is_checkpoint_save te =
          (if interval_hit (FLAGS_checkpoint_interval F) e
           then [Call_checkpoint_save (InEpoch e)] else [])
        /\ (interval_hit (FLAGS_checkpoint_interval F) e = true ->
            last te = Some (Call_checkpoint_save (InEpoch e))))
  /\ (forall e, interval_hit (FLAGS_checkpoint_interval F) e = true <->
        (FLAGS_checkpoint_interval F > 0
         /\ (FLAGS_checkpoint_interval F | e + 1))%Z)
  /\ last t = Some (Call_checkpoint_save AfterLoop)
  /\ ((FLAGS_checkpoint_interval F <= 0)%Z ->
      List.filter is_checkpoint_save t = [Call_checkpoint_save AfterLoop]).
Proof.
  intros Hrun. rewrite main_loop_calls in Hrun.
  apply perform_all_ok in Hrun. destruct Hrun as [_ ->]. cbn [app].
  split; [apply main_calls_saves |]. split; [| split; [| split]].
  - intros e te Hte. rewrite epoch_body_calls in Hte.
    apply perform_all_ok in Hte. destruct Hte as [_ ->]. cbn [app].
    split; [apply epoch_calls_saves | apply epoch_calls_last_save].
  - intros e. apply interval_hit_divides.
  - unfold main_calls. apply last_snoc.
  - intros Hci. rewrite main_calls_saves.
    induction (range (initial_epoch E) (FLAGS_train_epochs F)) as [|e es IH];
      [reflexivity |].
    cbn [List.filter].
    destruct (interval_hit (FLAGS_checkpoint_interval F) e) eqn:Hhit;
      [| exact IH].
    apply interval_hit_spec in Hhit. lia.
Qed.

(** C6 in the sample run, every call returning. *)
Lemma checkpoint_schedule_witness :
  main_loop all_return demo_flags demo_env
  = Ok (main_calls demo_flags demo_env)
  /\ List.filter is_checkpoint_save (main_calls demo_flags demo_env) =
      [ Call_checkpoint_save (InEpoch 1); Call_checkpoint_save (InEpoch 3);
        Call_checkpoint_save AfterLoop ].
Proof.
  assert (Hrun : main_loop all_return demo_flags demo_env
                 = Ok (main_calls demo_flags demo_env))
    by (vm_compute; reflexivity).
  split; [exact Hrun |].
  refine (eq_trans
    (proj1 (checkpoint_schedule all_return demo_flags demo_env _ Hrun)) _).
  vm_compute. reflexivity.
Defined.

(** *** The [test_datasets] dictionary *)

Section TestDatasets.

Lemma elem_of_range (lo hi i : Z) : i ∈ range lo hi <-> (lo <= i < hi)%Z.
Proof.
  unfold range. rewrite list_elem_of_In, in_map_iff. split.
  - intros [k [<- Hk]]. apply in_seq in Hk. lia.
  - intros Hi. exists (Z.to_nat (i - lo)). split; [lia |].
    apply in_seq. lia.
Qed.


Lemma corrupted_name_not_clean (c : string) (i : Z) :
  corrupted_name c i <> "clean".
Proof.
  intros Heq.
  assert (H : str_contains "_" (corrupted_name c i) = true).
  { apply str_contains_spec. exists c, (pretty i). reflexivity. }
  rewrite Heq in H. discriminate H.
Qed.

Context {V : Type}.

Lemma odict_set_keys (k : string) (v : V) (d : list (string * V))
  (k' : string) :
  k' ∈ map fst (odict_set k v d) <-> k' = k \/ k' ∈ map fst d.
Proof.
  induction d as [|[k0 w] d IH]; simpl.
  - rewrite list_elem_of_singleton, elem_of_nil. tauto.
  - case_bool_decide as Hk; simpl; rewrite !elem_of_cons.
    + subst k0. tauto.
    + rewrite IH. tauto.
Qed.

Lemma odict_set_head (k k0 : string) (v v0 : V) (d : list (string * V)) :
  k <> k0 -> odict_set k v ((k0, v0) :: d) = (k0, v0) :: odict_set k v d.
Proof.
  intros Hne. simpl. rewrite bool_decide_eq_false_2 by congruence.
  reflexivity.
Qed.

Variable A : Type.
Variable key : A -> string.
Variable val : A -> V.

Local Abbreviation set_all xs d :=
  (fold_left (fun ds x => odict_set (key x) (val x) ds) xs d).

Lemma set_all_keys (xs : list A) (d : list (string * V)) (k : string) :
  k ∈ map fst (set_all xs d) <->
  k ∈ map fst d \/ exists x, x ∈ xs /\ key x = k.
Proof.
  revert d. induction xs as [|x xs IH]; intros d; simpl.
  - split; [auto | intros [H | [x [Hx _]]]; [exact H |]].
    apply elem_of_nil in Hx. destruct Hx.
  - rewrite IH, odict_set_keys. split.
    + intros [[-> | H] | [y [Hy Hk]]].
      * right. exists x. split; [left | reflexivity].
      * left. exact H.
      * right. exists y. split; [right; exact Hy | exact Hk].
    + intros [H | [y [Hy Hk]]].
      * left. right. exact H.
      * apply elem_of_cons in Hy. destruct Hy as [-> | Hy].
        -- left. left. symmetry. exact Hk.
        -- right. exists y. split; assumption.
Qed.

Lemma set_all_head (xs : list A) (k0 : string) (v0 : V)
  (d : list (string * V)) :
  (forall x, x ∈ xs -> key x <> k0) ->
  set_all xs ((k0, v0) :: d) = (k0, v0) :: set_all xs d.
Proof.
  revert d. induction xs as [|x xs IH]; intros d Hne; simpl.
  - reflexivity.
  - rewrite bool_decide_eq_false_2.
    2:{ intros Heq. apply (Hne x); [left | congruence]. }
    apply IH. intros y Hy. apply Hne. right. exact Hy.
Qed.

End TestDatasets.

(** [test_datasets] starts with ['clean'], followed, when
    [corruptions_interval > 0], by one entry per corruption type and
    intensity. *)
Section TestDatasetsOfRun.

Variable F : flags.
Variable types : list string.
Variable max_i : Z.

Lemma build_test_datasets_flat :
  build_test_datasets F types max_i =
    if bool_decide (FLAGS_corruptions_interval F > 0)%Z then
      fold_left (fun ds p => odict_set (corrupted_name p.1 p.2)
                               (CorruptedTest p.1 p.2) ds)
        (flat_map (fun c => map (pair c) (range 1 (max_i + 1))) types)
        [("clean", CleanTest)]
    else [("clean", CleanTest)].
Proof.
  unfold build_test_datasets. case_bool_decide; [| reflexivity].
  generalize [("clean", CleanTest)].
  induction types as [|c cs IH]; intros d; simpl; [reflexivity |].
  rewrite fold_left_app, IH. f_equal.
  generalize (range 1 (max_i + 1)). intros ns. revert d.
  induction ns as [|i ns IHi]; intros d; simpl; [reflexivity | apply IHi].
Qed.

Lemma build_test_datasets_head :
  exists corrupted,
    build_test_datasets F types max_i = ("clean", CleanTest) :: corrupted
    /\ forall name, name ∈ map fst corrupted <->
         (FLAGS_corruptions_interval F > 0)%Z
         /\ exists c i, c ∈ types /\ (1 <= i <= max_i)%Z
                        /\ name = corrupted_name c i.
Proof.
  rewrite build_test_datasets_flat. case_bool_decide as Hci.
  - eexists. split.
    + apply (set_all_head (string * Z) (fun p => corrupted_name p.1 p.2)).
      intros [c i] _. apply corrupted_name_not_clean.
    + intros name.
      rewrite (set_all_keys (string * Z) (fun p => corrupted_name p.1 p.2)).
      simpl. split.
      * intros [H | [[c i] [Hx Hk]]]; [apply elem_of_nil in H; destruct H |].
        split; [exact Hci |]. exists c, i.
        apply list_elem_of_In, in_flat_map in Hx.
        destruct Hx as [c' [Hc' Hin]]. apply in_map_iff in Hin.
        destruct Hin as [i' [Heq Hi']]. inversion Heq; subst c' i'.
        apply list_elem_of_In in Hc'.
        apply list_elem_of_In, elem_of_range in Hi'.
        repeat split; [exact Hc' | lia | lia | symmetry; exact Hk].
      * intros [_ [c [i [Hc [Hi ->]]]]]. right. exists (c, i).
        split; [| reflexivity].
        apply list_elem_of_In, in_flat_map. exists c. split.
        -- apply list_elem_of_In. exact Hc.
        -- apply in_map, list_elem_of_In, elem_of_range. lia.
  - exists []. split; [reflexivity |]. intros name. simpl. split.
    + intros H. apply elem_of_nil in H. destruct H.
    + intros [H _]. contradiction.
Qed.

End TestDatasetsOfRun.

Section EpochSchedule.

Variable F : flags.
Variable E : loop_env.

Lemma test_datasets_head :
  exists corrupted,
    test_datasets F E = ("clean", CleanTest) :: corrupted
    /\ forall name, name ∈ map fst corrupted <->
         (FLAGS_corruptions_interval F > 0)%Z
         /\ exists c i, c ∈ corruption_types E
                        /\ (1 <= i <= max_intensity E)%Z
                        /\ name = corrupted_name c i.
Proof. apply build_test_datasets_head. Qed.

Lemma datasets_to_evaluate_spec (epoch : Z) :
  datasets_to_evaluate F E epoch =
    ("clean", CleanTest) ::
    (if interval_hit (FLAGS_corruptions_interval F) epoch
     then tl (test_datasets F E) else []).
Proof.
  unfold datasets_to_evaluate.
  destruct test_datasets_head as [corrupted [-> _]].
  destruct (interval_hit (FLAGS_corruptions_interval F) epoch); reflexivity.
Qed.


End EpochSchedule.



(** ** Metric dictionaries of the corrupted data sets *)

Section CorruptMetrics.


Lemma add_corrupt_metrics_keeps (name k : string) (cm : gmap string metric) :
  is_Some (cm !! k) -> is_Some (add_corrupt_metrics name cm !! k).
Proof.
  intros H. unfold add_corrupt_metrics.
  rewrite !lookup_insert_is_Some'. auto 10.
Qed.

Lemma add_corrupt_metrics_adds (name p : string) (cm : gmap string metric) :
  p ∈ corrupt_key_prefixes ->
  is_Some (add_corrupt_metrics name cm !! (p ++ name)).
Proof.
  intros Hp. unfold corrupt_key_prefixes in Hp.
  rewrite !elem_of_cons, elem_of_nil in Hp. unfold add_corrupt_metrics.
  rewrite !lookup_insert_is_Some'.
  destruct Hp as [-> | [-> | [-> | [-> | [-> | [-> | []]]]]]]; auto 10.
Qed.

Lemma fold_add_keeps {A} (g : A -> string) (xs : list A) (k : string)
  (cm : gmap string metric) :
  is_Some (cm !! k) ->
  is_Some (fold_left (fun cm x => add_corrupt_metrics (g x) cm) xs cm !! k).
Proof.
  revert cm. induction xs as [|x xs IH]; intros cm H; simpl; [exact H |].
  apply IH, add_corrupt_metrics_keeps, H.
Qed.

Lemma fold_add_adds {A} (g : A -> string) (xs : list A) (x : A) (p : string)
  (cm : gmap string metric) :
  x ∈ xs -> p ∈ corrupt_key_prefixes ->
  is_Some (fold_left (fun cm x => add_corrupt_metrics (g x) cm) xs cm
             !! (p ++ g x)).
Proof.
  intros Hx Hp. revert cm. induction xs as [|y xs IH]; intros cm; simpl.
  - apply elem_of_nil in Hx. destruct Hx.
  - apply elem_of_cons in Hx. destruct Hx as [<- | Hx].
    + apply fold_add_keeps, add_corrupt_metrics_adds, Hp.
    + apply IH, Hx.
Qed.

Lemma build_corrupt_metrics_keys (F : flags) (types : list string) (max_i : Z)
  (c : string) (i : Z) (p : string) :
  (FLAGS_corruptions_interval F > 0)%Z ->
  c ∈ types -> (1 <= i <= max_i)%Z -> p ∈ corrupt_key_prefixes ->
  exists cm,
    build_corrupt_metrics F types max_i = Some cm
    /\ is_Some (cm !! (p ++ corrupted_name c i)).
Proof.
  intros Hci Hc Hi Hp. unfold build_corrupt_metrics.
  rewrite bool_decide_eq_true_2 by exact Hci. eexists. split; [reflexivity |].
  assert (Hin : i ∈ range 1 (max_i + 1)) by (apply elem_of_range; lia).
  generalize (∅ : gmap string metric). revert Hin.
  generalize (range 1 (max_i + 1)). intros ns Hin.
  induction ns as [|n ns IH]; intros cm; simpl.
  - apply elem_of_nil in Hin. destruct Hin.
  - apply elem_of_cons in Hin. destruct Hin as [<- | Hin].
    + assert (Hkeep : forall (ms : list Z) cm',
                is_Some (cm' !! (p ++ corrupted_name c i)) ->
                is_Some (fold_left (fun cm intensity =>
                    fold_left (fun cm corruption =>
                        add_corrupt_metrics
                          (corrupted_name corruption intensity) cm)
                      types cm) ms cm' !! (p ++ corrupted_name c i))).
      { induction ms as [|m ms IHm]; intros cm' H; simpl; [exact H |].
        apply IHm.
        apply (fold_add_keeps (fun corruption => corrupted_name corruption m)).
        exact H. }
      apply Hkeep.
      apply (fold_add_adds (fun corruption => corrupted_name corruption i));
        assumption.
    + apply IH, Hin.
Qed.

Lemma update_state_present (key : string) (store : gmap string metric) :
  is_Some (store !! key) ->
  exists store',
    update_state key store = Ok store'
    /\ forall k, is_Some (store !! k) -> is_Some (store' !! k).
Proof.
  intros [m Hm]. unfold update_state, getitem. rewrite Hm. cbn [bind].
  eexists. split; [reflexivity |].
  intros k Hk. rewrite lookup_insert_is_Some'. auto.
Qed.

(** X14. Off the CondDense path the three updates of an evaluation step on
    a corrupted data set of the run find their keys in [corrupt_metrics]:
    the misspelt keys are on the CondDense path only. *)
Lemma update_corrupt_plain_returns (F : flags) (types : list string)
  (max_i : Z) (c : string) (i : Z) :
  (FLAGS_corruptions_interval F > 0)%Z ->
  c ∈ types -> (1 <= i <= max_i)%Z ->
  exists cm,
    build_corrupt_metrics F types max_i = Some cm
    /\ returns (update_corrupt_plain (corrupted_name c i) cm).
Proof.
  intros Hci Hc Hi.
  assert (Hkeys : forall p, p ∈ corrupt_key_prefixes ->
            exists cm, build_corrupt_metrics F types max_i = Some cm
                       /\ is_Some (cm !! (p ++ corrupted_name c i))).
  { intros p Hp. apply build_corrupt_metrics_keys; assumption. }
  destruct (Hkeys "test/nll_") as [cm [Hcm H1]];
    [unfold corrupt_key_prefixes; rewrite !elem_of_cons; auto 10 |].
  destruct (Hkeys "test/accuracy_") as [cm2 [Hcm2 H2]];
    [unfold corrupt_key_prefixes; rewrite !elem_of_cons; auto 10 |].
  destruct (Hkeys "test/ece_") as [cm3 [Hcm3 H3]];
    [unfold corrupt_key_prefixes; rewrite !elem_of_cons; auto 10 |].
  assert (cm2 = cm) by congruence. assert (cm3 = cm) by congruence.
  subst cm2 cm3. exists cm. split; [exact Hcm |].
  unfold update_corrupt_plain, returns.
  destruct (update_state_present _ _ H1) as [s1 [-> K1]]. cbn [bind].
  destruct (update_state_present _ _ (K1 _ H2)) as [s2 [-> K2]]. cbn [bind].
  destruct (update_state_present _ _ (K2 _ (K1 _ H3))) as [s3 [-> _]].
  eexists. reflexivity.
Qed.

End CorruptMetrics.

(** The keys of [corrupt_metrics] are the six prefixes followed by a
    corrupted data set name, and nothing else. *)
Section KeyClash.

Lemma add_corrupt_metrics_only (name k : string) (cm : gmap string metric) :
  is_Some (add_corrupt_metrics name cm !! k) ->
  is_Some (cm !! k)
  \/ exists p, p ∈ corrupt_key_prefixes /\ k = p ++ name.
Proof.
  unfold add_corrupt_metrics. rewrite !lookup_insert_is_Some'.
  unfold corrupt_key_prefixes.
  intros [<- | [<- | [<- | [<- | [<- | [<- | H]]]]]]; [.. | left; exact H];
    right; eexists; (split; [| reflexivity]); rewrite !elem_of_cons; auto 10.
Qed.

Lemma build_corrupt_metrics_only_keys (F : flags) (types : list string)
  (max_i : Z) (cm : gmap string metric) (k : string) :
  build_corrupt_metrics F types max_i = Some cm ->
  is_Some (cm !! k) ->
  exists p c i, p ∈ corrupt_key_prefixes /\ c ∈ types
                /\ k = p ++ corrupted_name c i.
Proof.
  unfold build_corrupt_metrics. case_bool_decide; [| discriminate].
  intros Hcm. injection Hcm as <-.
  assert (Hinner : forall (ts : list string) (i : Z) cm0,
            (forall c, c ∈ ts -> c ∈ types) ->
            (forall k, is_Some (cm0 !! k) ->
               exists p c i, p ∈ corrupt_key_prefixes /\ c ∈ types
                             /\ k = p ++ corrupted_name c i) ->
            forall k,
              is_Some (fold_left (fun cm corruption =>
                  add_corrupt_metrics (corrupted_name corruption i) cm)
                ts cm0 !! k) ->
              exists p c i, p ∈ corrupt_key_prefixes /\ c ∈ types
                            /\ k = p ++ corrupted_name c i).
  { induction ts as [|t ts IH]; intros i cm0 Hts Hcm0 k' Hk'; simpl in Hk'.
    - apply Hcm0, Hk'.
    - revert Hk'. apply IH.
      + intros c Hc. apply Hts. right. exact Hc.
      + intros k'' Hk''. apply add_corrupt_metrics_only in Hk''.
        destruct Hk'' as [Hk'' | [p [Hp ->]]]; [apply Hcm0, Hk'' |].
        exists p, t, i. split; [exact Hp |]. split; [| reflexivity].
        apply Hts. left. }
  generalize (range 1 (max_i + 1)). intros ns.
  assert (Hempty : forall k, is_Some ((∅ : gmap string metric) !! k) ->
            exists p c i, p ∈ corrupt_key_prefixes /\ c ∈ types
                          /\ k = p ++ corrupted_name c i).
  { intros k' Hk'. rewrite lookup_empty in Hk'. destruct Hk' as [? Hk'].
    discriminate Hk'. }
  revert Hempty. generalize (∅ : gmap string metric). revert k.
  induction ns as [|n ns IH]; intros k cm0 Hcm0 Hk; simpl in Hk.
  - apply Hcm0, Hk.
  - revert Hk. apply IH. apply Hinner; [auto | exact Hcm0].
Qed.

Lemma plain_name_head (c : string) :
  plain_name c = true ->
  exists a rest, c = String a rest /\ a <> "_"%char /\ a <> "w"%char.
Proof.
  destruct c as [|a rest]; [discriminate |]. simpl.
  rewrite andb_true_iff, !negb_true_iff, !bool_decide_eq_false.
  intros [H1 H2]. exists a, rest. auto.
Qed.

Lemma looked_up_key_not_stored (p c c' : string) (i i' : Z) :
  p ∈ corrupt_key_prefixes ->
  plain_name c = true -> plain_name c' = true ->
  p ++ corrupted_name c' i' <> "test/nll_weighted_moe" ++ corrupted_name c i.
Proof.
  intros Hp Hc Hc'.
  destruct (plain_name_head c Hc) as [a [rest [-> [Ha1 Ha2]]]].
  destruct (plain_name_head c' Hc') as [a' [rest' [-> [Ha1' Ha2']]]].
  unfold corrupt_key_prefixes in Hp. rewrite !elem_of_cons, elem_of_nil in Hp.
  unfold corrupted_name.
  destruct Hp as [-> | [-> | [-> | [-> | [-> | [-> | []]]]]]];
    intros Heq; inversion Heq; congruence.
Qed.

Lemma update_state_absent (key : string) (store : gmap string metric) :
  store !! key = None -> update_state key store = Raise (KeyError key).
Proof. intros H. unfold update_state, getitem. rewrite H. reflexivity. Qed.

Lemma update_state_keeps_absent (key k : string)
  (store store' : gmap string metric) :
  update_state key store = Ok store' -> store !! k = None ->
  store' !! k = None.
Proof.
  unfold update_state, getitem. destruct (store !! key) as [m|] eqn:Hm;
    [| discriminate].
  cbn [bind]. intros Heq Hk. injection Heq as <-.
  rewrite lookup_insert_ne; [exact Hk |]. intros ->. congruence.
Qed.

End KeyClash.

(** The CondDense updates of a corrupted data set stop at the fourth
    key. *)
Section CorruptedEvaluation.

Variables (F : flags) (types : list string) (max_i : Z).
Hypothesis Hinterval : (FLAGS_corruptions_interval F > 0)%Z.
Hypothesis Hplain : forall c, c ∈ types -> plain_name c = true.

Lemma update_corrupt_cond_dense_key_error (c : string) (i : Z)
  (cm : gmap string metric) :
  c ∈ types -> (1 <= i <= max_i)%Z ->
  build_corrupt_metrics F types max_i = Some cm ->
  update_corrupt_cond_dense (corrupted_name c i) cm
  = Raise (KeyError ("test/nll_weighted_moe" ++ corrupted_name c i)).
Proof.
  intros Hc Hi Hcm.
  assert (Hstored : forall p, p ∈ corrupt_key_prefixes ->
            is_Some (cm !! (p ++ corrupted_name c i))).
  { intros p Hp.
    destruct (build_corrupt_metrics_keys F types max_i c i p Hinterval Hc Hi Hp)
      as [cm' [Hcm' Hk]].
    rewrite Hcm in Hcm'. injection Hcm' as <-. exact Hk. }
  assert (Habsent :
            cm !! ("test/nll_weighted_moe" ++ corrupted_name c i) = None).
  { destruct (cm !! ("test/nll_weighted_moe" ++ corrupted_name c i))
      as [m|] eqn:Hm; [| reflexivity].
    destruct (build_corrupt_metrics_only_keys F types max_i cm _ Hcm
                (ex_intro _ m Hm)) as [p [c' [i' [Hp [Hc' Heq]]]]].
    symmetry in Heq.
    apply looked_up_key_not_stored in Heq; [destruct Heq | exact Hp | |];
      apply Hplain; assumption. }
  assert (Hin : forall p,
            p ∈ [ "test/nll_"; "test/accuracy_"; "test/ece_" ] ->
            p ∈ corrupt_key_prefixes).
  { intros p. unfold corrupt_key_prefixes. rewrite !elem_of_cons, !elem_of_nil.
    intuition. }
  unfold update_corrupt_cond_dense.
  destruct (update_state_present ("test/nll_" ++ corrupted_name c i) cm)
    as [s1 [H1 K1]].
  { apply Hstored, Hin. rewrite !elem_of_cons. auto. }
  rewrite H1. cbn [bind].
  destruct (update_state_present ("test/accuracy_" ++ corrupted_name c i) s1)
    as [s2 [H2 K2]].
  { apply K1, Hstored, Hin. rewrite !elem_of_cons. auto. }
  rewrite H2. cbn [bind].
  destruct (update_state_present ("test/ece_" ++ corrupted_name c i) s2)
    as [s3 [H3 K3]].
  { apply K2, K1, Hstored, Hin. rewrite !elem_of_cons. auto. }
  rewrite H3. cbn [bind].
  rewrite update_state_absent; [reflexivity |].
  eapply update_state_keeps_absent; [exact H3 |].
  eapply update_state_keeps_absent; [exact H2 |].
  eapply update_state_keeps_absent; [exact H1 |]. exact Habsent.
Qed.

End CorruptedEvaluation.

(** ** Tensor arithmetic *)

Open Scope list_scope.

(** Sums over lists and sums over indices. *)
Section ListSums.

Local Open Scope R_scope.

Lemma sum_list_app (xs ys : list R) :
  sum_list (xs ++ ys) = sum_list xs + sum_list ys.
Proof. induction xs as [|x xs IH]; simpl; [lra | rewrite IH; lra]. Qed.

Lemma sum_list_concat (m : list (list R)) :
  sum_list (concat m) = sum_list (map sum_list m).
Proof.
  induction m as [|r m IH]; simpl; [reflexivity |].
  rewrite sum_list_app, IH. reflexivity.
Qed.

Lemma big_sum_ext (n : nat) (f g : nat -> R) :
  (forall i, (i < n)%nat -> f i = g i) -> big_sum n f = big_sum n g.
Proof.
  intros H. unfold big_sum. f_equal. apply map_ext_in.
  intros i Hi. apply in_seq in Hi. apply H. lia.
Qed.

Lemma big_sum_S (n : nat) (f : nat -> R) :
  big_sum (S n) f = f 0%nat + big_sum n (fun i => f (S i)).
Proof.
  unfold big_sum. simpl. rewrite <- seq_shift, map_map. reflexivity.
Qed.

Lemma sum_list_nth (xs : list R) :
  sum_list xs = big_sum (length xs) (at1 xs).
Proof.
  induction xs as [|x xs IH]; [reflexivity |].
  cbn [length]. rewrite big_sum_S. simpl. rewrite IH. reflexivity.
Qed.

Lemma sum_list_map_nth {A} (d : A) (f : A -> R) (xs : list A) :
  sum_list (map f xs) = big_sum (length xs) (fun i => f (nth i xs d)).
Proof.
  induction xs as [|x xs IH]; [reflexivity |].
  cbn [length]. rewrite big_sum_S. simpl. rewrite IH. reflexivity.
Qed.

Lemma length_concat_shape (B E : nat) (t : tensor2) :
  has_shape2 B E t -> length (concat t) = (B * E)%nat.
Proof.
  intros [<- Hrows]. induction Hrows as [|r t Hr _ IH]; [reflexivity |].
  simpl. rewrite length_app, IH, Hr. reflexivity.
Qed.

End ListSums.

Section Nth.

Lemma nth_zip_with {A B C} (f : A -> B -> C) (xs : list A) (ys : list B)
  (i : nat) (da : A) (db : B) (dc : C) :
  i < length xs -> i < length ys ->
  nth i (zip_with f xs ys) dc = f (nth i xs da) (nth i ys db).
Proof.
  revert ys i. induction xs as [|x xs IH]; intros [|y ys] i Hx Hy;
    simpl in *; try lia.
  destruct i; [reflexivity | apply IH; lia].
Qed.

Lemma nth_map' {A B} (f : A -> B) (xs : list A) (i : nat) (da : A) (db : B) :
  i < length xs -> nth i (map f xs) db = f (nth i xs da).
Proof.
  revert i. induction xs as [|x xs IH]; intros i Hi; simpl in *; [lia |].
  destruct i; [reflexivity | apply IH; lia].
Qed.

Lemma Forall_nth_shape {A} (P : A -> Prop) (xs : list A) (i : nat) (d : A) :
  Forall P xs -> i < length xs -> P (nth i xs d).
Proof.
  intros H Hi. rewrite Forall_forall in H. apply H.
  apply list_elem_of_In, nth_In, Hi.
Qed.

End Nth.

(** Shape-checked operations succeed on matching shapes. *)
Section Traverse.

Lemma traverse_map {A B} (f : A -> result B) (g : A -> B) (xs : list A) :
  Forall (fun x => f x = Ok (g x)) xs -> traverse f xs = Ok (map g xs).
Proof.
  induction 1 as [|x xs Hx _ IH]; simpl; [reflexivity |].
  rewrite Hx, IH. reflexivity.
Qed.

Lemma zip_exact_ok {A B C} (f : A -> B -> result C) (g : A -> B -> C)
  (xs : list A) (ys : list B) :
  length xs = length ys ->
  Forall (fun p => f p.1 p.2 = Ok (g p.1 p.2)) (zip xs ys) ->
  zip_exact f xs ys = Ok (zip_with g xs ys).
Proof.
  intros Hlen Hf. unfold zip_exact.
  rewrite (proj2 (Nat.eqb_eq _ _) Hlen).
  rewrite (traverse_map _ (fun p => g p.1 p.2)) by exact Hf.
  f_equal. clear. revert ys.
  induction xs as [|x xs IH]; intros [|y ys]; simpl; try reflexivity.
  f_equal. apply IH.
Qed.

Lemma broadcast_same {A B C} (f : A -> B -> result C) (g : A -> B -> C)
  (xs : list A) (ys : list B) :
  length xs = length ys ->
  Forall (fun p => f p.1 p.2 = Ok (g p.1 p.2)) (zip xs ys) ->
  broadcast f xs ys = Ok (zip_with g xs ys).
Proof.
  intros Hlen Hf.
  pose proof (zip_exact_ok f g xs ys Hlen Hf) as H.
  unfold zip_exact in H. unfold broadcast.
  rewrite (proj2 (Nat.eqb_eq _ _) Hlen) in *. exact H.
Qed.

Lemma Forall_zip {A B} (P : A * B -> Prop) (Q : A -> Prop) (R' : B -> Prop)
  (xs : list A) (ys : list B) :
  Forall Q xs -> Forall R' ys ->
  (forall x y, Q x -> R' y -> P (x, y)) ->
  Forall P (zip xs ys).
Proof.
  intros Hx. revert ys. induction Hx as [|x xs Hq _ IH]; intros ys Hy HP.
  - constructor.
  - destruct Hy as [|y ys Hr Hy]; simpl; constructor; auto.
Qed.

End Traverse.

Ltac same_length :=
  solve [ eassumption
        | symmetry; eassumption
        | eapply eq_trans; [eassumption | symmetry; eassumption] ].

Section TensorOps.

Local Open Scope R_scope.

Lemma mul1_scalar (w : R) (row : tensor1) :
  mul1 [w] row = Ok (map (Rmult w) row).
Proof.
  unfold mul1, broadcast. destruct row as [|r [|r' row]]; try reflexivity.
  cbn [length Nat.eqb].
  apply traverse_map, Forall_forall. reflexivity.
Qed.

Lemma mul1_same (xs ys : tensor1) :
  length xs = length ys -> mul1 xs ys = Ok (zip_with Rmult xs ys).
Proof.
  intros Hlen. apply broadcast_same; [exact Hlen |].
  apply Forall_forall. reflexivity.
Qed.

Lemma zip_with_map_singleton {A} (g : R -> A -> A) (ws : list R) (ys : list A) :
  zip_with (fun wl y => g (at1 wl 0) y) (map (fun w => [w]) ws) ys =
  zip_with g ws ys.
Proof.
  revert ys. induction ws as [|w ws IH]; intros [|y ys]; simpl; try reflexivity.
  f_equal. apply IH.
Qed.

Lemma mul2_expand (ws : tensor1) (rows : tensor2) :
  length ws = length rows ->
  mul2 (map (fun w => [w]) ws) rows =
    Ok (zip_with (fun w row => map (Rmult w) row) ws rows).
Proof.
  intros Hlen. unfold mul2.
  rewrite (broadcast_same mul1 (fun wl row => map (Rmult (at1 wl 0)) row)).
  - rewrite (zip_with_map_singleton (fun w row => map (Rmult w) row)).
    reflexivity.
  - rewrite length_map. exact Hlen.
  - apply Forall_forall. intros [wl row] Hin. simpl.
    apply list_elem_of_In, in_combine_l, in_map_iff in Hin.
    destruct Hin as [w [<- _]]. apply mul1_scalar.
Qed.

Lemma mul3_expand (B E C : nat) (rw : tensor2) (t : tensor3) :
  has_shape2 B E rw -> has_shape3 B E C t ->
  mul3 (expand_dims_last rw) t =
    Ok (zip_with (zip_with (fun w row => map (Rmult w) row)) rw t).
Proof.
  intros [Hb Hrw] [Hb' Ht]. unfold mul3, expand_dims_last.
  rewrite (broadcast_same mul2
    (fun ws3 rows => zip_with (fun wl row => map (Rmult (at1 wl 0)) row)
                       ws3 rows)).
  - f_equal. clear Hb Hb'. revert t Ht.
    induction Hrw as [|ws rw _ _ IH]; intros t Ht; [reflexivity |].
    destruct Ht as [|rows t _ Ht]; [reflexivity |]. simpl.
    rewrite (zip_with_map_singleton (fun w row => map (Rmult w) row)).
    f_equal. apply IH, Ht.
  - rewrite length_map. same_length.
  - clear Hb Hb'. revert t Ht.
    induction Hrw as [|ws rw Hws _ IH]; intros t Ht; [constructor |].
    destruct Ht as [|rows t [Hrows _] Ht]; [constructor |]. simpl.
    constructor; [| apply IH, Ht]. simpl.
    assert (Hlen : length ws = length rows) by same_length.
    pose proof (mul2_expand ws rows Hlen) as H.
    rewrite <- (zip_with_map_singleton (fun w row => map (Rmult w) row)) in H.
    exact H.
Qed.

Lemma mul2_same (B E : nat) (a b : tensor2) :
  has_shape2 B E a -> has_shape2 B E b ->
  mul2 a b = Ok (zip_with (zip_with Rmult) a b).
Proof.
  intros [Ha Hra] [Hb Hrb]. apply broadcast_same; [same_length |].
  apply (Forall_zip _ _ _ _ _ Hra Hrb). intros x y Hx Hy. simpl.
  apply mul1_same. same_length.
Qed.

Lemma zip_with_repeat_l {A B C} (f : A -> B -> C) (a : A) (ys : list B)
  (n : nat) :
  length ys = n -> zip_with f (repeat a n) ys = map (f a) ys.
Proof.
  intros <-. induction ys as [|y ys IH]; simpl; [reflexivity |].
  f_equal. exact IH.
Qed.

Lemma scce_1_2_ok (from_logits : bool) (labels : list nat) (output : tensor2) :
  length labels = length output ->
  scce_1_2 from_logits labels output =
    Ok (zip_with (scce_row from_logits) labels output).
Proof.
  intros Hlen. apply zip_exact_ok; [exact Hlen |].
  apply Forall_forall. reflexivity.
Qed.

Lemma scce_2_3_tiled (B E C : nat) (labels : list nat) (logits : tensor3) :
  length labels = B -> has_shape3 B E C logits ->
  scce_2_3 true (tile_labels labels E) logits =
    Ok (zip_with (fun l rows => map (sparse_xent l) rows) labels logits).
Proof.
  intros Hl [Hb Ht]. unfold scce_2_3, tile_labels.
  rewrite (zip_exact_ok _
    (fun ls rows => zip_with (scce_row true) ls rows)).
  - f_equal. clear Hl Hb. revert labels.
    induction Ht as [|rows t [Hrows _] _ IH]; intros [|l labels];
      try reflexivity.
    simpl. rewrite zip_with_repeat_l by exact Hrows. f_equal. apply IH.
  - rewrite length_map. same_length.
  - clear Hl Hb. revert labels.
    induction Ht as [|rows t [Hrows _] _ IH]; intros [|l labels];
      try constructor; [| apply IH].
    simpl. apply scce_1_2_ok. rewrite repeat_length. same_length.
Qed.

Lemma softmax3_shape (B E C : nat) (t : tensor3) :
  has_shape3 B E C t -> has_shape3 B E C (softmax3 t).
Proof.
  intros [Hb Ht]. split; [unfold softmax3; rewrite length_map; exact Hb |].
  unfold softmax3. apply Forall_map. eapply Forall_impl; [exact Ht |].
  intros m [He Hm]. split; [unfold softmax2; rewrite length_map; exact He |].
  unfold softmax2. apply Forall_map. eapply Forall_impl; [exact Hm |].
  intros row Hrow. simpl. unfold softmax1. rewrite length_map. exact Hrow.
Qed.

End TensorOps.

(** Entries of the reductions over the expert axis. *)
Section Reductions.

Local Open Scope R_scope.

Lemma at1_add1 (xs ys : tensor1) (c : nat) :
  length xs = length ys -> at1 (add1 xs ys) c = at1 xs c + at1 ys c.
Proof.
  unfold at1, add1. revert ys c.
  induction xs as [|x xs IH]; intros [|y ys] c Hlen; simpl in *;
    try discriminate.
  - destruct c; lra.
  - destruct c; [reflexivity | apply IH; lia].
Qed.

Lemma length_add1 (xs ys : tensor1) :
  length xs = length ys -> length (add1 xs ys) = length xs.
Proof.
  unfold add1. revert ys.
  induction xs as [|x xs IH]; intros [|y ys] Hlen; simpl in *;
    try discriminate; [reflexivity |].
  f_equal. apply IH. lia.
Qed.

Lemma at1_fold_add1 (C : nat) (rows : tensor2) (acc : tensor1) (c : nat) :
  length acc = C -> Forall (fun row => length row = C) rows ->
  at1 (fold_left add1 rows acc) c =
    at1 acc c + sum_list (map (fun row => at1 row c) rows).
Proof.
  intros Hacc Hrows. revert acc Hacc.
  induction Hrows as [|row rows Hrow _ IH]; intros acc Hacc; simpl; [lra |].
  rewrite IH.
  - rewrite at1_add1 by same_length. lra.
  - rewrite length_add1; same_length.
Qed.

Lemma at1_sum_rows (E C : nat) (rows : tensor2) (c : nat) :
  has_shape2 E C rows ->
  at1 (sum_rows rows) c = big_sum E (fun e => at2 rows e c).
Proof.
  intros [He Hrows]. unfold at2.
  rewrite <- He, <- (sum_list_map_nth [] (fun row => at1 row c)).
  destruct Hrows as [|row rows Hrow Hrows]; simpl.
  - destruct c; reflexivity.
  - apply (at1_fold_add1 C); assumption.
Qed.

Lemma at1_map_div (xs : tensor1) (d : R) (c : nat) :
  at1 (map (fun s => s / d) xs) c = at1 xs c / d.
Proof.
  unfold at1. revert c. induction xs as [|x xs IH]; intros [|c]; simpl;
    try reflexivity; try (unfold Rdiv; lra). apply IH.
Qed.

Lemma at1_map_mul (w : R) (xs : tensor1) (c : nat) :
  at1 (map (Rmult w) xs) c = w * at1 xs c.
Proof.
  unfold at1. revert c. induction xs as [|x xs IH]; intros [|c]; simpl;
    try reflexivity; try lra. apply IH.
Qed.

Lemma at2_reduce_mean_axis1 (B E C : nat) (t : tensor3) (b c : nat) :
  has_shape3 B E C t -> (b < B)%nat ->
  at2 (reduce_mean_axis1 t) b c = big_sum E (fun e => at3 t b e c) / INR E.
Proof.
  intros [Hb Ht] Hlt. unfold at2 at 1, reduce_mean_axis1.
  rewrite (nth_map' _ _ _ [] []) by lia.
  assert (Hs : has_shape2 E C (nth b t [])).
  { apply Forall_nth_shape; [exact Ht | lia]. }
  rewrite at1_map_div, (at1_sum_rows E C) by exact Hs.
  destruct Hs as [-> _]. reflexivity.
Qed.

Lemma at2_reduce_sum_axis1 (B E C : nat) (t : tensor3) (b c : nat) :
  has_shape3 B E C t -> (b < B)%nat ->
  at2 (reduce_sum_axis1 t) b c = big_sum E (fun e => at3 t b e c).
Proof.
  intros [Hb Ht] Hlt. unfold at2 at 1, reduce_sum_axis1.
  rewrite (nth_map' _ _ _ [] []) by lia.
  apply (at1_sum_rows E C). apply Forall_nth_shape; [exact Ht | lia].
Qed.

Lemma scaled_shape (B E C : nat) (rw : tensor2) (t : tensor3) :
  has_shape2 B E rw -> has_shape3 B E C t ->
  has_shape3 B E C
    (zip_with (zip_with (fun w row => map (Rmult w) row)) rw t).
Proof.
  intros [Hb Hrw] [Hb' Ht]. split.
  - rewrite length_zip_with. lia.
  - clear Hb Hb'. revert t Ht.
    induction Hrw as [|ws rw Hws _ IH]; intros t Ht; [constructor |].
    destruct Ht as [|rows t [Hrows Hc] Ht]; [constructor |]. simpl.
    constructor; [| apply IH, Ht]. split.
    + rewrite length_zip_with. lia.
    + clear Hws Hrows. revert ws.
      induction Hc as [|row rows Hrow _ IHc]; intros [|w ws]; simpl;
        constructor; [rewrite length_map; exact Hrow | apply IHc].
Qed.

Lemma at3_scaled (B E C : nat) (rw : tensor2) (t : tensor3) (b e c : nat) :
  has_shape2 B E rw -> has_shape3 B E C t -> (b < B)%nat -> (e < E)%nat ->
  at3 (zip_with (zip_with (fun w row => map (Rmult w) row)) rw t) b e c =
    at2 rw b e * at3 t b e c.
Proof.
  intros [Hb Hrw] [Hb' Ht] Hlb Hle. unfold at3, at2.
  rewrite (nth_zip_with _ _ _ _ [] [] []) by lia.
  assert (Hr : length (nth b rw []) = E).
  { apply (Forall_nth_shape (fun row => length row = E)); [exact Hrw | lia]. }
  assert (Hs : has_shape2 E C (nth b t [])).
  { apply Forall_nth_shape; [exact Ht | lia]. }
  destruct Hs as [Hs _].
  rewrite (nth_zip_with _ _ _ _ 0 [] []) by lia.
  apply at1_map_mul.
Qed.

Lemma nll_shape (B E C : nat) (labels : list nat) (logits : tensor3) :
  length labels = B -> has_shape3 B E C logits ->
  has_shape2 B E
    (zip_with (fun l rows => map (sparse_xent l) rows) labels logits).
Proof.
  intros Hl [Hb Ht]. split; [rewrite length_zip_with; lia |].
  clear Hl Hb. revert labels.
  induction Ht as [|rows t [Hrows _] _ IH]; intros [|l labels]; simpl;
    constructor; [rewrite length_map; exact Hrows | apply IH].
Qed.

End Reductions.

(** On well-shaped inputs [_process_3d_logits] returns, and every field
    has a closed form. *)
Section Process3dLogits.

Local Open Scope R_scope.

Variables (B E C : nat) (F : flags).
Variables (logits : tensor3) (routing_weights : tensor2) (labels : list nat).
Hypothesis Hlogits : has_shape3 B E C logits.
Hypothesis Hweights : has_shape2 B E routing_weights.
Hypothesis Hlabels : length labels = B.
Hypothesis Hexperts : FLAGS_num_experts F = E.

Let scale := zip_with (zip_with (fun (w : R) row => map (Rmult w) row)).
Let nll := zip_with (fun l rows => map (sparse_xent l) rows) labels logits.

Lemma process_3d_logits_ok :
  _process_3d_logits F logits routing_weights labels =
    Ok {| weighted_logits := reduce_mean_axis1 (scale routing_weights logits);
          unweighted_logits := reduce_mean_axis1 logits;
          unweighted_probs := reduce_mean_axis1 (softmax3 logits);
          weighted_probs :=
            reduce_sum_axis1 (scale routing_weights (softmax3 logits));
          neg_log_likelihoods := nll;
          unweighted_gibbs_ce := reduce_mean2 nll;
          weighted_gibbs_ce :=
            reduce_mean1
              (reduce_sum_rows (zip_with (zip_with Rmult) routing_weights nll))
       |}.
Proof.
  unfold _process_3d_logits.
  rewrite (mul3_expand B E C) by assumption. cbn [bind].
  rewrite (mul3_expand B E C) by (try apply softmax3_shape; assumption).
  cbn [bind]. rewrite Hexperts.
  rewrite (scce_2_3_tiled B E C) by assumption. cbn [bind].
  rewrite (mul2_same B E) by (try apply (nll_shape B E C); assumption).
  reflexivity.
Qed.

End Process3dLogits.

(** ** Consensus and loss formulas *)

Section CombinedQuantities.
Local Open Scope R_scope.

Lemma ones_logits_shape : has_shape3 1 2 2 ones_logits.
Proof. repeat constructor. Qed.

Lemma zero_labels_in_range : Forall (fun l => (l < 2)%nat) zero_labels.
Proof. repeat constructor. Qed.

Lemma half_weights_shape : has_shape2 1 2 half_weights.
Proof. repeat constructor. Qed.

Lemma exp_pos_ne (x : R) : exp x <> 0.
Proof. pose proof (exp_pos x). lra. Qed.

(** C2, amended. For logits of shape [[B, E, C]], routing weights of
    shape [[B, E]] and [B] labels in the class range,
    [_process_3d_logits] returns, for every example [b] and
    class [c]: [weighted_logits] the sum over the experts of weight times
    logit divided by [E]; [unweighted_logits] and [unweighted_probs] the
    arithmetic means over the experts of the logits and of the per-expert
    softmax probabilities; [weighted_probs] the sum over the experts of
    weight times probability, not divided. *)
Theorem combined_quantities (B E C : nat) (F : flags) (logits : tensor3)
  (routing_weights : tensor2) (labels : list nat) :
  has_shape3 B E C logits -> has_shape2 B E routing_weights ->
  length labels = B -> Forall (fun l => (l < C)%nat) labels ->
  FLAGS_num_experts F = E ->
  exists r,
    _process_3d_logits F logits routing_weights labels = Ok r
    /\ forall b c, (b < B)%nat -> (c < C)%nat ->
         at2 (weighted_logits r) b c =
           big_sum E (fun e => at2 routing_weights b e * at3 logits b e c)
           / INR E
         /\ at2 (unweighted_logits r) b c =
              big_sum E (fun e => at3 logits b e c) / INR E
         /\ at2 (weighted_probs r) b c =
              big_sum E (fun e => at2 routing_weights b e
                                  * at3 (softmax3 logits) b e c)
         /\ at2 (unweighted_probs r) b c =
              big_sum E (fun e => at3 (softmax3 logits) b e c) / INR E.
Proof.
  intros Hlogits Hweights Hlabels Hrange Hexperts. eexists. split.
  - apply (process_3d_logits_ok B E C); assumption.
  - intros b c Hb Hc. cbn [weighted_logits unweighted_logits weighted_probs
                            unweighted_probs].
    pose proof (softmax3_shape B E C logits Hlogits) as Hprobs.
    repeat split.
    + rewrite (at2_reduce_mean_axis1 B E C)
        by (try apply scaled_shape; assumption).
      f_equal. apply big_sum_ext. intros e He.
      apply (at3_scaled B E C); assumption.
    + apply (at2_reduce_mean_axis1 B E C); assumption.
    + rewrite (at2_reduce_sum_axis1 B E C)
        by (try apply scaled_shape; assumption).
      apply big_sum_ext. intros e He.
      apply (at3_scaled B E C); assumption.
    + apply (at2_reduce_mean_axis1 B E C); assumption.
Qed.

(** The amended C2 on the sample input. *)
Lemma combined_quantities_witness :
  has_shape3 1 2 2 ones_logits
  /\ has_shape2 1 2 half_weights
  /\ exists r,
    _process_3d_logits demo_flags ones_logits half_weights zero_labels = Ok r
    /\ at2 (weighted_logits r) 0 0 = 1 / 2
    /\ at2 (weighted_probs r) 0 0 = 1 / 2.
Proof.
  destruct (combined_quantities 1 2 2 demo_flags ones_logits half_weights
              zero_labels ones_logits_shape half_weights_shape
              eq_refl zero_labels_in_range eq_refl) as [r [Hr Hidx]].
  split; [exact ones_logits_shape |]. split; [exact half_weights_shape |].
  exists r. split; [exact Hr |].
  destruct (Hidx 0%nat 0%nat ltac:(lia) ltac:(lia)) as [Hwl [_ [Hwp _]]].
  split.
  - rewrite Hwl.
    cbv [big_sum at2 at3 at1 map seq nth sum_list ones_logits half_weights
         INR]. lra.
  - rewrite Hwp.
    cbv [big_sum at2 at3 at1 map seq nth sum_list ones_logits half_weights
         softmax3 softmax2 softmax1].
    pose proof (exp_pos_ne 1). field. lra.
Defined.

(** C2, counterexample. On the sample input (every logit 1, routing
    weights 1/2 and 1/2) [weighted_logits] is 1/2 while the weighted mean of
    the logits over the experts is 1. *)
Lemma weighted_logits_not_weighted_mean :
  exists r,
    _process_3d_logits demo_flags ones_logits half_weights zero_labels = Ok r
    /\ at2 (weighted_logits r) 0 0 = 1 / 2
    /\ weighted_mean (nth 0 half_weights [])
         (expert_values (nth 0 ones_logits []) 0) = 1
    /\ ~ combined_by_means ones_logits half_weights r.
Proof.
  eexists. split; [reflexivity |].
  assert (H1 : at2 (reduce_mean_axis1
            [[[1 / 2 * 1; 1 / 2 * 1]; [1 / 2 * 1; 1 / 2 * 1]]]) 0 0 = 1 / 2).
  { cbv [at2 at1 reduce_mean_axis1 sum_rows fold_left add1 zip_with map nth
          length INR]. lra. }
  assert (H2 : weighted_mean (nth 0 half_weights [])
                 (expert_values (nth 0 ones_logits []) 0) = 1).
  { cbv [weighted_mean expert_values at1 half_weights ones_logits nth map
          zip_with sum_list]. lra. }
  split; [exact H1 |]. split; [exact H2 |].
  intros Hc. destruct (Hc 0%nat 0%nat) as [Hwl _].
  cbn [weighted_logits] in Hwl. rewrite H2 in Hwl.
  change (at2 (reduce_mean_axis1
            [[[1 / 2 * 1; 1 / 2 * 1]; [1 / 2 * 1; 1 / 2 * 1]]]) 0 0 = 1) in Hwl.
  rewrite H1 in Hwl. lra.
Qed.

End CombinedQuantities.

Section NormalisedWeights.
Local Open Scope R_scope.

Lemma sum_zip_with_mul (n : nat) (ws xs : list R) :
  length ws = n -> length xs = n ->
  sum_list (zip_with Rmult ws xs) = big_sum n (fun e => at1 ws e * at1 xs e).
Proof.
  intros Hw Hx. rewrite sum_list_nth, length_zip_with, Hw, Hx, Nat.min_id.
  apply big_sum_ext. intros e He. unfold at1.
  apply nth_zip_with; lia.
Qed.

Lemma at1_expert_values (E : nat) (m : tensor2) (c e : nat) :
  length m = E -> (e < E)%nat -> at1 (expert_values m c) e = at2 m e c.
Proof.
  intros Hm He. unfold expert_values, at1 at 1, at2.
  apply (nth_map' (fun row => at1 row c)). lia.
Qed.

(** X17. With labels in the class range, when the routing weights of an
    example sum to one, [weighted_probs] is the weighted mean of the
    per-expert probabilities. *)
Lemma weighted_probs_normalised (B E C : nat) (F : flags) (logits : tensor3)
  (routing_weights : tensor2) (labels : list nat) (b c : nat) :
  has_shape3 B E C logits -> has_shape2 B E routing_weights ->
  length labels = B -> Forall (fun l => (l < C)%nat) labels ->
  FLAGS_num_experts F = E -> (b < B)%nat ->
  sum_list (nth b routing_weights []) = 1 ->
  exists r,
    _process_3d_logits F logits routing_weights labels = Ok r
    /\ at2 (weighted_probs r) b c =
         weighted_mean (nth b routing_weights [])
           (expert_values (nth b (softmax3 logits) []) c).
Proof.
  intros Hlogits Hweights Hlabels Hrange Hexperts Hb Hsum.
  pose proof (softmax3_shape B E C logits Hlogits) as Hprobs.
  eexists. split; [apply (process_3d_logits_ok B E C); assumption |].
  cbn [weighted_probs]. unfold weighted_mean. rewrite Hsum.
  rewrite (at2_reduce_sum_axis1 B E C)
    by (try apply scaled_shape; assumption).
  assert (Hw : length (nth b routing_weights []) = E).
  { apply (Forall_nth_shape (fun row => length row = E));
      [exact (proj2 Hweights) | rewrite (proj1 Hweights); exact Hb]. }
  assert (Hp : length (nth b (softmax3 logits) []) = E).
  { apply (Forall_nth_shape (has_shape2 E C));
      [exact (proj2 Hprobs) | rewrite (proj1 Hprobs); exact Hb]. }
  rewrite (sum_zip_with_mul E);
    [| exact Hw | unfold expert_values; rewrite length_map; exact Hp].
  unfold Rdiv. rewrite Rinv_1, Rmult_1_r.
  apply big_sum_ext. intros e He.
  rewrite (at3_scaled B E C) by assumption.
  rewrite (at1_expert_values E) by assumption. reflexivity.
Qed.

End NormalisedWeights.

Section Gibbs.
Local Open Scope R_scope.

Lemma sum_list_shape2 (B E : nat) (t : tensor2) :
  has_shape2 B E t ->
  sum_list (map sum_list t) = big_sum B (fun b => big_sum E (at2 t b)).
Proof.
  intros [Hb Ht]. rewrite (sum_list_map_nth []), Hb.
  apply big_sum_ext. intros b Hlt. rewrite sum_list_nth.
  rewrite (Forall_nth_shape (fun row => length row = E) t b []) by
    (try exact Ht; lia).
  reflexivity.
Qed.

Lemma at2_nll (B E C : nat) (labels : list nat) (logits : tensor3) (b e : nat) :
  length labels = B -> has_shape3 B E C logits -> (b < B)%nat -> (e < E)%nat ->
  at2 (zip_with (fun l rows => map (sparse_xent l) rows) labels logits) b e =
    sparse_xent (nth b labels 0%nat) (nth e (nth b logits []) []).
Proof.
  intros Hl [Hb Ht] Hlb Hle. unfold at2, at1.
  rewrite (nth_zip_with _ _ _ _ 0%nat [] []) by lia.
  apply nth_map'.
  destruct (Forall_nth_shape _ logits b [] Ht ltac:(lia)) as [-> _]. exact Hle.
Qed.

Lemma at2_mul (B E : nat) (a b : tensor2) (i j : nat) :
  has_shape2 B E a -> has_shape2 B E b -> (i < B)%nat -> (j < E)%nat ->
  at2 (zip_with (zip_with Rmult) a b) i j = at2 a i j * at2 b i j.
Proof.
  intros [Ha Hra] [Hb Hrb] Hi Hj. unfold at2, at1.
  rewrite (nth_zip_with _ _ _ _ [] [] []) by lia.
  apply nth_zip_with.
  - rewrite (Forall_nth_shape (fun row => length row = E) a i []) by
      (try exact Hra; lia). exact Hj.
  - rewrite (Forall_nth_shape (fun row => length row = E) b i []) by
      (try exact Hrb; lia). exact Hj.
Qed.

Lemma mul_shape (B E : nat) (a b : tensor2) :
  has_shape2 B E a -> has_shape2 B E b ->
  has_shape2 B E (zip_with (zip_with Rmult) a b).
Proof.
  intros [Ha Hra] [Hb Hrb]. split; [rewrite length_zip_with; lia |].
  clear Ha Hb. revert b Hrb.
  induction Hra as [|x a Hx _ IH]; intros b Hrb; [constructor |].
  destruct Hrb as [|y b Hy Hrb]; simpl; constructor;
    [rewrite length_zip_with; lia | apply IH, Hrb].
Qed.

End Gibbs.

(** The cross-entropy of one expert, spelled out: minus the logarithm of
    the softmax probability of the label. *)
Lemma sparse_xent_spelled (B E C : nat) (labels : list nat)
  (logits : tensor3) (b e : nat) :
  length labels = B -> Forall (fun l => (l < C)%nat) labels ->
  has_shape3 B E C logits -> (b < B)%nat -> (e < E)%nat ->
  sparse_xent (nth b labels 0%nat) (nth e (nth b logits []) []) =
    (- ln (exp (at3 logits b e (nth b labels 0%nat))
           / big_sum C (fun c => exp (at3 logits b e c))))%R.
Proof.
  intros Hlabels Hrange [Hb Ht] Hlb Hle.
  assert (Hl : (nth b labels 0 < C)%nat).
  { apply (Forall_nth_shape (fun l => (l < C)%nat)); [exact Hrange | lia]. }
  assert (Hs : has_shape2 E C (nth b logits [])).
  { apply Forall_nth_shape; [exact Ht | lia]. }
  destruct Hs as [He Hrows].
  assert (Hrow : length (nth e (nth b logits []) []) = C).
  { apply (Forall_nth_shape (fun row => length row = C));
      [exact Hrows | lia]. }
  unfold sparse_xent, softmax1, at3, at2. cbv zeta.
  set (row := nth e (nth b logits []) []) in *.
  rewrite (nth_map' _ _ _ 0%R 0%R) by lia.
  rewrite (sum_list_map_nth 0%R exp row), Hrow. reflexivity.
Qed.

(** C4. For logits of shape [[B, E, C]], routing weights of shape
    [[B, E]], [B] labels in the class range and [num_experts = E],
    [_process_3d_logits] returns [unweighted_gibbs_ce] equal to the sum over
    examples and experts of the cross-entropy of that expert's logits
    against the label, divided by [B * E], and [weighted_gibbs_ce] equal to
    the sum over examples and experts of the routing weight times that
    cross-entropy, divided by [B]. The cross-entropy of expert [e] on
    example [b] is minus the logarithm of the softmax probability of the
    label: [- ln (exp logits[b,e,label_b] / sum_c exp logits[b,e,c])]. *)
Theorem gibbs_cross_entropies (B E C : nat) (F : flags) (logits : tensor3)
  (routing_weights : tensor2) (labels : list nat) :
  has_shape3 B E C logits -> has_shape2 B E routing_weights ->
  length labels = B -> Forall (fun l => (l < C)%nat) labels ->
  FLAGS_num_experts F = E ->
  exists r,
    _process_3d_logits F logits routing_weights labels = Ok r
    /\ unweighted_gibbs_ce r =
         (big_sum B (fun b => big_sum E (fun e =>
            - ln (exp (at3 logits b e (nth b labels 0%nat))
                  / big_sum C (fun c => exp (at3 logits b e c)))))
          / INR (B * E))%R
    /\ weighted_gibbs_ce r =
         (big_sum B (fun b => big_sum E (fun e =>
            at2 routing_weights b e
            * - ln (exp (at3 logits b e (nth b labels 0%nat))
                    / big_sum C (fun c => exp (at3 logits b e c)))))
          / INR B)%R.
Proof.
  intros Hlogits Hweights Hlabels Hrange Hexperts. eexists.
  split; [apply (process_3d_logits_ok B E C); assumption |].
  cbn [unweighted_gibbs_ce weighted_gibbs_ce].
  pose proof (nll_shape B E C labels logits Hlabels Hlogits) as Hnll.
  split.
  - unfold reduce_mean2, reduce_mean1.
    rewrite (length_concat_shape B E) by exact Hnll.
    rewrite sum_list_concat, (sum_list_shape2 B E) by exact Hnll.
    f_equal. apply big_sum_ext. intros b Hb.
    apply big_sum_ext. intros e He.
    rewrite (at2_nll B E C) by assumption.
    apply (sparse_xent_spelled B E C); assumption.
  - unfold reduce_mean1, reduce_sum_rows.
    pose proof (mul_shape B E _ _ Hweights Hnll) as Hmul.
    rewrite length_map, (proj1 Hmul), (sum_list_shape2 B E) by exact Hmul.
    f_equal. apply big_sum_ext. intros b Hb.
    apply big_sum_ext. intros e He.
    rewrite (at2_mul B E) by assumption.
    f_equal. rewrite (at2_nll B E C) by assumption.
    apply (sparse_xent_spelled B E C); assumption.
Qed.

(** C4 on the sample input: both Gibbs cross-entropies are [ln 2]. *)
Lemma gibbs_cross_entropies_witness :
  has_shape3 1 2 2 ones_logits
  /\ has_shape2 1 2 half_weights
  /\ exists r,
    _process_3d_logits demo_flags ones_logits half_weights zero_labels = Ok r
    /\ unweighted_gibbs_ce r = ln 2
    /\ weighted_gibbs_ce r = ln 2.
Proof.
  destruct (gibbs_cross_entropies 1 2 2 demo_flags ones_logits half_weights
              zero_labels ones_logits_shape half_weights_shape
              eq_refl zero_labels_in_range eq_refl) as [r [Hr [Hu Hw]]].
  assert (Hx : (- ln (exp 1 / (exp 1 + (exp 1 + 0))))%R = ln 2).
  { replace (exp 1 / (exp 1 + (exp 1 + 0)))%R with (/ 2)%R
      by (pose proof (exp_pos_ne 1); field; lra).
    rewrite ln_Rinv by lra. lra. }
  split; [exact ones_logits_shape |]. split; [exact half_weights_shape |].
  exists r. split; [exact Hr |]. split.
  - rewrite Hu.
    cbv [big_sum map seq nth sum_list ones_logits zero_labels Nat.mul Nat.add
         INR at3 at2 at1].
    rewrite Hx. lra.
  - rewrite Hw.
    cbv [big_sum map seq nth sum_list ones_logits zero_labels half_weights
         at3 at2 at1 INR].
    rewrite Hx. lra.
Defined.

(** *** Gibbs cross-entropy against the loss of the combined prediction *)

Section GibbsVersusEnsemble.
Local Open Scope R_scope.

Lemma softmax1_even : softmax1 [0; 0] = [1 / 2; 1 / 2].
Proof.
  cbv [softmax1 map sum_list]. rewrite exp_0.
  replace (1 / (1 + (1 + 0))) with (1 / 2) by lra. reflexivity.
Qed.

Lemma softmax1_skewed : softmax1 [ln 3; 0] = [3 / 4; 1 / 4].
Proof.
  cbv [softmax1 map sum_list]. rewrite exp_0, exp_ln by lra.
  replace (3 / (3 + (1 + 0))) with (3 / 4) by lra.
  replace (1 / (3 + (1 + 0))) with (1 / 4) by lra. reflexivity.
Qed.

Lemma clip_inside (p : R) :
  1 / 4 <= p <= 3 / 4 -> clip_by_value p epsilon (1 - epsilon) = p.
Proof.
  intros Hp. unfold clip_by_value, epsilon.
  assert (He : 0 < / 10 ^ 7 < 1 / 4).
  { split.
    - apply Rinv_0_lt_compat. lra.
    - apply (Rmult_lt_reg_l (10 ^ 7)); [lra |].
      rewrite Rinv_r by lra. lra. }
  rewrite Rmax_left by lra. rewrite Rmin_left by lra. reflexivity.
Qed.

(** With the same probabilities, the Gibbs cross-entropy and the
    cross-entropy of the combined prediction differ: on two experts with
    probabilities (1/2, 1/2) and (3/4, 1/4) for the label, the first is
    [(ln 2 + ln (4/3)) / 2] and the second is [ln (8/5)]. *)
Lemma gibbs_is_not_the_ensemble_loss :
  exists probs gibbs ensemble,
    _process_3d_logits_train (with_loss loss_unweighted_gibbs_ce demo_flags)
      mixed_logits half_weights zero_labels = Ok (probs, gibbs)
    /\ _process_3d_logits_train (with_loss loss_unweighted_moe demo_flags)
         mixed_logits half_weights zero_labels = Ok (probs, ensemble)
    /\ gibbs = (ln 2 + ln (4 / 3)) / 2
    /\ ensemble = ln (8 / 5)
    /\ gibbs <> ensemble.
Proof.
  do 3 eexists. split; [reflexivity |]. split; [reflexivity |].
  assert (Hg : reduce_mean2
                 [[sparse_xent 0 [0; 0]; sparse_xent 0 [ln 3; 0]]]
               = (ln 2 + ln (4 / 3)) / 2).
  { cbv [reduce_mean2 reduce_mean1 concat app sum_list length INR sparse_xent].
    rewrite softmax1_even, softmax1_skewed. cbv [nth].
    replace (1 / 2) with (/ 2) by lra. replace (3 / 4) with (/ (4 / 3)) by lra.
    rewrite !ln_Rinv by lra. lra. }
  assert (Hp : reduce_mean_axis1 (softmax3 mixed_logits) = [[5 / 8; 3 / 8]]).
  { cbv [softmax3 softmax2 mixed_logits map].
    rewrite softmax1_even, softmax1_skewed.
    cbv [reduce_mean_axis1 map sum_rows fold_left add1 zip_with length INR].
    replace ((1 / 2 + 3 / 4) / (1 + 1)) with (5 / 8) by lra.
    replace ((1 / 2 + 1 / 4) / (1 + 1)) with (3 / 8) by lra.
    reflexivity. }
  assert (He : reduce_mean1
                 (zip_with (scce_row false) zero_labels [[5 / 8; 3 / 8]])
               = ln (8 / 5)).
  { cbv [zip_with zero_labels scce_row map reduce_mean1 sum_list length INR].
    rewrite !clip_inside by lra.
    cbv [sparse_xent softmax1 map sum_list nth].
    rewrite !exp_ln by lra.
    replace (5 / 8 / (5 / 8 + (3 / 8 + 0))) with (/ (8 / 5)) by lra.
    rewrite ln_Rinv by lra. lra. }
  split; [exact Hg |]. split.
  - change (reduce_mean1 (zip_with (scce_row false) zero_labels
              (reduce_mean_axis1 (softmax3 mixed_logits))) = ln (8 / 5)).
    rewrite Hp. exact He.
  - change (reduce_mean2
                 [[sparse_xent 0 [0; 0]; sparse_xent 0 [ln 3; 0]]]
            <> reduce_mean1 (zip_with (scce_row false) zero_labels
              (reduce_mean_axis1 (softmax3 mixed_logits)))).
    rewrite Hg, Hp, He. intros Heq.
    assert (H : ln (2 * (4 / 3)) = ln ((8 / 5) * (8 / 5))).
    { rewrite !ln_mult by lra. lra. }
    apply ln_inv in H; lra.
Qed.

End GibbsVersusEnsemble.

Lemma length_reduce_axis1 (B E C : nat) (t : tensor3) :
  has_shape3 B E C t ->
  length (reduce_mean_axis1 t) = B /\ length (reduce_sum_axis1 t) = B.
Proof.
  intros [Hb _]. unfold reduce_mean_axis1, reduce_sum_axis1.
  rewrite !length_map. auto.
Qed.

(** C1, as the code behaves. On every well-shaped input
    [_process_3d_logits_train] returns the pair named by the [loss] flag
    for [gibbs_ce], [unweighted_gibbs_ce], [moe] and [unweighted_moe],
    given labels in the class range, and raises [AttributeError] for [poe]
    and [unweighted_poe], whose branches go through [tf.softmax], whatever
    the labels are. *)
Theorem process_3d_logits_train_table (B E C : nat) (F : flags)
  (logits : tensor3) (routing_weights : tensor2) (labels : list nat) :
  has_shape3 B E C logits -> has_shape2 B E routing_weights ->
  length labels = B -> FLAGS_num_experts F = E ->
  (uses_tf_softmax (FLAGS_loss F) = false ->
   Forall (fun l => (l < C)%nat) labels) ->
  exists r,
    _process_3d_logits F logits routing_weights labels = Ok r
    /\ _process_3d_logits_train F logits routing_weights labels =
       match FLAGS_loss F with
       | loss_gibbs_ce => Ok (weighted_probs r, weighted_gibbs_ce r)
       | loss_unweighted_gibbs_ce =>
           Ok (unweighted_probs r, unweighted_gibbs_ce r)
       | loss_moe =>
           Ok (weighted_probs r,
               reduce_mean1
                 (zip_with (scce_row false) labels (weighted_probs r)))
       | loss_unweighted_moe =>
           Ok (unweighted_probs r,
               reduce_mean1
                 (zip_with (scce_row false) labels (unweighted_probs r)))
       | loss_poe | loss_unweighted_poe =>
           Raise (AttributeError "tensorflow" "softmax")
       end.
Proof.
  intros Hlogits Hweights Hlabels Hexperts Hrange.
  pose proof (softmax3_shape B E C logits Hlogits) as Hprobs.
  eexists. split; [apply (process_3d_logits_ok B E C); assumption |].
  unfold _process_3d_logits_train.
  rewrite (process_3d_logits_ok B E C) by assumption. cbn [bind].
  destruct (FLAGS_loss F);
    cbn [weighted_probs unweighted_probs weighted_gibbs_ce
         unweighted_gibbs_ce]; try reflexivity.
  - rewrite scce_1_2_ok; [reflexivity |].
    rewrite (proj2 (length_reduce_axis1 B E C _
               (scaled_shape B E C _ _ Hweights Hprobs))). exact Hlabels.
  - rewrite scce_1_2_ok; [reflexivity |].
    rewrite (proj1 (length_reduce_axis1 B E C _ Hprobs)). exact Hlabels.
Qed.

(** C1, failing input: [--loss=poe] on the sample input. *)
Lemma process_3d_logits_train_table_witness :
  has_shape3 1 2 2 ones_logits
  /\ has_shape2 1 2 half_weights
  /\ _process_3d_logits_train (with_loss loss_poe demo_flags) ones_logits
       half_weights zero_labels
     = Raise (AttributeError "tensorflow" "softmax").
Proof.
  split; [exact ones_logits_shape |]. split; [exact half_weights_shape |].
  destruct (process_3d_logits_train_table 1 2 2 (with_loss loss_poe demo_flags)
              ones_logits half_weights zero_labels ones_logits_shape
              half_weights_shape eq_refl eq_refl
              (fun _ => zero_labels_in_range)) as [r [_ Hr]].
  exact Hr.
Defined.

(** The other [tf.softmax] branch on the sample input. *)
Lemma unweighted_poe_loss_attribute_error :
  _process_3d_logits_train (with_loss loss_unweighted_poe demo_flags)
    ones_logits half_weights zero_labels
  = Raise (AttributeError "tensorflow" "softmax").
Proof. reflexivity. Qed.

(** ** The step functions *)

Section TestStep.
Local Open Scope R_scope.

Lemma process_3d_logits_test_returns (B E C : nat) (F : flags)
  (logits : tensor3) (routing_weights : tensor2) (labels : list nat) :
  has_shape3 B E C logits -> has_shape2 B E routing_weights ->
  length labels = B -> FLAGS_num_experts F = E ->
  returns (_process_3d_logits_test F routing_weights logits labels).
Proof.
  intros Hlogits Hweights Hlabels Hexperts.
  pose proof (softmax3_shape B E C logits Hlogits) as Hprobs.
  unfold _process_3d_logits_test, returns.
  rewrite (process_3d_logits_ok B E C) by assumption. cbn [bind].
  cbn [weighted_logits unweighted_logits weighted_probs unweighted_probs].
  rewrite scce_1_2_ok.
  2:{ rewrite (proj1 (length_reduce_axis1 B E C _
                 (scaled_shape B E C _ _ Hweights Hlogits))). exact Hlabels. }
  cbn [bind]. rewrite scce_1_2_ok.
  2:{ rewrite (proj1 (length_reduce_axis1 B E C _ Hlogits)). exact Hlabels. }
  cbn [bind]. rewrite scce_1_2_ok.
  2:{ rewrite (proj2 (length_reduce_axis1 B E C _
                 (scaled_shape B E C _ _ Hweights Hprobs))). exact Hlabels. }
  cbn [bind]. rewrite scce_1_2_ok.
  2:{ rewrite (proj1 (length_reduce_axis1 B E C _ Hprobs)). exact Hlabels. }
  eexists. reflexivity.
Qed.

End TestStep.

(** C5, as the code behaves. On the CondDense path with
    [corruptions_interval > 0] and plain corruption names, the evaluation
    step on any corrupted data set of the run, with a well-shaped tuple
    from the model, raises [KeyError]: [corrupt_metrics] holds the key
    ['test/nll_weighted_moe_<name>'] but the step looks up
    ['test/nll_weighted_moe<name>'], which is not a key. *)
Theorem corrupted_eval_key_error (B E C : nat) (F : flags)
  (types : list string) (max_i : Z) (metrics : gmap string metric)
  (c : string) (i : Z) (logits : tensor3) (all_routing_weights : list tensor2)
  (routing_weights : tensor2) (labels : list nat) :
  cond_dense_path F = true ->
  FLAGS_use_bfloat16 F = false ->
  (FLAGS_corruptions_interval F > 0)%Z ->
  (forall c', c' ∈ types -> plain_name c' = true) ->
  c ∈ types -> (1 <= i <= max_i)%Z ->
  last all_routing_weights = Some routing_weights ->
  has_shape3 B E C logits -> has_shape2 B E routing_weights ->
  length labels = B -> FLAGS_num_experts F = E ->
  exists cm,
    build_corrupt_metrics F types max_i = Some cm
    /\ is_Some (cm !! ("test/nll_weighted_moe_" ++ corrupted_name c i)%string)
    /\ cm !! ("test/nll_weighted_moe" ++ corrupted_name c i)%string = None
    /\ test_step_fn F metrics (Some cm) (corrupted_name c i)
         (Tuple logits all_routing_weights) labels
       = Raise (KeyError
                  ("test/nll_weighted_moe" ++ corrupted_name c i)%string).
Proof.
  intros Hpath Hbf Hinterval Hplain Hc Hi Hlast Hlogits Hweights Hlabels
    Hexperts.
  destruct (build_corrupt_metrics_keys F types max_i c i
              "test/nll_weighted_moe_" Hinterval Hc Hi) as [cm [Hcm Hstored]].
  { unfold corrupt_key_prefixes. rewrite !elem_of_cons. auto 10. }
  pose proof (update_corrupt_cond_dense_key_error F types max_i Hinterval
                Hplain c i cm Hc Hi Hcm) as Hupdate.
  exists cm. split; [exact Hcm |]. split; [exact Hstored |]. split.
  - destruct (cm !! ("test/nll_weighted_moe" ++ corrupted_name c i)%string)
      as [m|] eqn:Hm; [| reflexivity].
    destruct (build_corrupt_metrics_only_keys F types max_i cm _ Hcm
                (ex_intro _ m Hm)) as [p [c' [i' [Hp [Hc' Heq]]]]].
    symmetry in Heq.
    apply looked_up_key_not_stored in Heq; [destruct Heq | exact Hp | |];
      apply Hplain; assumption.
  - unfold test_step_fn. rewrite Hbf, Hpath. cbn [bind].
    unfold last_item. rewrite Hlast. cbn [bind].
    destruct (process_3d_logits_test_returns B E C F logits routing_weights
                labels Hlogits Hweights Hlabels Hexperts) as [r ->].
    cbn [bind].
    rewrite bool_decide_eq_false_2 by apply corrupted_name_not_clean.
    cbn [corrupt_metrics_var bind]. rewrite Hupdate. reflexivity.
Qed.

(** C5, failing input: ['gaussian_noise_1'] in the sample run. *)
Lemma corrupted_eval_key_error_witness :
  cond_dense_path demo_flags = true
  /\ (FLAGS_corruptions_interval demo_flags > 0)%Z
  /\ "gaussian_noise" ∈ corruption_types demo_env
  /\ test_step_fn demo_flags (build_metrics demo_flags)
       (build_corrupt_metrics demo_flags (corruption_types demo_env)
          (max_intensity demo_env))
       "gaussian_noise_1" (Tuple ones_logits [half_weights]) zero_labels
     = Raise (KeyError "test/nll_weighted_moegaussian_noise_1").
Proof.
  assert (Hin : "gaussian_noise" ∈ corruption_types demo_env) by (left).
  assert (Hci : (FLAGS_corruptions_interval demo_flags > 0)%Z)
    by (simpl; lia).
  assert (Hplain : forall c', c' ∈ corruption_types demo_env ->
                              plain_name c' = true).
  { intros c' Hc'. simpl in Hc'. rewrite !elem_of_cons, elem_of_nil in Hc'.
    destruct Hc' as [-> | [-> | []]]; reflexivity. }
  split; [reflexivity |]. split; [exact Hci |]. split; [exact Hin |].
  destruct (corrupted_eval_key_error 1 2 2 demo_flags
              (corruption_types demo_env) (max_intensity demo_env)
              (build_metrics demo_flags) "gaussian_noise" 1 ones_logits
              [half_weights] half_weights zero_labels eq_refl eq_refl Hci
              Hplain Hin ltac:(simpl; lia) eq_refl ones_logits_shape
              half_weights_shape eq_refl eq_refl) as [cm [Hcm [_ [_ Hstep]]]].
  rewrite Hcm. exact Hstep.
Defined.

(** The same step on the clean data set returns. *)
Lemma clean_eval_returns :
  returns
    (test_step_fn demo_flags (build_metrics demo_flags)
       (build_corrupt_metrics demo_flags (corruption_types demo_env)
          (max_intensity demo_env))
       "clean" (Tuple ones_logits [half_weights]) zero_labels).
Proof. eexists. reflexivity. Qed.

(** C3, failing inputs. With [--use_bfloat16] both step functions raise
    although the model's output is a tuple: the cast that precedes the check
    either fails to pack the tuple or turns it into a tensor, which the
    check then rejects. *)
Theorem bfloat16_steps_raise (F : flags) (model_output : value)
  (labels : list nat) (l2_loss : R) (metrics : gmap string metric)
  (corrupt_metrics : option (gmap string metric)) (dataset_name : string) :
  FLAGS_use_bfloat16 F = true ->
  is_tuple model_output = true ->
  (train_step_fn F metrics model_output labels l2_loss = Raise ShapeError
   \/ train_step_fn F metrics model_output labels l2_loss
      = Raise (ValueError "Logits are not a tuple."))
  /\ (test_step_fn F metrics corrupt_metrics dataset_name model_output labels
      = Raise ShapeError
      \/ test_step_fn F metrics corrupt_metrics dataset_name model_output
           labels
         = Raise (ValueError "Logits not a tuple")).
Proof.
  intros Hbf Htuple. unfold train_step_fn, test_step_fn. rewrite Hbf.
  destruct model_output as [t | t | logits rws]; try discriminate Htuple.
  unfold tf_cast.
  destruct (bool_decide (shape3 logits = shape3 rws)
            && forallb (fun w => bool_decide (shape2 w = tl (shape3 logits)))
                 rws); cbn [bind]; auto.
Qed.

(** C3 on the sample input. *)
Lemma bfloat16_steps_raise_witness :
  FLAGS_use_bfloat16 bfloat16_flags = true
  /\ is_tuple (Tuple ones_logits [half_weights]) = true
  /\ train_step_fn bfloat16_flags (build_metrics bfloat16_flags)
    (Tuple ones_logits [half_weights]) zero_labels 0
    = Raise ShapeError
  /\ test_step_fn bfloat16_flags (build_metrics bfloat16_flags) None "clean"
       (Tuple ones_logits [half_weights]) zero_labels
     = Raise ShapeError.
Proof.
  assert (Hbf : FLAGS_use_bfloat16 bfloat16_flags = true) by reflexivity.
  assert (Ht : is_tuple (Tuple ones_logits [half_weights]) = true)
    by reflexivity.
  split; [exact Hbf |]. split; [exact Ht |].
  destruct (bfloat16_steps_raise bfloat16_flags
              (Tuple ones_logits [half_weights]) zero_labels 0
              (build_metrics bfloat16_flags) None "clean" Hbf Ht)
    as [[H1 | H1] [H2 | H2]];
    first [ split; assumption | discriminate H1 | discriminate H2 ].
Defined.

(** In the model the framework calls of the step functions raise
    [ShapeError], [IndexError], [KeyError], [NameError] and
    [AttributeError], never the constructor [ValueError], which is kept for
    the errors that the script raises itself. *)
Section ExceptionKinds.

Local Abbreviation no_value_error c :=
  (forall message, c <> Raise (ValueError message)).

Lemma bind_no_value_error {A B} (c : result A) (k : A -> result B) :
  no_value_error c -> (forall a, no_value_error (k a)) ->
  no_value_error (bind c k).
Proof.
  intros Hc Hk message. destruct c as [a | e]; simpl.
  - apply Hk.
  - intros Heq. apply (Hc message). congruence.
Qed.

Lemma traverse_no_value_error {A B} (f : A -> result B) (xs : list A) :
  (forall x, no_value_error (f x)) -> no_value_error (traverse f xs).
Proof.
  intros Hf. induction xs as [|x xs IH]; simpl; [discriminate |].
  apply bind_no_value_error; [apply Hf |]. intros y.
  apply bind_no_value_error; [exact IH | discriminate].
Qed.

Lemma broadcast_no_value_error {A B C} (f : A -> B -> result C)
  (xs : list A) (ys : list B) :
  (forall x y, no_value_error (f x y)) -> no_value_error (broadcast f xs ys).
Proof.
  intros Hf. unfold broadcast.
  destruct (length xs =? length ys)%nat.
  - apply traverse_no_value_error. intros p. apply Hf.
  - destruct xs as [|x [|x' xs]]; destruct ys as [|y [|y' ys]];
      first [ discriminate
            | apply traverse_no_value_error; intros z; apply Hf ].
Qed.

Lemma zip_exact_no_value_error {A B C} (f : A -> B -> result C)
  (xs : list A) (ys : list B) :
  (forall x y, no_value_error (f x y)) -> no_value_error (zip_exact f xs ys).
Proof.
  intros Hf. unfold zip_exact. destruct (length xs =? length ys)%nat.
  - apply traverse_no_value_error. intros p. apply Hf.
  - discriminate.
Qed.

Lemma mul2_no_value_error (a b : tensor2) : no_value_error (mul2 a b).
Proof.
  apply broadcast_no_value_error. intros x y.
  apply broadcast_no_value_error. discriminate.
Qed.

Lemma mul3_no_value_error (a b : tensor3) : no_value_error (mul3 a b).
Proof. apply broadcast_no_value_error. apply mul2_no_value_error. Qed.

Lemma scce_1_2_no_value_error (fl : bool) (labels : list nat) (t : tensor2) :
  no_value_error (scce_1_2 fl labels t).
Proof. apply zip_exact_no_value_error. discriminate. Qed.

Lemma process_3d_logits_no_value_error (F : flags) (logits : tensor3)
  (rw : tensor2) (labels : list nat) :
  no_value_error (_process_3d_logits F logits rw labels).
Proof.
  unfold _process_3d_logits.
  apply bind_no_value_error; [apply mul3_no_value_error | intros ?].
  apply bind_no_value_error; [apply mul3_no_value_error | intros ?].
  apply bind_no_value_error;
    [apply zip_exact_no_value_error, scce_1_2_no_value_error | intros ?].
  apply bind_no_value_error; [apply mul2_no_value_error | discriminate].
Qed.

Lemma process_3d_logits_train_no_value_error (F : flags) (logits : tensor3)
  (rw : tensor2) (labels : list nat) :
  no_value_error (_process_3d_logits_train F logits rw labels).
Proof.
  unfold _process_3d_logits_train.
  apply bind_no_value_error;
    [apply process_3d_logits_no_value_error | intros r].
  assert (Hattr : no_value_error (tf_getattr "softmax")).
  { intros message. unfold tf_getattr. case_bool_decide; discriminate. }
  destruct (FLAGS_loss F).
  - discriminate.
  - discriminate.
  - apply bind_no_value_error;
      [apply scce_1_2_no_value_error | discriminate].
  - apply bind_no_value_error;
      [apply scce_1_2_no_value_error | discriminate].
  - apply bind_no_value_error; [exact Hattr | intros _].
    apply bind_no_value_error;
      [apply scce_1_2_no_value_error | discriminate].
  - apply bind_no_value_error; [exact Hattr | intros _].
    apply bind_no_value_error;
      [apply scce_1_2_no_value_error | discriminate].
Qed.

Lemma process_3d_logits_test_no_value_error (F : flags) (rw : tensor2)
  (logits : tensor3) (labels : list nat) :
  no_value_error (_process_3d_logits_test F rw logits labels).
Proof.
  unfold _process_3d_logits_test.
  apply bind_no_value_error;
    [apply process_3d_logits_no_value_error | intros r].
  do 4 (apply bind_no_value_error;
        [apply scce_1_2_no_value_error | intros ?]).
  discriminate.
Qed.

Lemma last_item_no_value_error {A} (xs : list A) :
  no_value_error (last_item xs).
Proof. unfold last_item. destruct (last xs); discriminate. Qed.

Lemma update_state_no_value_error (key : string) (store : gmap string metric) :
  no_value_error (update_state key store).
Proof.
  unfold update_state, getitem. destruct (store !! key); discriminate.
Qed.

Lemma for_each_no_value_error {A S} (xs : list A) (body : S -> A -> result S)
  (s : S) :
  (forall s x, no_value_error (body s x)) ->
  no_value_error (for_each xs body s).
Proof.
  intros Hb. revert s. induction xs as [|x xs IH]; intros s; simpl;
    [discriminate |].
  apply bind_no_value_error; [apply Hb | exact IH].
Qed.

Ltac updates_no_value_error :=
  repeat (apply bind_no_value_error;
          [apply update_state_no_value_error | intros ?]);
  try apply update_state_no_value_error.

Lemma train_step_fn_tuple_no_value_error (F : flags)
  (metrics : gmap string metric) (logits : tensor3) (rws : list tensor2)
  (labels : list nat) (l2_loss : R) :
  FLAGS_use_bfloat16 F = false ->
  no_value_error (train_step_fn F metrics (Tuple logits rws) labels l2_loss).
Proof.
  intros Hbf. unfold train_step_fn. rewrite Hbf. cbn [bind].
  apply bind_no_value_error; [apply last_item_no_value_error | intros rw].
  apply bind_no_value_error.
  { destruct (cond_dense_path F).
    - apply bind_no_value_error;
        [apply process_3d_logits_train_no_value_error
        | intros [? ?]; discriminate].
    - apply bind_no_value_error;
        [apply scce_1_2_no_value_error | discriminate]. }
  intros [? ?]. updates_no_value_error. discriminate.
Qed.

Lemma test_step_fn_tuple_no_value_error (F : flags)
  (metrics : gmap string metric) (cm : option (gmap string metric))
  (dataset_name : string) (logits : tensor3) (rws : list tensor2)
  (labels : list nat) :
  FLAGS_use_bfloat16 F = false ->
  no_value_error
    (test_step_fn F metrics cm dataset_name (Tuple logits rws) labels).
Proof.
  intros Hbf. unfold test_step_fn. rewrite Hbf. cbn [bind].
  apply bind_no_value_error; [apply last_item_no_value_error | intros rw].
  apply bind_no_value_error.
  { destruct (cond_dense_path F).
    - apply bind_no_value_error;
        [apply process_3d_logits_test_no_value_error | discriminate].
    - apply bind_no_value_error;
        [apply scce_1_2_no_value_error | discriminate]. }
  intros _. case_bool_decide.
  - apply bind_no_value_error; [| discriminate].
    destruct (cond_dense_path F).
    + unfold update_clean_cond_dense. updates_no_value_error.
      apply for_each_no_value_error. intros s x. updates_no_value_error.
    + unfold update_clean_plain. updates_no_value_error.
  - apply bind_no_value_error;
      [destruct cm; discriminate | intros cm'].
    apply bind_no_value_error; [| discriminate].
    destruct (cond_dense_path F).
    + unfold update_corrupt_cond_dense. updates_no_value_error.
    + unfold update_corrupt_plain. updates_no_value_error.
Qed.

End ExceptionKinds.

(** * Further properties of the code *)

Import Driver RetinopathyUtils.

(** ** The setup arithmetic of [main] *)

Section SetupArithmetic.
Local Open Scope Z_scope.

Lemma floordiv_some (a b : Z) : b <> 0 -> floordiv a b = Some (a / b).
Proof. intros H. unfold floordiv. rewrite bool_decide_eq_false_2; auto. Qed.

Lemma floordiv_none (a b : Z) : floordiv a b = None <-> b = 0.
Proof.
  unfold floordiv. case_bool_decide; split; intros; try congruence; lia.
Qed.

End SetupArithmetic.

(** X1. With a positive batch size, [steps_per_epoch] (and
    [steps_per_eval], the same expression on the test split) is the number
    of full batches: the steps of an epoch never ask for more examples than
    the split has, and fewer than one batch of examples is left over. *)
Theorem steps_of_drops_partial_batch (num_examples per_core cores : Z) :
  (0 < batch_size per_core cores)%Z ->
  exists steps,
    steps_of num_examples per_core cores = Some steps
    /\ (steps * batch_size per_core cores <= num_examples
        < (steps + 1) * batch_size per_core cores)%Z.
Proof.
  intros Hb. unfold steps_of. rewrite floordiv_some by lia.
  eexists. split; [reflexivity |].
  assert (Hnz : batch_size per_core cores <> 0%Z) by lia.
  pose proof (Z.div_mod num_examples _ Hnz).
  pose proof (Z.mod_pos_bound num_examples _ Hb). nia.
Qed.

(** X1 on CIFAR: 50000 training examples in batches of 64 * 8. *)
Lemma steps_of_drops_partial_batch_witness :
  exists steps,
    steps_of 50000 64 8 = Some steps
    /\ (steps * batch_size 64 8 <= 50000 < (steps + 1) * batch_size 64 8)%Z.
Proof. apply (steps_of_drops_partial_batch 50000 64 8). reflexivity. Defined.

(** X2. The setup arithmetic of [main] fails, with the [ZeroDivisionError]
    of [//], exactly when [per_core_batch_size] or [num_cores] is zero. *)
Theorem loop_env_of_zero_division (S : setup) :
  loop_env_of S = None <->
  per_core_batch_size S = 0%Z \/ num_cores S = 0%Z.
Proof.
  unfold loop_env_of, steps_of, batch_size.
  destruct (floordiv (train_examples S) _) as [spe|] eqn:H1; simpl.
  - destruct (floordiv (test_examples S) _) as [spv|] eqn:H2; simpl.
    + split; [discriminate |]. intros H.
      assert (floordiv (test_examples S)
                (per_core_batch_size S * num_cores S) = None)
        by (apply floordiv_none; nia).
      congruence.
    + apply floordiv_none in H2. split; [intros _; nia | reflexivity].
  - apply floordiv_none in H1. split; [intros _; nia | reflexivity].
Qed.

(** X3. Inside the two loops, with a non-negative epoch, the progress
    counter [current_step] lies between 1 and [max_steps], so
    [max_steps] is positive and the completion ratio is in (0, 1]; it
    reaches [max_steps] only at the last step of the last epoch, and it
    grows by one from each step to the next, also across epochs. *)
Theorem progress_counter (epoch train_epochs steps_per_epoch step : Z) :
  (0 <= epoch < train_epochs)%Z -> (0 <= step < steps_per_epoch)%Z ->
  (1 <= current_step epoch steps_per_epoch step
     <= max_steps steps_per_epoch train_epochs)%Z
  /\ (current_step epoch steps_per_epoch step
        = max_steps steps_per_epoch train_epochs
      <-> epoch = (train_epochs - 1)%Z /\ step = (steps_per_epoch - 1)%Z)
  /\ current_step epoch steps_per_epoch (step + 1)
       = (current_step epoch steps_per_epoch step + 1)%Z
  /\ current_step (epoch + 1) steps_per_epoch 0
       = (current_step epoch steps_per_epoch (steps_per_epoch - 1) + 1)%Z.
Proof.
  intros He Hs. unfold current_step, max_steps.
  split; [nia |]. split; [| split; ring]. split; [| intros [-> ->]; ring].
  intros H. assert (epoch = train_epochs - 1)%Z by nia. subst epoch.
  split; [reflexivity | nia].
Qed.

(** X3 at the last step of the fourth epoch of a 200-epoch run. *)
Lemma progress_counter_witness :
  (1 <= current_step 3 97 96 <= max_steps 97 200)%Z
  /\ (current_step 3 97 96 = max_steps 97 200
      <-> 3%Z = (200 - 1)%Z /\ 96%Z = (97 - 1)%Z)
  /\ current_step 3 97 (96 + 1) = (current_step 3 97 96 + 1)%Z
  /\ current_step (3 + 1) 97 0 = (current_step 3 97 (97 - 1) + 1)%Z.
Proof. apply (progress_counter 3 200 97 96); lia. Defined.

(** ** Resuming, finishing and failing runs *)

Section Resume.
Local Open Scope Z_scope.

Lemma range_split (lo mid hi : Z) :
  lo <= mid <= hi -> range lo hi = range lo mid ++ range mid hi.
Proof.
  intros H. unfold range.
  replace (Z.to_nat (hi - lo))
    with (Z.to_nat (mid - lo) + Z.to_nat (hi - mid))%nat by lia.
  rewrite seq_app, map_app. f_equal. cbn [Nat.add].
  replace (seq (Z.to_nat (mid - lo)) (Z.to_nat (hi - mid)))
    with (Nat.add (Z.to_nat (mid - lo)) <$> seq 0 (Z.to_nat (hi - mid)))
    by (rewrite fmap_add_seq; f_equal; lia).
  change (@fmap list _ nat nat) with (@map nat nat).
  rewrite map_map. apply map_ext. intros i. lia.
Qed.

Lemma range_nil (lo hi : Z) : hi <= lo -> range lo hi = [].
Proof.
  intros H. unfold range. replace (Z.to_nat (hi - lo)) with 0%nat by lia.
  reflexivity.
Qed.

Lemma restored_initial_epoch_floor (path : string) (e k spe : Z) :
  path <> "" -> 0 <= k < spe ->
  restored_initial_epoch (Some path) (e * spe + k) spe = e.
Proof.
  intros Hp Hk. unfold restored_initial_epoch.
  rewrite bool_decide_eq_false_2 by exact Hp.
  rewrite Z.div_add_l by lia. rewrite Z.div_small by lia. lia.
Qed.

End Resume.

(** X4. A run that restores the checkpoint saved at the end of epoch [e]
    (the optimizer has then made [(e + 1) * steps_per_epoch] iterations)
    starts at epoch [e + 1], and its calls are those of the run from
    scratch after its first [e + 1] epochs. *)
Theorem resumed_run_continues (F : flags) (S : setup) (path : string)
  (e : Z) (E0 E1 : loop_env) :
  path <> "" ->
  (0 <= e < FLAGS_train_epochs F)%Z ->
  loop_env_of (with_checkpoint None 0 S) = Some E0 ->
  (0 < steps_per_epoch E0)%Z ->
  loop_env_of
    (with_checkpoint (Some path) ((e + 1) * steps_per_epoch E0) S)
    = Some E1 ->
  initial_epoch E0 = 0%Z
  /\ initial_epoch E1 = (e + 1)%Z
  /\ main_calls F E0 =
       flat_map (epoch_calls F E0) (range 0 (e + 1)) ++ main_calls F E1.
Proof.
  intros Hp He H0 Hspe H1.
  unfold loop_env_of in H0, H1. cbn [with_checkpoint train_examples
    test_examples per_core_batch_size num_cores latest_checkpoint iterations
    loaded_corruption_types loaded_max_intensity] in H0, H1.
  destruct (steps_of (train_examples S) _ _) as [spe|]; [| discriminate].
  destruct (steps_of (test_examples S) _ _) as [spv|]; [| discriminate].
  cbn -[restored_initial_epoch Z.mul Z.add] in H0, H1.
  injection H0 as <-. injection H1 as <-.
  cbn [steps_per_epoch] in *.
  assert (Hinit : restored_initial_epoch (Some path) ((e + 1) * spe) spe
                  = (e + 1)%Z).
  { replace ((e + 1) * spe)%Z with ((e + 1) * spe + 0)%Z by lia.
    apply restored_initial_epoch_floor; [exact Hp | lia]. }
  split; [reflexivity |]. split; [exact Hinit |].
  unfold main_calls. cbn [initial_epoch].
  unfold restored_initial_epoch in Hinit |- *. rewrite Hinit.
  rewrite (range_split 0 (e + 1) (FLAGS_train_epochs F)) by lia.
  rewrite flat_map_app, <- app_assoc. reflexivity.
Qed.

(** X4 in the sample setup, resumed after the second epoch. *)
Lemma resumed_run_continues_witness :
  initial_epoch
    {| initial_epoch := 0; steps_per_epoch := 97; steps_per_eval := 19;
       corruption_types := [ "gaussian_noise"; "brightness" ]%string;
       max_intensity := 5 |} = 0%Z
  /\ initial_epoch
       {| initial_epoch := 2; steps_per_epoch := 97; steps_per_eval := 19;
          corruption_types := [ "gaussian_noise"; "brightness" ]%string;
          max_intensity := 5 |} = (1 + 1)%Z
  /\ main_calls demo_flags
       {| initial_epoch := 0; steps_per_epoch := 97; steps_per_eval := 19;
          corruption_types := [ "gaussian_noise"; "brightness" ]%string;
          max_intensity := 5 |} =
     flat_map
       (epoch_calls demo_flags
          {| initial_epoch := 0; steps_per_epoch := 97; steps_per_eval := 19;
             corruption_types := [ "gaussian_noise"; "brightness" ]%string;
             max_intensity := 5 |})
       (range 0 (1 + 1))
     ++ main_calls demo_flags
          {| initial_epoch := 2; steps_per_epoch := 97; steps_per_eval := 19;
             corruption_types := [ "gaussian_noise"; "brightness" ]%string;
             max_intensity := 5 |}.
Proof.
  apply (resumed_run_continues demo_flags demo_setup "/out/checkpoint-2" 1).
  - discriminate.
  - simpl. lia.
  - reflexivity.
  - simpl. lia.
  - reflexivity.
Defined.

(** X5. When the restored epoch is not below [train_epochs], the loop
    body never runs: the run trains and evaluates nothing and makes the
    final [checkpoint.save] call only. *)
Theorem finished_run_only_saves (W : outcomes) (F : flags) (E : loop_env) :
  (FLAGS_train_epochs F <= initial_epoch E)%Z ->
  main_loop W F E = perform W (Call_checkpoint_save AfterLoop) []
  /\ main_calls F E = [Call_checkpoint_save AfterLoop].
Proof.
  intros H. unfold main_loop, main_calls.
  rewrite range_nil by exact H. split; reflexivity.
Qed.

(** X5 for the sample flags, restored at epoch 4 of 4. *)
Lemma finished_run_only_saves_witness :
  main_loop all_return demo_flags
    {| initial_epoch := 4; steps_per_epoch := 2; steps_per_eval := 1;
       corruption_types := []; max_intensity := 0 |}
  = perform all_return (Call_checkpoint_save AfterLoop) []
  /\ main_calls demo_flags
       {| initial_epoch := 4; steps_per_epoch := 2; steps_per_eval := 1;
          corruption_types := []; max_intensity := 0 |}
     = [Call_checkpoint_save AfterLoop].
Proof. apply finished_run_only_saves. simpl. lia. Defined.

Section Failure.

Variable W : outcomes.

Lemma perform_all_raise (calls : list call) (t : trace) (e : exn) :
  perform_all W calls t = Raise e <->
  exists before c after,
    calls = before ++ c :: after
    /\ Forall (fun c' => W c' = None) before
    /\ W c = Some e.
Proof.
  unfold perform_all. revert t.
  induction calls as [|c calls IH]; intros t; simpl.
  - split; [discriminate |].
    intros (before & c & after & Heq & _). destruct before; discriminate.
  - unfold perform at 1. destruct (W c) as [e' |] eqn:Hc; simpl.
    + split.
      * intros Heq. injection Heq as ->. exists [], c, calls.
        split; [reflexivity |]. split; [constructor | exact Hc].
      * intros (before & c' & after & Heq & Hall & Hc').
        destruct before as [|b before]; simpl in Heq.
        -- injection Heq as -> ->. congruence.
        -- injection Heq as -> ->. apply Forall_cons in Hall.
           destruct Hall as [Hb _]. congruence.
    + rewrite IH. split.
      * intros (before & c' & after & -> & Hall & Hc').
        exists (c :: before), c', after.
        split; [reflexivity |]. split; [constructor; assumption | exact Hc'].
      * intros (before & c' & after & Heq & Hall & Hc').
        destruct before as [|b before]; simpl in Heq.
        -- injection Heq as -> ->. congruence.
        -- injection Heq as -> ->. apply Forall_cons in Hall.
           destruct Hall as [_ Hall].
           exists before, c', after. auto.
Qed.

End Failure.

(** X6. A run either completes, exactly when each of its calls returns,
    or raises the exception of its first call that raises; no call after
    that one is made, so no final checkpoint is saved. *)
Theorem main_loop_outcome (W : outcomes) (F : flags) (E : loop_env) :
  (returns (main_loop W F E) <->
   Forall (fun c => W c = None) (main_calls F E))
  /\ forall e,
       main_loop W F E = Raise e <->
       exists before c after,
         main_calls F E = before ++ c :: after
         /\ Forall (fun c' => W c' = None) before
         /\ W c = Some e.
Proof.
  split; [apply main_loop_returns |].
  intros e. rewrite main_loop_calls. apply perform_all_raise.
Qed.

Section CorruptedEvaluationInTheLoop.

Variables (W : outcomes) (F : flags) (E : loop_env).
Hypothesis Hothers :
  forall call, evaluates_corrupted call = false -> W call = None.

Lemma range_cons (lo hi : Z) :
  (lo < hi)%Z -> range lo hi = lo :: range (lo + 1) hi.
Proof.
  intros H. rewrite (range_split lo (lo + 1) hi) by lia.
  unfold range at 1. replace (Z.to_nat (lo + 1 - lo)) with 1%nat by lia.
  simpl. f_equal. lia.
Qed.

Lemma set_all_head_key {V A} (key : A -> string) (val : A -> V)
  (xs : list A) (k : string) (v : V) (d : list (string * V)) :
  exists v' d',
    fold_left (fun ds x => odict_set (key x) (val x) ds) xs ((k, v) :: d)
    = (k, v') :: d'.
Proof.
  revert v d. induction xs as [|x xs IH]; intros v d; simpl.
  - eauto.
  - case_bool_decide; apply IH.
Qed.

(** The first corrupted data set of [test_datasets]. *)
Lemma test_datasets_first_corrupted (c : string) (types' : list string) :
  corruption_types E = c :: types' ->
  (1 <= max_intensity E)%Z ->
  (FLAGS_corruptions_interval F > 0)%Z ->
  exists d more,
    test_datasets F E
    = ("clean"%string, CleanTest) :: (corrupted_name c 1, d) :: more.
Proof.
  intros Htypes Hmax Hci. unfold test_datasets.
  rewrite build_test_datasets_flat, Htypes.
  rewrite bool_decide_eq_true_2 by exact Hci.
  cbn [flat_map].
  set (rest := flat_map (fun c0 => map (pair c0)
                           (range 1 (max_intensity E + 1))) types').
  rewrite (range_cons 1) by lia. cbn [map app fold_left].
  cbn [odict_set fst snd].
  rewrite bool_decide_eq_false_2
    by (intros Heq; symmetry in Heq; revert Heq;
        apply corrupted_name_not_clean).
  cbn [odict_set].
  rewrite (set_all_head (string * Z) (fun p => corrupted_name p.1 p.2)
             (fun p => CorruptedTest p.1 p.2))
    by (intros [c' i'] _; apply corrupted_name_not_clean).
  destruct (set_all_head_key (fun p : string * Z => corrupted_name p.1 p.2)
              (fun p => CorruptedTest p.1 p.2)
              (map (pair c) (range (1 + 1) (max_intensity E + 1)) ++ rest)
              (corrupted_name c 1) (CorruptedTest c 1) [])
    as [v' [d' Heq]].
  rewrite Heq. eauto.
Qed.

(** In an epoch without corrupted evaluation every call returns. *)
Lemma clean_epoch_returns (epoch : Z) :
  interval_hit (FLAGS_corruptions_interval F) epoch = false ->
  Forall (fun call => W call = None) (epoch_calls F E epoch).
Proof.
  intros Hhit. unfold epoch_calls.
  rewrite datasets_to_evaluate_spec, Hhit. cbn [flat_map app].
  unfold eval_calls. rewrite !Forall_app, !Forall_cons, !Forall_map.
  repeat split;
    try (apply Forall_forall; intros x _; apply Hothers; reflexivity);
    try (destruct (interval_hit (FLAGS_checkpoint_interval F) epoch));
    repeat constructor; apply Hothers; reflexivity.
Qed.

Lemma perform_all_returning (calls : list call) (t : trace) :
  Forall (fun call => W call = None) calls ->
  perform_all W calls t = Ok (t ++ calls).
Proof. intros H. apply perform_all_ok. split; [exact H | reflexivity]. Qed.

End CorruptedEvaluationInTheLoop.

(** X27. A run in which every call other than an evaluation step on a
    corrupted data set returns, and the first evaluation step on the first
    corrupted data set raises (as it does on the CondDense path), ends with
    that exception in the first epoch whose number plus one is a multiple
    of [corruptions_interval]: training goes on until then and stops
    there. *)
Theorem corrupted_evaluation_ends_the_run (W : outcomes) (F : flags)
  (E : loop_env) (c : string) (types' : list string) (e0 : Z) (e : exn) :
  (forall call, evaluates_corrupted call = false -> W call = None) ->
  W (Call_test_step (corrupted_name c 1) e0 0) = Some e ->
  corruption_types E = c :: types' ->
  (1 <= max_intensity E)%Z ->
  (0 < steps_per_eval E)%Z ->
  (initial_epoch E <= e0 < FLAGS_train_epochs F)%Z ->
  interval_hit (FLAGS_corruptions_interval F) e0 = true ->
  (forall e', (initial_epoch E <= e' < e0)%Z ->
     interval_hit (FLAGS_corruptions_interval F) e' = false) ->
  main_loop W F E = Raise e.
Proof.
  intros Hothers Hstep Htypes Hmax Hspv He0 Hhit Hfirst.
  assert (Hci : (FLAGS_corruptions_interval F > 0)%Z)
    by (apply interval_hit_spec in Hhit; tauto).
  destruct (test_datasets_first_corrupted F E c types' Htypes Hmax Hci)
    as [d [more Hds]].
  rewrite main_loop_calls. unfold main_calls.
  rewrite (range_split (initial_epoch E) e0) by lia.
  rewrite (range_cons e0) by lia.
  rewrite flat_map_app. cbn [flat_map].
  rewrite <- !app_assoc, perform_all_app.
  rewrite perform_all_returning.
  2:{ apply Forall_flat_map, Forall_forall. intros e' He'.
      apply elem_of_range in He'.
      apply clean_epoch_returns; [exact Hothers | apply Hfirst, He']. }
  cbn [bind]. unfold epoch_calls at 1.
  rewrite datasets_to_evaluate_spec, Hhit, Hds. cbn [tl flat_map fst].
  rewrite <- !app_assoc, perform_all_app.
  rewrite perform_all_returning
    by (apply Forall_map, Forall_forall; intros x _; apply Hothers;
        reflexivity).
  cbn [bind]. rewrite perform_all_app.
  rewrite perform_all_returning
    by (unfold eval_calls; constructor; [apply Hothers; reflexivity |];
        apply Forall_map, Forall_forall; intros x _; apply Hothers;
        reflexivity).
  cbn [bind]. unfold eval_calls at 1.
  rewrite (range_cons 0) by lia. cbn [map app].
  unfold perform_all. cbn [for_each]. unfold perform at 1.
  rewrite (Hothers (Call_iter (corrupted_name c 1) e0)) by reflexivity.
  cbn [bind]. unfold perform at 1. rewrite Hstep. reflexivity.
Qed.

(** X27 in the sample run, whose second epoch evaluates corrupted data. *)
Lemma corrupted_evaluation_ends_the_run_witness :
  main_loop corrupted_steps_raise demo_flags demo_env
  = Raise (KeyError
             ("test/nll_weighted_moe"
              ++ corrupted_name "gaussian_noise" 1)%string).
Proof.
  apply (corrupted_evaluation_ends_the_run corrupted_steps_raise demo_flags
           demo_env "gaussian_noise" ["brightness"%string] 1).
  - intros [] Hcall; try reflexivity. simpl in Hcall |- *.
    destruct (bool_decide (dataset_name = "clean"%string));
      [reflexivity | discriminate Hcall].
  - reflexivity.
  - reflexivity.
  - simpl. lia.
  - simpl. lia.
  - simpl. lia.
  - reflexivity.
  - intros e' He'. simpl in He'. assert (e' = 0%Z) by lia. subst e'.
    reflexivity.
Defined.

(** ** The metric dictionaries *)

Section UpdateAll.

Lemma update_state_ok (key : string) (store store' : gmap string metric) :
  update_state key store = Ok store' <->
  exists m, store !! key = Some m /\ store' = <[key := bump m]> store.
Proof.
  unfold update_state, getitem.
  destruct (store !! key) as [m |]; cbn [bind]; split.
  - intros Heq. injection Heq as <-. exists m. split; reflexivity.
  - intros [m' [Hm ->]]. injection Hm as ->. reflexivity.
  - discriminate.
  - intros [m' [Hm _]]. discriminate.
Qed.

Lemma update_state_raise (key : string) (store : gmap string metric)
  (e : exn) :
  update_state key store = Raise e <->
  store !! key = None /\ e = KeyError key.
Proof.
  unfold update_state, getitem.
  destruct (store !! key) as [m |]; cbn [bind]; split.
  - discriminate.
  - intros [Hm _]. discriminate.
  - intros Heq. injection Heq as <-. split; reflexivity.
  - intros [_ ->]. reflexivity.
Qed.

Lemma update_state_dom (key : string) (store store' : gmap string metric) :
  update_state key store = Ok store' -> dom store' = dom store.
Proof.
  intros H. apply update_state_ok in H. destruct H as [m [Hm ->]].
  apply dom_insert_lookup_L. rewrite Hm. eauto.
Qed.

Lemma update_all_dom (keys : list string) (store store' : gmap string metric) :
  update_all keys store = Ok store' -> dom store' = dom store.
Proof.
  unfold update_all. revert store.
  induction keys as [|k keys IH]; intros store; simpl.
  - intros Heq. injection Heq as <-. reflexivity.
  - destruct (update_state k store) as [s1 | e] eqn:Hk; cbn [bind];
      [| discriminate].
    intros H. rewrite (IH _ H). apply (update_state_dom k), Hk.
Qed.

Lemma update_all_app (keys1 keys2 : list string) (store : gmap string metric) :
  update_all (keys1 ++ keys2) store =
    bind (update_all keys1 store) (update_all keys2).
Proof.
  unfold update_all. revert store.
  induction keys1 as [|k keys1 IH]; intros store; simpl; [reflexivity |].
  destruct (update_state k store) as [s1 | e]; cbn [bind];
    [apply IH | reflexivity].
Qed.

(** The updates of a list of keys return exactly when each key is in the
    dictionary. *)
Lemma update_all_returns (keys : list string) (store : gmap string metric) :
  returns (update_all keys store) <->
  Forall (fun k => is_Some (store !! k)) keys.
Proof.
  unfold update_all, returns. revert store.
  induction keys as [|k keys IH]; intros store; simpl.
  - split; [constructor | eauto].
  - rewrite Forall_cons.
    destruct (update_state k store) as [s1 | e] eqn:Hk; cbn [bind].
    + pose proof (update_state_dom _ _ _ Hk) as Hdom.
      apply update_state_ok in Hk. destruct Hk as [m [Hm _]].
      rewrite IH. split.
      * intros Hall. split; [rewrite Hm; eauto |].
        eapply Forall_impl; [exact Hall |]. intros k' Hk'. cbv beta in Hk'.
        apply elem_of_dom. rewrite <- Hdom. apply elem_of_dom. exact Hk'.
      * intros [_ Hall]. eapply Forall_impl; [exact Hall |].
        intros k' Hk'. cbv beta in Hk'.
        apply elem_of_dom. rewrite Hdom. apply elem_of_dom. exact Hk'.
    + apply update_state_raise in Hk. destruct Hk as [Hm _]. split.
      * intros [a Ha]. discriminate.
      * intros [[m Hm'] _]. congruence.
Qed.

Lemma for_each_pairs {A} (k1 k2 : A -> string) (xs : list A)
  (store : gmap string metric) :
  for_each xs
    (fun store x =>
       do store <- update_state (k1 x) store; update_state (k2 x) store)
    store
  = update_all (flat_map (fun x => [k1 x; k2 x]) xs) store.
Proof.
  unfold update_all. revert store.
  induction xs as [|x xs IH]; intros store; simpl; [reflexivity |].
  destruct (update_state (k1 x) store) as [s1 | e]; cbn [bind];
    [| reflexivity].
  destruct (update_state (k2 x) s1) as [s2 | e]; cbn [bind];
    [apply IH | reflexivity].
Qed.

Lemma update_clean_keys (F : flags) (metrics : gmap string metric) :
  update_clean F metrics = update_all (clean_keys F) metrics.
Proof.
  unfold update_clean, clean_keys.
  destruct (cond_dense_path F).
  - unfold update_clean_cond_dense. rewrite update_all_app.
    unfold update_all at 1. cbn [for_each].
    repeat match goal with
    | |- bind (update_state ?k ?m) _ = _ =>
        destruct (update_state k m); cbn [bind]; [| reflexivity]
    end.
    apply (for_each_pairs
             (fun idx => "test/dense_routing_weight_" ++ pretty idx)%string
             (fun idx =>
                "test/dense_routing_weight_normalized_" ++ pretty idx)%string).
  - unfold update_clean_plain, update_all. cbn [for_each].
    repeat match goal with
    | |- bind (update_state ?k ?m) _ = _ =>
        destruct (update_state k m); cbn [bind]; [| reflexivity]
    end.
    destruct (update_state _ _); reflexivity.
Qed.

Lemma update_train_keys (metrics : gmap string metric) :
  update_all train_keys metrics =
    (do metrics <- update_state "train/ece" metrics;
     do metrics <- update_state "train/loss" metrics;
     do metrics <- update_state "train/negative_log_likelihood" metrics;
     update_state "train/accuracy" metrics).
Proof.
  unfold update_all, train_keys. cbn [for_each].
  repeat match goal with
  | |- bind (update_state ?k ?m) _ = _ =>
      destruct (update_state k m); cbn [bind]; [| reflexivity]
  end.
  reflexivity.
Qed.

End UpdateAll.

Section BuildMetrics.

Lemma fold_experts_keeps (ns : list Z) (metrics : gmap string metric)
  (k : string) :
  is_Some (metrics !! k) ->
  is_Some
    (fold_left (fun metrics idx =>
        <[("test/dense_routing_weight_normalized_" ++ pretty idx)%string :=
            new_metric Mean]>
        (<[("test/dense_routing_weight_" ++ pretty idx)%string :=
             new_metric Mean]> metrics))
      ns metrics !! k).
Proof.
  revert metrics. induction ns as [|n ns IH]; intros metrics H; simpl;
    [exact H |].
  apply IH. rewrite !lookup_insert_is_Some'. auto.
Qed.

Lemma fold_experts_adds (ns : list Z) (metrics : gmap string metric)
  (idx : Z) :
  idx ∈ ns ->
  let built :=
    fold_left (fun metrics idx =>
        <[("test/dense_routing_weight_normalized_" ++ pretty idx)%string :=
            new_metric Mean]>
        (<[("test/dense_routing_weight_" ++ pretty idx)%string :=
             new_metric Mean]> metrics))
      ns metrics in
  is_Some (built !! ("test/dense_routing_weight_" ++ pretty idx)%string)
  /\ is_Some
       (built
          !! ("test/dense_routing_weight_normalized_" ++ pretty idx)%string).
Proof.
  intros Hin. revert metrics.
  induction ns as [|n ns IH]; intros metrics; simpl.
  - apply elem_of_nil in Hin. destruct Hin.
  - apply elem_of_cons in Hin. destruct Hin as [<- | Hin].
    + split; apply fold_experts_keeps; rewrite !lookup_insert_is_Some'; auto.
    + apply IH, Hin.
Qed.

End BuildMetrics.

Section KeysPresent.

Variable F : flags.

Lemma train_keys_present :
  Forall (fun k => is_Some (build_metrics F !! k)) train_keys.
Proof.
  unfold build_metrics, dict_update.
  repeat constructor; apply lookup_union_is_Some; right;
    destruct (cond_dense_path F);
    try (apply fold_experts_keeps; apply lookup_union_is_Some; right);
    eexists; reflexivity.
Qed.

Lemma clean_keys_present :
  Forall (fun k => is_Some (build_metrics F !! k)) (clean_keys F).
Proof.
  unfold clean_keys, build_metrics, dict_update.
  destruct (cond_dense_path F).
  - apply Forall_app. split.
    + repeat constructor; apply lookup_union_is_Some; right;
        apply fold_experts_keeps; eexists; reflexivity.
    + apply Forall_flat_map, Forall_forall. intros idx Hidx.
      repeat constructor; apply lookup_union_is_Some; right;
        [ refine (proj1 (fold_experts_adds _ _ idx Hidx))
        | refine (proj2 (fold_experts_adds _ _ idx Hidx)) ].
  - repeat constructor; apply lookup_union_is_Some; right;
      eexists; reflexivity.
Qed.

End KeysPresent.

(** X8. For every setting of the flags the [metrics] dictionary holds
    every key that [train_step] updates and every key that [test_step]
    updates on the clean data set, on the CondDense path (with its two
    routing-weight metrics for each expert) and on the other path: these
    updates never fail a lookup. *)
Theorem step_updates_find_their_keys (F : flags) :
  returns (update_all train_keys (build_metrics F))
  /\ returns (update_clean F (build_metrics F)).
Proof.
  rewrite update_clean_keys, !update_all_returns.
  split; [apply train_keys_present | apply clean_keys_present].
Qed.

(** ** What the step functions do to the dictionaries *)

Section UpdateAllLookup.

Lemma update_all_other (keys : list string) (store store' : gmap string metric)
  (k : string) :
  update_all keys store = Ok store' -> k ∉ keys ->
  store' !! k = store !! k.
Proof.
  unfold update_all. revert store.
  induction keys as [|k0 keys IH]; intros store; simpl.
  - intros Heq _. injection Heq as <-. reflexivity.
  - destruct (update_state k0 store) as [s1 | e] eqn:Hk; cbn [bind];
      [| discriminate].
    intros H Hnot. apply not_elem_of_cons in Hnot. destruct Hnot as [Hne Hnot].
    rewrite (IH _ H Hnot).
    apply update_state_ok in Hk. destruct Hk as [m [_ ->]].
    apply lookup_insert_ne. congruence.
Qed.

Lemma update_all_once (keys : list string) (store store' : gmap string metric)
  (k : string) :
  NoDup keys -> update_all keys store = Ok store' -> k ∈ keys ->
  store' !! k = bump <$> store !! k.
Proof.
  unfold update_all. revert store.
  induction keys as [|k0 keys IH]; intros store Hnd; simpl.
  - intros _ Hin. apply elem_of_nil in Hin. destruct Hin.
  - apply NoDup_cons in Hnd. destruct Hnd as [Hk0 Hnd].
    destruct (update_state k0 store) as [s1 | e] eqn:Hk; cbn [bind];
      [| discriminate].
    intros H Hin. apply update_state_ok in Hk. destruct Hk as [m [Hm ->]].
    apply elem_of_cons in Hin. destruct Hin as [-> | Hin].
    + rewrite (update_all_other keys _ _ k0 H Hk0).
      rewrite lookup_insert_eq, Hm. reflexivity.
    + rewrite (IH _ Hnd H Hin). rewrite lookup_insert_ne; [reflexivity |].
      intros ->. contradiction.
Qed.

Lemma train_keys_not_clean (F : flags) (k : string) :
  k ∈ train_keys -> k ∉ clean_keys F.
Proof.
  intros Hk Hin. unfold train_keys in Hk.
  rewrite !elem_of_cons, elem_of_nil in Hk.
  unfold clean_keys in Hin. destruct (cond_dense_path F).
  - apply elem_of_app in Hin. destruct Hin as [Hin | Hin].
    + rewrite !elem_of_cons, elem_of_nil in Hin.
      destruct Hk as [-> | [-> | [-> | [-> | []]]]];
        repeat (destruct Hin as [Hin | Hin]; [discriminate Hin |]);
        destruct Hin.
    + apply list_elem_of_In, in_flat_map in Hin.
      destruct Hin as [idx [_ Hin]]. simpl in Hin.
      destruct Hk as [-> | [-> | [-> | [-> | []]]]];
        destruct Hin as [Hin | [Hin | []]]; discriminate Hin.
  - rewrite !elem_of_cons, elem_of_nil in Hin.
    destruct Hk as [-> | [-> | [-> | [-> | []]]]];
      repeat (destruct Hin as [Hin | Hin]; [discriminate Hin |]);
      destruct Hin.
Qed.

End UpdateAllLookup.

(** X9. A training step that returns has [loss] equal to the negative
    log-likelihood plus the L2 loss, updates each of the four train metrics
    exactly once, and leaves every other metric and the set of keys as they
    were. *)
Theorem train_step_updates (F : flags) (metrics : gmap string metric)
  (model_output : value) (labels : list nat) (l2_loss : R)
  (probs : probs_value) (negative_log_likelihood loss : R)
  (metrics' : gmap string metric) :
  train_step_fn F metrics model_output labels l2_loss
    = Ok (probs, negative_log_likelihood, loss, metrics') ->
  loss = (negative_log_likelihood + l2_loss)%R
  /\ dom metrics' = dom metrics
  /\ (forall k, k ∈ train_keys -> metrics' !! k = bump <$> metrics !! k)
  /\ (forall k, k ∉ train_keys -> metrics' !! k = metrics !! k).
Proof.
  unfold train_step_fn. intros H.
  destruct (if FLAGS_use_bfloat16 F then tf_cast model_output
            else Ok model_output) as [[t | t | logits rws] | e];
    cbn [bind] in H; try discriminate H.
  destruct (last_item rws) as [rw | e]; cbn [bind] in H; [| discriminate H].
  destruct (if cond_dense_path F then _ else _) as [[p nll] | e];
    cbn [bind] in H; [| discriminate H].
  assert (Hall : update_all train_keys metrics = Ok metrics'
                 /\ loss = (negative_log_likelihood + l2_loss)%R).
  { rewrite update_train_keys.
    destruct (update_state "train/ece" metrics) as [m1 | e];
      cbn [bind] in H |- *; [| discriminate H].
    destruct (update_state "train/loss" m1) as [m2 | e];
      cbn [bind] in H |- *; [| discriminate H].
    destruct (update_state "train/negative_log_likelihood" m2) as [m3 | e];
      cbn [bind] in H |- *; [| discriminate H].
    destruct (update_state "train/accuracy" m3) as [m4 | e];
      cbn [bind] in H |- *; [| discriminate H].
    injection H as _ <- <- <-. split; reflexivity. }
  destruct Hall as [Hall ->]. split; [reflexivity |].
  split; [apply (update_all_dom train_keys), Hall |]. split.
  - intros k Hk. apply (update_all_once train_keys); [| exact Hall | exact Hk].
    unfold train_keys. repeat constructor; rewrite ?elem_of_cons, ?elem_of_nil;
      intros Hc; repeat (destruct Hc as [Hc | Hc]; [discriminate Hc |]);
      destruct Hc.
  - intros k Hk. apply (update_all_other train_keys); assumption.
Qed.

(** X9 on the sample input. *)
Lemma train_step_updates_witness :
  exists probs nll loss metrics',
    train_step_fn demo_flags (build_metrics demo_flags)
      (Tuple ones_logits [half_weights]) zero_labels 3
      = Ok (probs, nll, loss, metrics')
    /\ loss = (nll + 3)%R
    /\ dom metrics' = dom (build_metrics demo_flags)
    /\ (forall k, k ∈ train_keys ->
          metrics' !! k = bump <$> build_metrics demo_flags !! k)
    /\ (forall k, k ∉ train_keys ->
          metrics' !! k = build_metrics demo_flags !! k).
Proof.
  do 4 eexists. split; [reflexivity |].
  eapply (train_step_updates demo_flags (build_metrics demo_flags)
            (Tuple ones_logits [half_weights]) zero_labels 3).
  reflexivity.
Defined.

(** X10. An evaluation step that returns neither adds nor removes a key
    of [metrics] or of [corrupt_metrics] and never touches a train metric;
    on the clean data set [corrupt_metrics] is left as it was, and on any
    other data set [metrics] is. *)
Theorem test_step_keeps_keys (F : flags) (metrics : gmap string metric)
  (corrupt_metrics : option (gmap string metric)) (dataset_name : string)
  (model_output : value) (labels : list nat)
  (metrics' : gmap string metric)
  (corrupt_metrics' : option (gmap string metric)) :
  test_step_fn F metrics corrupt_metrics dataset_name model_output labels
    = Ok (metrics', corrupt_metrics') ->
  dom metrics' = dom metrics
  /\ dom <$> corrupt_metrics' = dom <$> corrupt_metrics
  /\ (forall k, k ∈ train_keys -> metrics' !! k = metrics !! k)
  /\ (dataset_name = "clean"%string -> corrupt_metrics' = corrupt_metrics)
  /\ (dataset_name <> "clean"%string -> metrics' = metrics).
Proof.
  unfold test_step_fn. intros H.
  destruct (if FLAGS_use_bfloat16 F then tf_cast model_output
            else Ok model_output) as [[t | t | logits rws] | e];
    cbn [bind] in H; try discriminate H.
  destruct (last_item rws) as [rw | e]; cbn [bind] in H; [| discriminate H].
  destruct (if cond_dense_path F then _ else _) as [[] | e] in H;
    cbn [bind] in H; [| discriminate H].
  case_bool_decide as Hclean.
  - fold (update_clean F metrics) in H. rewrite update_clean_keys in H.
    destruct (update_all (clean_keys F) metrics) as [m1 | e] eqn:Hall;
      cbn [bind] in H; [| discriminate H].
    injection H as <- <-.
    split; [apply (update_all_dom (clean_keys F)), Hall |].
    split; [reflexivity |]. split; [| split; [reflexivity | contradiction]].
    intros k Hk. apply (update_all_other (clean_keys F)); [exact Hall |].
    apply train_keys_not_clean, Hk.
  - destruct corrupt_metrics as [cm |]; cbn [corrupt_metrics_var bind] in H;
      [| discriminate H].
    destruct (if cond_dense_path F then _ else _) as [cm1 | e] eqn:Hupd in H;
      cbn [bind] in H; [| discriminate H].
    injection H as <- <-.
    split; [reflexivity |]. split; [| split; [reflexivity |]].
    2:{ split; [contradiction | reflexivity]. }
    cbn [fmap option_fmap option_map]. f_equal.
    destruct (cond_dense_path F).
    + unfold update_corrupt_cond_dense in Hupd.
      repeat match type of Hupd with
      | bind (update_state ?k ?m) _ = _ =>
          let Hk := fresh "Hk" in
          destruct (update_state k m) eqn:Hk; cbn [bind] in Hupd;
            [apply update_state_dom in Hk | discriminate Hupd]
      end.
      apply update_state_dom in Hupd. congruence.
    + unfold update_corrupt_plain in Hupd.
      repeat match type of Hupd with
      | bind (update_state ?k ?m) _ = _ =>
          let Hk := fresh "Hk" in
          destruct (update_state k m) eqn:Hk; cbn [bind] in Hupd;
            [apply update_state_dom in Hk | discriminate Hupd]
      end.
      apply update_state_dom in Hupd. congruence.
Qed.

(** X10 on the sample input, clean data set. *)
Lemma test_step_keeps_keys_witness :
  exists metrics' corrupt_metrics',
    test_step_fn demo_flags (build_metrics demo_flags)
      (build_corrupt_metrics demo_flags (corruption_types demo_env)
         (max_intensity demo_env))
      "clean" (Tuple ones_logits [half_weights]) zero_labels
      = Ok (metrics', corrupt_metrics')
    /\ dom metrics' = dom (build_metrics demo_flags)
    /\ dom <$> corrupt_metrics' =
         dom <$> build_corrupt_metrics demo_flags (corruption_types demo_env)
                   (max_intensity demo_env)
    /\ (forall k, k ∈ train_keys ->
          metrics' !! k = build_metrics demo_flags !! k)
    /\ ("clean"%string = "clean"%string ->
        corrupt_metrics' =
          build_corrupt_metrics demo_flags (corruption_types demo_env)
            (max_intensity demo_env))
    /\ ("clean"%string <> "clean"%string ->
        metrics' = build_metrics demo_flags).
Proof.
  do 2 eexists. split; [reflexivity |].
  apply (test_step_keeps_keys demo_flags (build_metrics demo_flags)
           (build_corrupt_metrics demo_flags (corruption_types demo_env)
              (max_intensity demo_env))
           "clean" (Tuple ones_logits [half_weights]) zero_labels).
  reflexivity.
Defined.

Section StepsReturn.
Local Open Scope R_scope.

Variables (B E C : nat) (F : flags) (logits : tensor3)
  (routing_weights : tensor2) (labels : list nat).
Hypothesis Hlogits : has_shape3 B E C logits.
Hypothesis Hweights : has_shape2 B E routing_weights.
Hypothesis Hlabels : length labels = B.
Hypothesis Hexperts : FLAGS_num_experts F = E.

Lemma process_3d_logits_train_cases :
  if uses_tf_softmax (FLAGS_loss F)
  then _process_3d_logits_train F logits routing_weights labels
       = Raise (AttributeError "tensorflow" "softmax")
  else returns (_process_3d_logits_train F logits routing_weights labels).
Proof.
  pose proof (softmax3_shape B E C logits Hlogits) as Hprobs.
  unfold _process_3d_logits_train, returns.
  rewrite (process_3d_logits_ok B E C) by assumption. cbn [bind].
  destruct (FLAGS_loss F);
    cbn [uses_tf_softmax weighted_probs unweighted_probs weighted_gibbs_ce
         unweighted_gibbs_ce]; try reflexivity; try (eexists; reflexivity).
  - rewrite scce_1_2_ok; [eexists; reflexivity |].
    rewrite (proj2 (length_reduce_axis1 B E C _
               (scaled_shape B E C _ _ Hweights Hprobs))). exact Hlabels.
  - rewrite scce_1_2_ok; [eexists; reflexivity |].
    rewrite (proj1 (length_reduce_axis1 B E C _ Hprobs)). exact Hlabels.
Qed.

End StepsReturn.

(** X11. On the CondDense path without [--use_bfloat16], a training step
    on a well-shaped tuple from the model uses the last entry of
    [all_routing_weights] only. For the two [loss] values that go through
    [tf.softmax] it raises [AttributeError], whatever the labels; for the
    other four, with labels in the class range, it returns the
    probabilities and the negative log-likelihood of
    [_process_3d_logits_train], with the L2 loss added to the loss. *)
Theorem train_step_returns (B E C : nat) (F : flags) (logits : tensor3)
  (all_routing_weights : list tensor2) (routing_weights : tensor2)
  (labels : list nat) (l2_loss : R) :
  cond_dense_path F = true ->
  FLAGS_use_bfloat16 F = false ->
  last all_routing_weights = Some routing_weights ->
  has_shape3 B E C logits -> has_shape2 B E routing_weights ->
  length labels = B -> FLAGS_num_experts F = E ->
  (uses_tf_softmax (FLAGS_loss F) = false ->
   Forall (fun l => (l < C)%nat) labels) ->
  if uses_tf_softmax (FLAGS_loss F)
  then train_step_fn F (build_metrics F) (Tuple logits all_routing_weights)
         labels l2_loss
       = Raise (AttributeError "tensorflow" "softmax")
  else
    exists probs negative_log_likelihood metrics',
      _process_3d_logits_train F logits routing_weights labels
        = Ok (probs, negative_log_likelihood)
      /\ train_step_fn F (build_metrics F)
           (Tuple logits all_routing_weights) labels l2_loss
         = Ok (Probs2 probs, negative_log_likelihood,
               (negative_log_likelihood + l2_loss)%R, metrics').
Proof.
  intros Hpath Hbf Hlast Hlogits Hweights Hlabels Hexperts Hrange.
  pose proof (process_3d_logits_train_cases B E C F logits routing_weights
                labels Hlogits Hweights Hlabels Hexperts) as Hloss.
  unfold train_step_fn. rewrite Hbf, Hpath. cbn [bind].
  unfold last_item. rewrite Hlast. cbn [bind].
  destruct (uses_tf_softmax (FLAGS_loss F)).
  - rewrite Hloss. reflexivity.
  - destruct Hloss as [[probs nll] ->]. cbn [bind].
    destruct (proj2 (update_all_returns train_keys (build_metrics F))
                (train_keys_present F)) as [metrics' Hm].
    rewrite update_train_keys in Hm.
    exists probs, nll, metrics'. split; [reflexivity |].
    destruct (update_state "train/ece" _) as [m1 | e];
      cbn [bind] in Hm |- *; [| discriminate Hm].
    destruct (update_state "train/loss" m1) as [m2 | e];
      cbn [bind] in Hm |- *; [| discriminate Hm].
    destruct (update_state "train/negative_log_likelihood" m2) as [m3 | e];
      cbn [bind] in Hm |- *; [| discriminate Hm].
    rewrite Hm. reflexivity.
Qed.

(** X11 for [--loss=moe], with two layers of routing weights. *)
Lemma train_step_returns_witness :
  exists probs negative_log_likelihood metrics',
    _process_3d_logits_train (with_loss loss_moe demo_flags) ones_logits
      half_weights zero_labels
      = Ok (probs, negative_log_likelihood)
    /\ train_step_fn (with_loss loss_moe demo_flags)
         (build_metrics (with_loss loss_moe demo_flags))
         (Tuple ones_logits [half_weights; half_weights]) zero_labels 3
       = Ok (Probs2 probs, negative_log_likelihood,
             (negative_log_likelihood + 3)%R, metrics').
Proof.
  exact (train_step_returns 1 2 2 (with_loss loss_moe demo_flags) ones_logits
           [half_weights; half_weights] half_weights zero_labels 3
           eq_refl eq_refl eq_refl ones_logits_shape half_weights_shape
           eq_refl eq_refl (fun _ => zero_labels_in_range)).
Defined.

(** X12. On the CondDense path without [--use_bfloat16], the evaluation
    step on the clean data set returns on every well-shaped tuple from the
    model with labels in the class range, for every value of the [loss]
    flag and whether or not [corrupt_metrics] is bound, and leaves
    [corrupt_metrics] as it was. *)
Theorem clean_test_step_returns (B E C : nat) (F : flags)
  (corrupt_metrics : option (gmap string metric)) (logits : tensor3)
  (all_routing_weights : list tensor2) (routing_weights : tensor2)
  (labels : list nat) :
  cond_dense_path F = true ->
  FLAGS_use_bfloat16 F = false ->
  last all_routing_weights = Some routing_weights ->
  has_shape3 B E C logits -> has_shape2 B E routing_weights ->
  length labels = B -> Forall (fun l => (l < C)%nat) labels ->
  FLAGS_num_experts F = E ->
  exists metrics',
    test_step_fn F (build_metrics F) corrupt_metrics "clean"
      (Tuple logits all_routing_weights) labels
    = Ok (metrics', corrupt_metrics).
Proof.
  intros Hpath Hbf Hlast Hlogits Hweights Hlabels Hrange Hexperts.
  unfold test_step_fn. rewrite Hbf, Hpath. cbn [bind].
  unfold last_item. rewrite Hlast. cbn [bind].
  destruct (process_3d_logits_test_returns B E C F logits routing_weights
              labels Hlogits Hweights Hlabels Hexperts) as [r ->].
  cbn [bind]. rewrite bool_decide_eq_true_2 by reflexivity.
  destruct (proj2 (update_all_returns (clean_keys F) (build_metrics F))
              (clean_keys_present F)) as [metrics' Hm].
  rewrite <- update_clean_keys in Hm. unfold update_clean in Hm.
  rewrite Hpath in Hm. rewrite Hm. cbn [bind]. eexists. reflexivity.
Qed.

(** X12 for [--loss=poe], with [corrupt_metrics] unbound. *)
Lemma clean_test_step_returns_witness :
  exists metrics',
    test_step_fn (with_loss loss_poe demo_flags)
      (build_metrics (with_loss loss_poe demo_flags)) None "clean"
      (Tuple ones_logits [half_weights]) zero_labels
    = Ok (metrics', None).
Proof.
  exact (clean_test_step_returns 1 2 2 (with_loss loss_poe demo_flags) None
           ones_logits [half_weights] half_weights zero_labels
           eq_refl eq_refl eq_refl ones_logits_shape half_weights_shape
           eq_refl zero_labels_in_range eq_refl).
Defined.

Section DatasetsAndMetrics.

Lemma fold_add_only {A} (g : A -> string) (xs : list A) (k : string)
  (cm : gmap string metric) :
  is_Some (fold_left (fun cm x => add_corrupt_metrics (g x) cm) xs cm !! k) ->
  is_Some (cm !! k)
  \/ exists x p,
       x ∈ xs /\ p ∈ corrupt_key_prefixes /\ k = (p ++ g x)%string.
Proof.
  revert cm. induction xs as [|x xs IH]; intros cm H; simpl in H.
  - left. exact H.
  - apply IH in H. destruct H as [H | [y [p [Hy [Hp ->]]]]].
    + apply add_corrupt_metrics_only in H.
      destruct H as [H | [p [Hp ->]]]; [left; exact H |].
      right. exists x, p. split; [left | auto].
    + right. exists y, p. split; [right; exact Hy | auto].
Qed.

Lemma nested_fold_flat {A B S} (f : S -> A -> B -> S) (xs : list A)
  (ys : list B) (s : S) :
  fold_left (fun s x => fold_left (fun s y => f s x y) ys s) xs s =
  fold_left (fun s (p : A * B) => f s p.1 p.2)
    (flat_map (fun x => map (pair x) ys) xs) s.
Proof.
  revert s. induction xs as [|x xs IH]; intros s; simpl; [reflexivity |].
  rewrite fold_left_app, <- IH.
  replace (fold_left (fun s (p : A * B) => f s p.1 p.2) (map (pair x) ys) s)
    with (fold_left (fun s y => f s x y) ys s); [reflexivity |].
  clear IH. generalize s. induction ys as [|y ys IHy]; intros s'; simpl;
    [reflexivity | apply IHy].
Qed.

End DatasetsAndMetrics.

(** X13. The two setup loops over corruption types and intensities, which
    are nested in opposite orders, agree: the keys of [corrupt_metrics] are
    exactly the six key prefixes followed by the name of a data set of
    [test_datasets] other than ['clean']. *)
Theorem corrupt_metrics_match_test_datasets (F : flags) (E : loop_env)
  (cm : gmap string metric) (k : string) :
  build_corrupt_metrics F (corruption_types E) (max_intensity E) = Some cm ->
  (is_Some (cm !! k) <->
   exists p name,
     p ∈ corrupt_key_prefixes
     /\ name ∈ map fst (test_datasets F E) /\ name <> "clean"%string
     /\ k = (p ++ name)%string).
Proof.
  intros Hcm.
  destruct (test_datasets_head F E) as [corrupted [Hds Hnames]].
  assert (Hci : (FLAGS_corruptions_interval F > 0)%Z).
  { unfold build_corrupt_metrics in Hcm. case_bool_decide; [assumption |].
    discriminate Hcm. }
  split.
  - intros Hk. unfold build_corrupt_metrics in Hcm.
    rewrite bool_decide_eq_true_2 in Hcm by exact Hci.
    injection Hcm as <-.
    rewrite (nested_fold_flat
               (fun cm intensity corruption =>
                  add_corrupt_metrics (corrupted_name corruption intensity)
                    cm)) in Hk.
    apply (fold_add_only (fun p : Z * string => corrupted_name p.2 p.1))
      in Hk.
    destruct Hk as [Hk | [[i c] [p [Hin [Hp ->]]]]].
    + rewrite lookup_empty in Hk. destruct Hk; discriminate.
    + apply list_elem_of_In, in_flat_map in Hin.
      destruct Hin as [i' [Hi' Hin]]. apply in_map_iff in Hin.
      destruct Hin as [c' [Heq Hc']]. injection Heq as -> ->.
      apply list_elem_of_In, elem_of_range in Hi'.
      apply list_elem_of_In in Hc'.
      exists p, (corrupted_name c i). cbn [fst snd].
      split; [exact Hp |]. split; [| split; [| reflexivity]].
      * rewrite Hds. cbn [map]. right. apply Hnames.
        split; [exact Hci |]. exists c, i.
        split; [exact Hc' |]. split; [lia | reflexivity].
      * apply corrupted_name_not_clean.
  - intros [p [name [Hp [Hin [Hne ->]]]]].
    rewrite Hds in Hin. cbn [map fst] in Hin.
    apply elem_of_cons in Hin. destruct Hin as [-> | Hin];
      [contradiction |].
    apply Hnames in Hin. destruct Hin as [_ [c [i [Hc [Hi ->]]]]].
    destruct (build_corrupt_metrics_keys F (corruption_types E)
                (max_intensity E) c i p Hci Hc Hi Hp) as [cm' [Hcm' Hk]].
    congruence.
Qed.

(** X13 in the sample run, for one key. *)
Lemma corrupt_metrics_match_test_datasets_witness :
  exists cm,
    build_corrupt_metrics demo_flags (corruption_types demo_env)
      (max_intensity demo_env) = Some cm
    /\ (is_Some (cm !! "test/ece_weighted_moe_brightness_2"%string) <->
        exists p name,
          p ∈ corrupt_key_prefixes
          /\ name ∈ map fst (test_datasets demo_flags demo_env)
          /\ name <> "clean"%string
          /\ "test/ece_weighted_moe_brightness_2"%string = (p ++ name)%string).
Proof.
  eexists. split; [reflexivity |].
  apply (corrupt_metrics_match_test_datasets demo_flags demo_env).
  reflexivity.
Defined.

(** ** Probabilities and losses *)

Section BigSums.
Local Open Scope R_scope.

Lemma sum_list_map_plus {A} (f g : A -> R) (xs : list A) :
  sum_list (map (fun x => f x + g x) xs) =
    sum_list (map f xs) + sum_list (map g xs).
Proof. induction xs as [|x xs IH]; simpl; [lra | rewrite IH; lra]. Qed.

Lemma sum_list_map_scale {A} (w : R) (f : A -> R) (xs : list A) :
  sum_list (map (fun x => w * f x) xs) = w * sum_list (map f xs).
Proof. induction xs as [|x xs IH]; simpl; [lra | rewrite IH; lra]. Qed.

Lemma sum_list_map_zero {A} (xs : list A) :
  sum_list (map (fun _ => 0) xs) = 0.
Proof. induction xs as [|x xs IH]; simpl; [lra | rewrite IH; lra]. Qed.

Lemma sum_list_map_swap {A B} (f : A -> B -> R) (xs : list A) (ys : list B) :
  sum_list (map (fun x => sum_list (map (f x) ys)) xs) =
  sum_list (map (fun y => sum_list (map (fun x => f x y) xs)) ys).
Proof.
  induction xs as [|x xs IH]; simpl.
  - rewrite sum_list_map_zero. reflexivity.
  - rewrite IH, <- sum_list_map_plus. reflexivity.
Qed.

Lemma big_sum_swap (n m : nat) (f : nat -> nat -> R) :
  big_sum n (fun i => big_sum m (f i)) =
  big_sum m (fun j => big_sum n (fun i => f i j)).
Proof. unfold big_sum. apply sum_list_map_swap. Qed.

Lemma big_sum_scale (n : nat) (w : R) (f : nat -> R) :
  big_sum n (fun i => w * f i) = w * big_sum n f.
Proof. unfold big_sum. apply sum_list_map_scale. Qed.



Lemma sum_exp_pos (xs : list R) : xs <> [] -> 0 < sum_list (map exp xs).
Proof.
  assert (H : forall ys, 0 <= sum_list (map exp ys)).
  { induction ys as [|y ys IH]; simpl; [lra |].
    pose proof (exp_pos y). lra. }
  destruct xs as [|x xs]; [congruence |]. intros _. simpl.
  pose proof (exp_pos x). pose proof (H xs). lra.
Qed.

(** A softmax over at least one class is a probability vector. *)
Lemma softmax1_sums_to_one (xs : list R) :
  xs <> [] -> sum_list (softmax1 xs) = 1.
Proof.
  intros Hne. pose proof (sum_exp_pos xs Hne) as Hz.
  unfold softmax1. cbv zeta.
  remember (sum_list (map exp xs)) as z eqn:Hzdef.
  rewrite (map_ext _ (fun x => / z * exp x)) by (intros; unfold Rdiv; lra).
  rewrite sum_list_map_scale, <- Hzdef. field. lra.
Qed.

End BigSums.

Section RowSums.
Local Open Scope R_scope.

Lemma length_fold_add1 (C : nat) (rows : tensor2) (acc : tensor1) :
  length acc = C -> Forall (fun row => length row = C) rows ->
  length (fold_left add1 rows acc) = C.
Proof.
  intros Hacc Hrows. revert acc Hacc.
  induction Hrows as [|row rows Hrow _ IH]; intros acc Hacc; simpl;
    [exact Hacc |].
  apply IH. rewrite length_add1; same_length.
Qed.

Lemma length_sum_rows (E C : nat) (rows : tensor2) :
  has_shape2 E C rows -> (0 < E)%nat -> length (sum_rows rows) = C.
Proof.
  intros [He Hrows] Hpos. destruct Hrows as [|row rows Hrow Hrows];
    simpl in *; [lia |].
  apply length_fold_add1; assumption.
Qed.

Lemma length_row_reduce_axis1 (B E C : nat) (t : tensor3) (b : nat) :
  has_shape3 B E C t -> (b < B)%nat -> (0 < E)%nat ->
  length (nth b (reduce_mean_axis1 t) []) = C
  /\ length (nth b (reduce_sum_axis1 t) []) = C.
Proof.
  intros [Hb Ht] Hlt Hpos.
  assert (Hs : has_shape2 E C (nth b t [])).
  { apply Forall_nth_shape; [exact Ht | lia]. }
  unfold reduce_mean_axis1, reduce_sum_axis1.
  rewrite !(nth_map' _ _ _ [] []) by lia.
  rewrite length_map. split; apply (length_sum_rows E C); assumption.
Qed.

(** The probabilities of one expert for one example sum to one. *)
Lemma softmax3_row_sum (B E C : nat) (t : tensor3) (b e : nat) :
  has_shape3 B E C t -> (b < B)%nat -> (e < E)%nat -> (0 < C)%nat ->
  big_sum C (fun c => at3 (softmax3 t) b e c) = 1.
Proof.
  intros [Hb Ht] Hlb Hle Hc.
  assert (Hs : has_shape2 E C (nth b t [])).
  { apply Forall_nth_shape; [exact Ht | lia]. }
  destruct Hs as [He Hrows].
  assert (Hrow : length (nth e (nth b t []) []) = C).
  { apply (Forall_nth_shape (fun row => length row = C));
      [exact Hrows | lia]. }
  unfold at3, at2, softmax3, softmax2.
  rewrite (nth_map' _ _ _ [] []) by lia.
  rewrite (nth_map' _ _ _ [] []) by lia.
  assert (Hlen : length (softmax1 (nth e (nth b t []) [])) = C).
  { unfold softmax1. rewrite length_map. exact Hrow. }
  rewrite <- Hlen at 1. rewrite <- sum_list_nth.
  apply softmax1_sums_to_one. intros Heq. rewrite Heq in Hrow.
  simpl in Hrow. lia.
Qed.

Lemma softmax1_pos (xs : list R) (l : nat) :
  (l < length xs)%nat -> 0 < at1 (softmax1 xs) l.
Proof.
  intros Hl. unfold at1, softmax1. cbv zeta.
  rewrite (nth_map' _ _ _ 0 0) by exact Hl.
  apply Rdiv_lt_0_compat; [apply exp_pos |].
  apply sum_exp_pos. intros Heq. rewrite Heq in Hl. simpl in Hl. lia.
Qed.




End RowSums.



(** X18. On well-shaped inputs with labels in the class range the
    evaluation results hold what training computes: for [gibbs_ce],
    [unweighted_gibbs_ce], [moe] and [unweighted_moe] the pair that
    [_process_3d_logits_train] returns is made of fields of the result of
    [_process_3d_logits_test] (which takes the routing weights first). The
    two product-of-experts losses, which training cannot compute, are
    evaluated from the combined logits. *)
Theorem test_results_match_training_losses (B E C : nat) (F : flags)
  (logits : tensor3) (routing_weights : tensor2) (labels : list nat) :
  has_shape3 B E C logits -> has_shape2 B E routing_weights ->
  length labels = B -> Forall (fun l => (l < C)%nat) labels ->
  FLAGS_num_experts F = E ->
  exists t,
    _process_3d_logits_test F routing_weights logits labels = Ok t
    /\ _process_3d_logits_train F logits routing_weights labels =
       match FLAGS_loss F with
       | loss_gibbs_ce => Ok (t_weighted_probs t, t_weighted_gibbs_ce t)
       | loss_unweighted_gibbs_ce =>
           Ok (t_unweighted_probs t, t_unweighted_gibbs_ce t)
       | loss_moe => Ok (t_weighted_probs t, nll_moe t)
       | loss_unweighted_moe => Ok (t_unweighted_probs t, nll_unweighted_moe t)
       | loss_poe | loss_unweighted_poe =>
           Raise (AttributeError "tensorflow" "softmax")
       end
    /\ nll_poe t =
         reduce_mean1 (zip_with (scce_row true) labels (t_weighted_logits t))
    /\ nll_unweighted_poe t =
         reduce_mean1
           (zip_with (scce_row true) labels (t_unweighted_logits t)).
Proof.
  intros Hlogits Hweights Hlabels Hrange Hexperts.
  pose proof (softmax3_shape B E C logits Hlogits) as Hprobs.
  unfold _process_3d_logits_test, _process_3d_logits_train.
  rewrite (process_3d_logits_ok B E C) by assumption. cbn [bind].
  cbn [weighted_logits unweighted_logits weighted_probs unweighted_probs
       weighted_gibbs_ce unweighted_gibbs_ce].
  rewrite (scce_1_2_ok true).
  2:{ rewrite (proj1 (length_reduce_axis1 B E C _
                 (scaled_shape B E C _ _ Hweights Hlogits))). exact Hlabels. }
  cbn [bind]. rewrite (scce_1_2_ok true).
  2:{ rewrite (proj1 (length_reduce_axis1 B E C _ Hlogits)). exact Hlabels. }
  cbn [bind]. rewrite (scce_1_2_ok false).
  2:{ rewrite (proj2 (length_reduce_axis1 B E C _
                 (scaled_shape B E C _ _ Hweights Hprobs))). exact Hlabels. }
  cbn [bind]. rewrite (scce_1_2_ok false).
  2:{ rewrite (proj1 (length_reduce_axis1 B E C _ Hprobs)). exact Hlabels. }
  cbn [bind]. eexists. split; [reflexivity |].
  cbn [t_weighted_probs t_unweighted_probs t_weighted_gibbs_ce
       t_unweighted_gibbs_ce nll_moe nll_unweighted_moe nll_poe
       nll_unweighted_poe t_weighted_logits t_unweighted_logits].
  split; [| split; reflexivity].
  destruct (FLAGS_loss F); reflexivity.
Qed.

(** X18 for [--loss=moe] on the sample input. *)
Lemma test_results_match_training_losses_witness :
  exists t,
    _process_3d_logits_test (with_loss loss_moe demo_flags) half_weights
      mixed_logits zero_labels = Ok t
    /\ _process_3d_logits_train (with_loss loss_moe demo_flags) mixed_logits
         half_weights zero_labels
       = Ok (t_weighted_probs t, nll_moe t)
    /\ nll_poe t =
         reduce_mean1
           (zip_with (scce_row true) zero_labels (t_weighted_logits t))
    /\ nll_unweighted_poe t =
         reduce_mean1
           (zip_with (scce_row true) zero_labels (t_unweighted_logits t)).
Proof.
  apply (test_results_match_training_losses 1 2 2
           (with_loss loss_moe demo_flags) mixed_logits half_weights
           zero_labels).
  - split; [reflexivity |]. repeat constructor.
  - exact half_weights_shape.
  - reflexivity.
  - exact zero_labels_in_range.
  - reflexivity.
Defined.

Section ExpertCountMismatch.

Lemma traverse_first_raises {A B} (f : A -> result B) (x : A) (xs : list A)
  (e : exn) :
  f x = Raise e -> traverse f (x :: xs) = Raise e.
Proof. intros H. simpl. rewrite H. reflexivity. Qed.

End ExpertCountMismatch.

(** X19. When [FLAGS.num_experts] differs from the number of experts in
    the model's output, on a non-empty batch, the tiled labels do not fit
    the logits and [_process_3d_logits], and with it the training and the
    evaluation variant, raises the framework's shape error. *)
Theorem num_experts_flag_mismatch (B E C : nat) (F : flags)
  (logits : tensor3) (routing_weights : tensor2) (labels : list nat) :
  has_shape3 B E C logits -> has_shape2 B E routing_weights ->
  length labels = B -> (0 < B)%nat ->
  FLAGS_num_experts F <> E ->
  _process_3d_logits F logits routing_weights labels = Raise ShapeError
  /\ _process_3d_logits_train F logits routing_weights labels
     = Raise ShapeError
  /\ _process_3d_logits_test F routing_weights logits labels
     = Raise ShapeError.
Proof.
  intros Hlogits Hweights Hlabels HB Hne.
  pose proof (softmax3_shape B E C logits Hlogits) as Hprobs.
  assert (H : _process_3d_logits F logits routing_weights labels
              = Raise ShapeError).
  { unfold _process_3d_logits.
    rewrite (mul3_expand B E C) by assumption. cbn [bind].
    rewrite (mul3_expand B E C) by assumption. cbn [bind].
    unfold scce_2_3, zip_exact, tile_labels. rewrite length_map.
    destruct Hlogits as [Hb Ht].
    replace (length labels =? length logits)%nat with true
      by (symmetry; apply Nat.eqb_eq; lia).
    destruct labels as [|l labels]; [simpl in Hlabels; lia |].
    destruct Ht as [|rows t' [He _] _]; [simpl in Hb; lia |].
    cbn [map zip zip_with]. 
    rewrite (traverse_first_raises _ _ _ ShapeError); [reflexivity |].
    cbn [fst snd]. unfold scce_1_2, zip_exact. rewrite repeat_length.
    replace (FLAGS_num_experts F =? length rows)%nat with false;
      [reflexivity |].
    symmetry. apply Nat.eqb_neq. lia. }
  split; [exact H |].
  unfold _process_3d_logits_train, _process_3d_logits_test.
  rewrite H. split; reflexivity.
Qed.

(** X19: the default [num_experts] of 4 on a model with 2 experts. *)
Lemma num_experts_flag_mismatch_witness :
  _process_3d_logits default_flags ones_logits half_weights zero_labels
    = Raise ShapeError
  /\ _process_3d_logits_train default_flags ones_logits half_weights
       zero_labels = Raise ShapeError
  /\ _process_3d_logits_test default_flags half_weights ones_logits
       zero_labels = Raise ShapeError.
Proof.
  apply (num_experts_flag_mismatch 1 2 2 default_flags ones_logits
           half_weights zero_labels).
  - exact ones_logits_shape.
  - exact half_weights_shape.
  - reflexivity.
  - lia.
  - simpl. lia.
Defined.

Section Jensen.
Local Open Scope R_scope.

Lemma ln_tangent (p m : R) : 0 < p -> 0 < m -> ln p <= ln m + p / m - 1.
Proof.
  intros Hp Hm.
  assert (Hq : 0 < p / m) by (apply Rdiv_lt_0_compat; assumption).
  pose proof (exp_ineq1_le (ln (p / m))) as H.
  rewrite exp_ln in H by exact Hq.
  unfold Rdiv in H at 1. rewrite ln_mult in H by
    (try assumption; apply Rinv_0_lt_compat; assumption).
  rewrite ln_Rinv in H by assumption. lra.
Qed.

Lemma weighted_sum_nonneg (ws ps : list R) :
  Forall (fun w => 0 <= w) ws -> Forall (fun p => 0 < p) ps ->
  0 <= sum_list (zip_with Rmult ws ps).
Proof.
  intros Hw. revert ps. induction Hw as [|w ws Hw0 _ IH]; intros ps Hp.
  - simpl. lra.
  - destruct Hp as [|p ps Hp0 Hp]; simpl; [lra |].
    pose proof (IH ps Hp). nra.
Qed.

Lemma weighted_sum_pos (ws ps : list R) :
  length ws = length ps ->
  Forall (fun w => 0 <= w) ws -> Forall (fun p => 0 < p) ps ->
  0 < sum_list ws -> 0 < sum_list (zip_with Rmult ws ps).
Proof.
  intros Hlen Hw. revert ps Hlen.
  induction Hw as [|w ws Hw0 Hw IH]; intros ps Hlen Hp Hsum.
  - simpl in Hsum. lra.
  - destruct Hp as [|p ps Hp0 Hp]; [discriminate Hlen |]. simpl in *.
    pose proof (weighted_sum_nonneg ws ps Hw Hp) as Hnn.
    destruct (Rle_lt_or_eq_dec 0 w Hw0) as [Hpos | <-].
    + nra.
    + rewrite Rmult_0_l, Rplus_0_l. apply IH; [lia | exact Hp | lra].
Qed.

Lemma weighted_ln_bound (m : R) (ws ps : list R) :
  0 < m -> length ws = length ps ->
  Forall (fun w => 0 <= w) ws -> Forall (fun p => 0 < p) ps ->
  sum_list (zip_with (fun w p => w * ln p) ws ps)
  <= (ln m - 1) * sum_list ws + sum_list (zip_with Rmult ws ps) / m.
Proof.
  intros Hm Hlen Hw. revert ps Hlen.
  induction Hw as [|w ws Hw0 Hw IH]; intros ps Hlen Hp.
  - simpl. lra.
  - destruct Hp as [|p ps Hp0 Hp]; [discriminate Hlen |]. simpl in *.
    assert (Hlen' : length ws = length ps) by lia.
    pose proof (IH ps Hlen' Hp) as Hrest.
    pose proof (ln_tangent p m Hp0 Hm) as Htan.
    assert (Hstep : w * ln p <= w * (ln m + p / m - 1)) by nra.
    replace ((w * p + sum_list (zip_with Rmult ws ps)) / m)
      with (w * (p / m) + sum_list (zip_with Rmult ws ps) / m)
      by (field; lra).
    lra.
Qed.

(** Jensen's inequality for the logarithm. *)
Lemma jensen_ln (ws ps : list R) :
  length ws = length ps ->
  Forall (fun w => 0 <= w) ws -> Forall (fun p => 0 < p) ps ->
  sum_list ws = 1 ->
  sum_list (zip_with (fun w p => w * ln p) ws ps)
  <= ln (sum_list (zip_with Rmult ws ps)).
Proof.
  intros Hlen Hw Hp Hsum.
  assert (Hm : 0 < sum_list (zip_with Rmult ws ps))
    by (apply weighted_sum_pos; try assumption; lra).
  pose proof (weighted_ln_bound _ ws ps Hm Hlen Hw Hp) as H.
  rewrite Hsum in H.
  replace (sum_list (zip_with Rmult ws ps) / sum_list (zip_with Rmult ws ps))
    with 1 in H by (field; lra).
  lra.
Qed.

End Jensen.

Section MixtureBelowGibbs.
Local Open Scope R_scope.

Lemma epsilon_pos : 0 < epsilon.
Proof. unfold epsilon. apply Rinv_0_lt_compat. lra. Qed.

Lemma clip_in_range (p : R) :
  epsilon <= p <= 1 - epsilon -> clip_by_value p epsilon (1 - epsilon) = p.
Proof.
  intros Hp. unfold clip_by_value, Rmin, Rmax.
  repeat destruct Rle_dec; lra.
Qed.

(** On probabilities that sum to one and are not clipped, the route of
    Keras through logarithms and softmax gives the probabilities back. *)
Lemma softmax1_of_ln_probs (row : list R) :
  Forall (fun p => epsilon <= p <= 1 - epsilon) row ->
  sum_list row = 1 ->
  softmax1 (map (fun p => ln (clip_by_value p epsilon (1 - epsilon))) row)
  = row.
Proof.
  intros Hrange Hsum. pose proof epsilon_pos as Heps.
  unfold softmax1. cbv zeta. rewrite !map_map.
  assert (Hexp : map (fun p => exp (ln (clip_by_value p epsilon
                                          (1 - epsilon)))) row = row).
  { rewrite <- (map_id row) at 2. apply map_ext_Forall.
    eapply Forall_impl; [exact Hrange |]. intros p Hp. cbv beta.
    rewrite clip_in_range by exact Hp. apply exp_ln. lra. }
  rewrite Hexp, Hsum.
  rewrite <- (map_id row) at 2. apply map_ext_Forall.
  eapply Forall_impl; [exact Hrange |]. intros p Hp. cbv beta.
  rewrite clip_in_range by exact Hp. rewrite exp_ln by lra. lra.
Qed.

Lemma sum_weighted_nll (f : list R -> R) (ws : list R) (rows : list (list R)) :
  sum_list (zip_with Rmult ws (map (fun lg => - ln (f lg)) rows))
  = - sum_list (zip_with (fun w p => w * ln p) ws (map f rows)).
Proof.
  revert rows. induction ws as [|w ws IH]; intros [|lg rows]; simpl;
    try lra.
  rewrite IH. lra.
Qed.

Lemma reduce_mean1_le (xs ys : list R) :
  length xs = length ys ->
  (forall b, (b < length xs)%nat -> at1 xs b <= at1 ys b) ->
  reduce_mean1 xs <= reduce_mean1 ys.
Proof.
  intros Hlen Hle. unfold reduce_mean1. rewrite <- Hlen.
  assert (Hsum : sum_list xs <= sum_list ys).
  { revert ys Hlen Hle. induction xs as [|x xs IH]; intros [|y ys] Hlen Hle;
      simpl in *; try discriminate; [lra |].
    pose proof (Hle 0%nat ltac:(lia)) as H0. cbv [at1 nth] in H0.
    assert (sum_list xs <= sum_list ys).
    { apply IH; [lia |]. intros b Hb. apply (Hle (S b)). lia. }
    lra. }
  destruct xs as [|x xs].
  - destruct ys; [| discriminate]. simpl. lra.
  - apply Rmult_le_compat_r; [| exact Hsum].
    apply Rlt_le, Rinv_0_lt_compat, lt_0_INR. simpl. lia.
Qed.

Variables (B E C : nat) (logits : tensor3) (routing_weights : tensor2)
  (labels : list nat).
Hypothesis Hlogits : has_shape3 B E C logits.
Hypothesis Hweights : has_shape2 B E routing_weights.
Hypothesis Hlabels : length labels = B.
Hypothesis Hrange : Forall (fun l => (l < C)%nat) labels.
Hypothesis Hnorm :
  Forall (fun row => Forall (fun w => 0 <= w) row /\ sum_list row = 1)
    routing_weights.

Let scaled :=
  zip_with (zip_with (fun (w : R) row => map (Rmult w) row)) routing_weights
    (softmax3 logits).
Let nll := zip_with (fun l rows => map (sparse_xent l) rows) labels logits.

(** Row [b] of [weighted_probs] sums to the sum of the routing weights. *)
Lemma weighted_probs_row_sum (b : nat) :
  (b < B)%nat -> (0 < E)%nat -> (0 < C)%nat ->
  sum_list (nth b (reduce_sum_axis1 scaled) [])
  = sum_list (nth b routing_weights []).
Proof.
  intros Hb HE HC.
  pose proof (softmax3_shape B E C logits Hlogits) as Hprobs.
  pose proof (scaled_shape B E C _ _ Hweights Hprobs) as Hscaled.
  fold scaled in Hscaled. rewrite sum_list_nth.
  rewrite (proj2 (length_row_reduce_axis1 B E C _ b Hscaled Hb HE)).
  change (at1 (nth b (reduce_sum_axis1 scaled) []))
    with (at2 (reduce_sum_axis1 scaled) b).
  rewrite (big_sum_ext C _
             (fun c => big_sum E
                (fun e => at2 routing_weights b e
                          * at3 (softmax3 logits) b e c))).
  2:{ intros c _. rewrite (at2_reduce_sum_axis1 B E C) by assumption.
      apply big_sum_ext. intros e He.
      apply (at3_scaled B E C); assumption. }
  rewrite big_sum_swap.
  rewrite (big_sum_ext E _ (fun e => at2 routing_weights b e)).
  2:{ intros e He. rewrite big_sum_scale.
      rewrite (softmax3_row_sum B E C) by assumption. lra. }
  rewrite sum_list_nth. destruct Hweights as [Hwb Hw].
  rewrite (Forall_nth_shape (fun row => length row = E) routing_weights b []
             Hw) by lia.
  reflexivity.
Qed.

(** One example: the loss of the mixture is at most the weighted sum of
    the losses of the experts. *)
Lemma example_mixture_below_gibbs (b : nat) :
  (b < B)%nat ->
  Forall (fun p => epsilon <= p <= 1 - epsilon)
    (nth b (reduce_sum_axis1 scaled) []) ->
  scce_row false (nth b labels 0%nat) (nth b (reduce_sum_axis1 scaled) [])
  <= sum_list (nth b (zip_with (zip_with Rmult) routing_weights nll) []).
Proof.
  intros Hb Hclip.
  pose proof (softmax3_shape B E C logits Hlogits) as Hprobs.
  pose proof (scaled_shape B E C _ _ Hweights Hprobs) as Hscaled.
  fold scaled in Hscaled.
  destruct Hlogits as [HlB Hl]. destruct Hweights as [HwB Hw].
  set (l := nth b labels 0%nat).
  set (ws := nth b routing_weights []).
  set (rows := nth b logits []).
  assert (Hl_lt : (l < C)%nat).
  { apply (Forall_nth_shape (fun l => (l < C)%nat)); [exact Hrange | lia]. }
  assert (Hws : length ws = E).
  { apply (Forall_nth_shape (fun row => length row = E)); [exact Hw | lia]. }
  assert (Hrows : has_shape2 E C rows).
  { apply Forall_nth_shape; [exact Hl | lia]. }
  assert (Hbw : (b < length routing_weights)%nat) by lia.
  destruct (Forall_nth_shape _ routing_weights b [] Hnorm Hbw)
    as [Hnonneg Hone]. fold ws in Hnonneg, Hone.
  assert (HE : (0 < E)%nat).
  { destruct E; [| lia]. destruct ws; [| discriminate Hws].
    simpl in Hone. lra. }
  assert (HC : (0 < C)%nat) by lia.
  set (ps := map (fun lg => at1 (softmax1 lg) l) rows).
  assert (Hps : Forall (fun p => 0 < p) ps).
  { unfold ps. apply Forall_map. destruct Hrows as [_ Hr].
    eapply Forall_impl; [exact Hr |]. intros lg Hlg. cbv beta in Hlg |- *.
    apply softmax1_pos. lia. }
  assert (Hlen : length ws = length ps).
  { unfold ps. rewrite length_map. destruct Hrows as [-> _]. exact Hws. }
  (* the right-hand side *)
  rewrite (nth_zip_with _ _ _ _ [] [] [])
    by (unfold nll; rewrite ?length_zip_with; lia).
  unfold nll. rewrite (nth_zip_with _ _ _ _ 0%nat [] []) by lia.
  fold l ws rows. unfold sparse_xent.
  rewrite (sum_weighted_nll (fun lg => nth l (softmax1 lg) 0)).
  change (map (fun lg => nth l (softmax1 lg) 0) rows) with ps.
  (* the left-hand side *)
  unfold scce_row, sparse_xent.
  rewrite softmax1_of_ln_probs;
    [| exact Hclip
     | rewrite weighted_probs_row_sum by assumption; exact Hone].
  change (nth l (nth b (reduce_sum_axis1 scaled) []) 0)
    with (at2 (reduce_sum_axis1 scaled) b l).
  rewrite (at2_reduce_sum_axis1 B E C) by assumption.
  rewrite (big_sum_ext E _ (fun e => at1 ws e * at1 ps e)).
  2:{ intros e He. unfold scaled.
      rewrite (at3_scaled B E C) by assumption.
      unfold at2 at 1. fold ws. f_equal.
      unfold at3, at2, softmax3, softmax2.
      rewrite (nth_map' _ _ _ [] []) by lia. fold rows.
      destruct Hrows as [HrE _].
      rewrite (nth_map' _ _ _ [] []) by lia.
      unfold ps, at1 at 2.
      rewrite (nth_map' _ _ _ [] 0) by lia. reflexivity. }
  rewrite <- (sum_zip_with_mul E) by (try exact Hws; lia).
  pose proof (jensen_ln ws ps Hlen Hnonneg Hps Hone). lra.
Qed.

End MixtureBelowGibbs.

Section MixtureBelowGibbsSample.
Local Open Scope R_scope.

Lemma epsilon_small : 0 < epsilon < 1 / 4.
Proof.
  unfold epsilon. split.
  - apply Rinv_0_lt_compat. lra.
  - apply (Rmult_lt_reg_l (10 ^ 7)); [lra |].
    rewrite Rinv_r by lra. lra.
Qed.

Lemma mixed_weighted_probs :
  reduce_sum_axis1
    (zip_with (zip_with (fun (w : R) row => map (Rmult w) row)) half_weights
       (softmax3 mixed_logits))
  = [[5 / 8; 3 / 8]].
Proof.
  cbv [softmax3 softmax2 mixed_logits map].
  rewrite softmax1_even, softmax1_skewed.
  cbv [half_weights zip_with map reduce_sum_axis1 sum_rows fold_left add1].
  replace (1 / 2 * (1 / 2) + 1 / 2 * (3 / 4)) with (5 / 8) by lra.
  replace (1 / 2 * (1 / 2) + 1 / 2 * (1 / 4)) with (3 / 8) by lra.
  reflexivity.
Qed.

End MixtureBelowGibbsSample.

(** X28. With labels in range and routing weights that are non-negative
    and sum to one for each example, the mixture-of-experts loss [nll_moe]
    is at most the routing-weighted Gibbs cross-entropy, provided no
    combined probability falls outside the range [[epsilon, 1 - epsilon]]
    to which Keras clips (Jensen's inequality for the logarithm). *)
Theorem moe_loss_below_gibbs_loss (B E C : nat) (F : flags)
  (logits : tensor3) (routing_weights : tensor2) (labels : list nat) :
  has_shape3 B E C logits -> has_shape2 B E routing_weights ->
  length labels = B -> FLAGS_num_experts F = E ->
  Forall (fun l => l < C) labels ->
  Forall (fun row => Forall (fun w => (0 <= w)%R) row /\ sum_list row = 1%R)
    routing_weights ->
  exists t,
    _process_3d_logits_test F routing_weights logits labels = Ok t
    /\ (Forall (Forall (fun p => (epsilon <= p <= 1 - epsilon)%R))
          (t_weighted_probs t) ->
        (nll_moe t <= t_weighted_gibbs_ce t)%R).
Proof.
  intros Hlogits Hweights Hlabels Hexperts Hrange Hnorm.
  pose proof (softmax3_shape B E C logits Hlogits) as Hprobs.
  pose proof (scaled_shape B E C _ _ Hweights Hprobs) as Hscaled.
  unfold _process_3d_logits_test.
  rewrite (process_3d_logits_ok B E C) by assumption. cbn [bind].
  cbn [weighted_logits unweighted_logits weighted_probs unweighted_probs
       weighted_gibbs_ce unweighted_gibbs_ce].
  rewrite (scce_1_2_ok true).
  2:{ rewrite (proj1 (length_reduce_axis1 B E C _
                 (scaled_shape B E C _ _ Hweights Hlogits))). exact Hlabels. }
  cbn [bind]. rewrite (scce_1_2_ok true).
  2:{ rewrite (proj1 (length_reduce_axis1 B E C _ Hlogits)). exact Hlabels. }
  cbn [bind]. rewrite (scce_1_2_ok false).
  2:{ rewrite (proj2 (length_reduce_axis1 B E C _ Hscaled)). exact Hlabels. }
  cbn [bind]. rewrite (scce_1_2_ok false).
  2:{ rewrite (proj1 (length_reduce_axis1 B E C _ Hprobs)). exact Hlabels. }
  cbn [bind]. eexists. split; [reflexivity |].
  cbn [t_weighted_probs nll_moe t_weighted_gibbs_ce]. intros Hclip.
  pose proof (proj2 (length_reduce_axis1 B E C _ Hscaled)) as Hwp.
  pose proof (nll_shape B E C labels logits Hlabels Hlogits) as Hnll.
  pose proof (mul_shape B E _ _ Hweights Hnll) as [Hmul _].
  apply reduce_mean1_le.
  - unfold reduce_sum_rows. rewrite length_zip_with, length_map. lia.
  - intros b Hb. rewrite length_zip_with in Hb.
    assert (HbB : b < B) by lia.
    unfold at1, reduce_sum_rows.
    rewrite (nth_zip_with _ _ _ _ 0 [] 0%R) by lia.
    rewrite (nth_map' _ _ _ [] 0%R) by lia.
    apply (example_mixture_below_gibbs B E C); try assumption.
    apply (Forall_nth_shape _ _ b [] Hclip). lia.
Qed.

(** X28 on the sample input: combined probabilities 5/8 and 3/8. *)
Lemma moe_loss_below_gibbs_loss_witness :
  exists t,
    _process_3d_logits_test demo_flags half_weights mixed_logits zero_labels
      = Ok t
    /\ (nll_moe t <= t_weighted_gibbs_ce t)%R.
Proof.
  destruct (moe_loss_below_gibbs_loss 1 2 2 demo_flags mixed_logits
              half_weights zero_labels)
    as [t [Ht Hle]].
  - split; [reflexivity |]. repeat constructor.
  - exact half_weights_shape.
  - reflexivity.
  - reflexivity.
  - repeat constructor.
  - repeat constructor; cbv [half_weights sum_list]; lra.
  - exists t. split; [exact Ht |]. apply Hle.
    assert (Hrun :
      exists t',
        _process_3d_logits_test demo_flags half_weights mixed_logits
          zero_labels = Ok t'
        /\ t_weighted_probs t' =
             reduce_sum_axis1
               (zip_with (zip_with (fun (w : R) row => map (Rmult w) row))
                  half_weights (softmax3 mixed_logits)))
      by (eexists; split; reflexivity).
    destruct Hrun as [t' [Ht' Hw']]. rewrite Ht in Ht'.
    injection Ht' as <-. rewrite Hw', mixed_weighted_probs.
    pose proof epsilon_small.
    repeat constructor; lra.
Defined.

(** ** Checkpoint directories *)

Section ParseCheckpointDir.

Variable fs : checkpoint_fs.

Lemma any_checkpoint_spec (files : list string) :
  any_checkpoint files = true <->
  exists f, f ∈ files /\ is_checkpoint f = true.
Proof.
  unfold any_checkpoint. rewrite existsb_exists. split.
  - intros [f [Hin _]]. apply filter_In in Hin. destruct Hin as [Hin Hf].
    exists f. split; [apply list_elem_of_In; exact Hin | exact Hf].
  - intros [f [Hin Hf]]. exists f. split.
    + apply filter_In. split; [apply list_elem_of_In; exact Hin | exact Hf].
    + apply negb_true_iff, bool_decide_eq_false. intros ->.
      discriminate Hf.
Qed.

Lemma first_checkpoint_some
  (walked : list (string * list string * list string)) (path : string)
  (latest : option string) :
  first_checkpoint fs walked = Some (path, latest) ->
  latest = fs_latest_checkpoint fs path
  /\ exists before dirs files after,
       walked = before ++ (path, dirs, files) :: after
       /\ any_checkpoint files = true
       /\ Forall (fun entry => any_checkpoint entry.2 = false) before.
Proof.
  induction walked as [|[[p ds] fl] walked IH]; simpl; [discriminate |].
  destruct (any_checkpoint fl) eqn:Hany.
  - intros Heq. injection Heq as -> <-. split; [reflexivity |].
    exists [], ds, fl, walked. split; [reflexivity |].
    split; [exact Hany | constructor].
  - intros H. destruct (IH H) as [Hl (before & dirs & files & after & -> & Hf
                                        & Hall)].
    split; [exact Hl |].
    exists ((p, ds, fl) :: before), dirs, files, after.
    split; [reflexivity |]. split; [exact Hf |].
    constructor; [exact Hany | exact Hall].
Qed.

Lemma first_checkpoint_none
  (walked : list (string * list string * list string)) :
  first_checkpoint fs walked = None <->
  Forall (fun entry => any_checkpoint entry.2 = false) walked.
Proof.
  induction walked as [|[[p ds] fl] walked IH]; simpl.
  - split; [constructor | reflexivity].
  - rewrite Forall_cons. cbn [snd]. destruct (any_checkpoint fl).
    + split; [discriminate | intros [H _]; discriminate H].
    + rewrite IH. tauto.
Qed.

(** The loop, with the paths collected so far. *)
Lemma parse_subdirectories_spec (subdirectories : list string)
  (paths : list string) :
  parse_subdirectories fs subdirectories paths =
    match List.find (breaks_join fs) subdirectories with
    | Some subdir =>
        match found fs subdir with
        | Some (path, _) => JoinTypeError path
        | None => Paths []
        end
    | None => Paths (paths ++ omap (joined_path fs) subdirectories)
    end.
Proof.
  revert paths.
  induction subdirectories as [|subdir rest IH]; intros paths; simpl.
  - rewrite app_nil_r. reflexivity.
  - unfold breaks_join at 1, joined_path at 1, found.
    destruct (first_checkpoint fs (fs_walk fs subdir))
      as [[path [latest |]] |] eqn:Hfound.
    + rewrite IH. destruct (List.find (breaks_join fs) rest);
        [reflexivity |].
      rewrite <- app_assoc. reflexivity.
    + unfold found. rewrite Hfound. reflexivity.
    + apply IH.
Qed.

End ParseCheckpointDir.

Section FirstIndexDirectory.

Variable fs : checkpoint_fs.

Lemma any_checkpoint_false (files : list string) :
  any_checkpoint files = false <->
  forall f, f ∈ files -> is_checkpoint f = false.
Proof.
  split.
  - intros Hany f Hf. destruct (is_checkpoint f) eqn:Hck; [| reflexivity].
    assert (H : any_checkpoint files = true)
      by (apply any_checkpoint_spec; eauto).
    congruence.
  - intros Hall. destruct (any_checkpoint files) eqn:Hany; [| reflexivity].
    apply any_checkpoint_spec in Hany. destruct Hany as [f [Hf Hck]].
    rewrite (Hall f Hf) in Hck. discriminate Hck.
Qed.

(** The inner loop stops at the first walked directory that holds an
    index file. *)
Lemma first_checkpoint_split
  (before after : list (string * list string * list string))
  (path : string) (dirs files : list string) :
  Forall (fun entry => forall f, f ∈ entry.2 -> is_checkpoint f = false)
    before ->
  (exists f, f ∈ files /\ is_checkpoint f = true) ->
  first_checkpoint fs (before ++ (path, dirs, files) :: after)
  = Some (path, fs_latest_checkpoint fs path).
Proof.
  intros Hbefore Hfile.
  induction Hbefore as [|[[p ds] fl] before Hnone _ IH]; simpl.
  - rewrite (proj2 (any_checkpoint_spec files) Hfile). reflexivity.
  - cbn [snd] in Hnone.
    rewrite (proj2 (any_checkpoint_false fl) Hnone). exact IH.
Qed.

Lemma found_some (subdir path : string) (latest : option string) :
  found fs subdir = Some (path, latest) <->
  exists before dirs files after,
    fs_walk fs subdir = before ++ (path, dirs, files) :: after
    /\ Forall (fun entry => forall f, f ∈ entry.2 -> is_checkpoint f = false)
         before
    /\ (exists f, f ∈ files /\ is_checkpoint f = true)
    /\ latest = fs_latest_checkpoint fs path.
Proof.
  unfold found. split.
  - intros H. apply first_checkpoint_some in H.
    destruct H as [Hl (before & dirs & files & after & Hw & Hany & Hall)].
    exists before, dirs, files, after. split; [exact Hw |].
    split; [| split; [apply any_checkpoint_spec, Hany | exact Hl]].
    eapply Forall_impl; [exact Hall |]. intros entry Hentry.
    apply any_checkpoint_false, Hentry.
  - intros (before & dirs & files & after & Hw & Hall & Hfile & ->).
    rewrite Hw. apply first_checkpoint_split; assumption.
Qed.

Lemma found_none (subdir : string) :
  found fs subdir = None <->
  Forall (fun entry => forall f, f ∈ entry.2 -> is_checkpoint f = false)
    (fs_walk fs subdir).
Proof.
  unfold found. rewrite first_checkpoint_none. split; intros H;
    (eapply Forall_impl; [exact H |]); intros entry Hentry;
    apply any_checkpoint_false, Hentry.
Qed.

End FirstIndexDirectory.

(** X22. When [parse_checkpoint_dir] returns, each globbed subdirectory
    has contributed, in glob order, one path or none. It contributes none
    when no walked directory holds a file whose name contains both
    ['checkpoint'] and ['.index']. Otherwise it contributes the latest
    checkpoint, joined to its directory, of the first such directory in
    walk order: no directory walked before it holds such a file. *)
Theorem parse_checkpoint_dir_paths (fs : checkpoint_fs)
  (checkpoint_dir : string) (paths : list string) :
  parse_checkpoint_dir fs checkpoint_dir = Paths paths ->
  exists contributions : list (option string),
    paths = omap (fun c : option string => c) contributions
    /\ Forall2
         (fun subdir contribution =>
            match contribution with
            | Some p =>
                exists before path dirs files after latest,
                  fs_walk fs subdir = before ++ (path, dirs, files) :: after
                  /\ Forall (fun entry =>
                       forall f, f ∈ entry.2 -> is_checkpoint f = false)
                       before
                  /\ (exists f, f ∈ files /\ is_checkpoint f = true)
                  /\ fs_latest_checkpoint fs path = Some latest
                  /\ p = os_path_join path latest
            | None =>
                Forall (fun entry =>
                  forall f, f ∈ entry.2 -> is_checkpoint f = false)
                  (fs_walk fs subdir)
            end)
         (fs_glob fs checkpoint_dir) contributions.
Proof.
  unfold parse_checkpoint_dir. rewrite parse_subdirectories_spec.
  destruct (List.find (breaks_join fs) (fs_glob fs checkpoint_dir))
    as [subdir |] eqn:Hfind.
  - apply find_some in Hfind. destruct Hfind as [_ Hbreak].
    unfold breaks_join in Hbreak.
    destruct (found fs subdir) as [[path [l |]] |]; discriminate.
  - cbn [app]. intros Heq. injection Heq as <-.
    assert (Hnone : forall s, s ∈ fs_glob fs checkpoint_dir ->
                      breaks_join fs s = false).
    { intros s Hs. destruct (breaks_join fs s) eqn:Hb; [| reflexivity].
      apply list_elem_of_In in Hs.
      pose proof (find_none _ _ Hfind s Hs) as Hf. congruence. }
    clear Hfind. revert Hnone.
    generalize (fs_glob fs checkpoint_dir). intros subs Hnone.
    exists (map (joined_path fs) subs). split.
    + induction subs as [|s subs IH]; [reflexivity |].
      cbn [map]. 
      change (omap (joined_path fs) (s :: subs))
        with (match joined_path fs s with
              | Some p => p :: omap (joined_path fs) subs
              | None => omap (joined_path fs) subs
              end).
      change (omap (fun c : option string => c)
                (joined_path fs s :: map (joined_path fs) subs))
        with (match joined_path fs s with
              | Some p =>
                  p :: omap (fun c : option string => c)
                         (map (joined_path fs) subs)
              | None =>
                  omap (fun c : option string => c)
                    (map (joined_path fs) subs)
              end).
      rewrite IH by (intros s' Hs'; apply Hnone; right; exact Hs').
      reflexivity.
    + apply Forall2_fmap_r, Forall_Forall2_diag, Forall_forall.
      intros s Hs. pose proof (Hnone s Hs) as Hb.
      unfold breaks_join in Hb. unfold compose, joined_path. cbv beta.
      destruct (found fs s) as [[path [latest |]] |] eqn:Hfound;
        [| discriminate Hb |].
      * apply found_some in Hfound.
        destruct Hfound as (before & dirs & files & after & Hw & Hall & Hf
                            & Hl).
        exists before, path, dirs, files, after, latest. auto.
      * apply found_none, Hfound.
Qed.

(** X22 on the sample tree: of two checkpoint directories the first. *)
Lemma parse_checkpoint_dir_paths_witness :
  exists contributions : list (option string),
    ["/runs/a/ckpt/checkpoint-3"]%string
    = omap (fun c : option string => c) contributions
    /\ Forall2
         (fun subdir contribution =>
            match contribution with
            | Some p =>
                exists before path dirs files after latest,
                  fs_walk demo_checkpoint_fs subdir
                  = before ++ (path, dirs, files) :: after
                  /\ Forall (fun entry =>
                       forall f, f ∈ entry.2 -> is_checkpoint f = false)
                       before
                  /\ (exists f, f ∈ files /\ is_checkpoint f = true)
                  /\ fs_latest_checkpoint demo_checkpoint_fs path
                     = Some latest
                  /\ p = os_path_join path latest
            | None =>
                Forall (fun entry =>
                  forall f, f ∈ entry.2 -> is_checkpoint f = false)
                  (fs_walk demo_checkpoint_fs subdir)
            end)
         (fs_glob demo_checkpoint_fs "/runs/*") contributions.
Proof.
  apply (parse_checkpoint_dir_paths demo_checkpoint_fs "/runs/*").
  reflexivity.
Defined.

(** X23. [parse_checkpoint_dir] fails in [os.path.join], for the directory
    [path], exactly when some globbed subdirectory has [path] as its first
    walked directory with a checkpoint index file (no directory walked
    before it holds one), [tf.train.latest_checkpoint] finds nothing in
    [path], and in every earlier globbed subdirectory the first directory
    with an index file, if there is one, has a latest checkpoint. *)
Theorem parse_checkpoint_dir_type_error (fs : checkpoint_fs)
  (checkpoint_dir path : string) :
  parse_checkpoint_dir fs checkpoint_dir = JoinTypeError path <->
  exists earlier subdir later before dirs files after,
    fs_glob fs checkpoint_dir = earlier ++ subdir :: later
    /\ Forall
         (fun s =>
            forall before' path' dirs' files' after',
              fs_walk fs s = before' ++ (path', dirs', files') :: after' ->
              Forall (fun entry =>
                forall f, f ∈ entry.2 -> is_checkpoint f = false) before' ->
              (exists f, f ∈ files' /\ is_checkpoint f = true) ->
              is_Some (fs_latest_checkpoint fs path'))
         earlier
    /\ fs_walk fs subdir = before ++ (path, dirs, files) :: after
    /\ Forall (fun entry =>
         forall f, f ∈ entry.2 -> is_checkpoint f = false) before
    /\ (exists f, f ∈ files /\ is_checkpoint f = true)
    /\ fs_latest_checkpoint fs path = None.
Proof.
  assert (Hbreak : forall s,
    breaks_join fs s = false <->
    forall before' path' dirs' files' after',
      fs_walk fs s = before' ++ (path', dirs', files') :: after' ->
      Forall (fun entry =>
        forall f, f ∈ entry.2 -> is_checkpoint f = false) before' ->
      (exists f, f ∈ files' /\ is_checkpoint f = true) ->
      is_Some (fs_latest_checkpoint fs path')).
  { intros s. unfold breaks_join. split.
    - intros Hb before' path' dirs' files' after' Hw Hall Hf.
      assert (Hfound : found fs s
                       = Some (path', fs_latest_checkpoint fs path')).
      { apply found_some. exists before', dirs', files', after'. auto. }
      rewrite Hfound in Hb.
      destruct (fs_latest_checkpoint fs path'); [eauto | discriminate Hb].
    - intros Hall.
      destruct (found fs s) as [[p [l |]] |] eqn:Hfound; try reflexivity.
      apply found_some in Hfound.
      destruct Hfound as (before' & dirs' & files' & after' & Hw & Hb & Hf
                          & Hl).
      destruct (Hall before' p dirs' files' after' Hw Hb Hf) as [l Hsome].
      congruence. }
  unfold parse_checkpoint_dir. rewrite parse_subdirectories_spec.
  generalize (fs_glob fs checkpoint_dir). intros subs. split.
  - destruct (List.find (breaks_join fs) subs) as [subdir |] eqn:Hfind;
      [| discriminate].
    intros H.
    assert (Hb : breaks_join fs subdir = true)
      by (apply find_some in Hfind; tauto).
    unfold breaks_join in Hb.
    destruct (found fs subdir) as [[p [l |]] |] eqn:Hfound;
      try discriminate Hb.
    injection H as ->. clear Hb.
    apply found_some in Hfound.
    destruct Hfound as (before & dirs & files & after & Hw & Hall & Hf & Hl).
    induction subs as [|s subs IH]; simpl in Hfind; [discriminate |].
    destruct (breaks_join fs s) eqn:Hs.
    + injection Hfind as ->.
      exists [], subdir, subs, before, dirs, files, after.
      split; [reflexivity |]. split; [constructor |]. auto.
    + destruct (IH Hfind)
        as (earlier & sd & later & before0 & dirs0 & files0 & after0 & ->
            & Hearlier & Hrest).
      exists (s :: earlier), sd, later, before0, dirs0, files0, after0.
      split; [reflexivity |]. split; [| exact Hrest].
      constructor; [apply Hbreak, Hs | exact Hearlier].
  - intros (earlier & subdir & later & before & dirs & files & after & ->
            & Hearlier & Hw & Hall & Hf & Hnone).
    assert (Hfound : found fs subdir = Some (path, None)).
    { apply found_some. exists before, dirs, files, after. auto. }
    assert (Hfind : List.find (breaks_join fs) (earlier ++ subdir :: later)
                    = Some subdir).
    { induction Hearlier as [|s earlier Hs _ IH]; simpl.
      - unfold breaks_join. rewrite Hfound. reflexivity.
      - rewrite (proj2 (Hbreak s) Hs). exact IH. }
    rewrite Hfind, Hfound. reflexivity.
Qed.

(** X24. When no walked file name contains both ['checkpoint'] and
    ['.index'], [parse_checkpoint_dir] returns the empty list, whatever
    [tf.train.latest_checkpoint] finds: checkpoints written under
    TensorFlow's default names [ckpt-N] are not found. *)
Theorem parse_checkpoint_dir_no_index_file (fs : checkpoint_fs)
  (checkpoint_dir : string) :
  (forall subdir path dirs files f,
     subdir ∈ fs_glob fs checkpoint_dir ->
     (path, dirs, files) ∈ fs_walk fs subdir ->
     f ∈ files -> is_checkpoint f = false) ->
  parse_checkpoint_dir fs checkpoint_dir = Paths [].
Proof.
  intros Hnone. unfold parse_checkpoint_dir.
  assert (Hfound : forall subdir, subdir ∈ fs_glob fs checkpoint_dir ->
                     found fs subdir = None).
  { intros subdir Hsub. unfold found. apply first_checkpoint_none.
    apply Forall_forall. intros [[path dirs] files] Hin. cbn [snd].
    destruct (any_checkpoint files) eqn:Hany; [| reflexivity].
    apply any_checkpoint_spec in Hany. destruct Hany as [f [Hf Hck]].
    rewrite (Hnone subdir path dirs files f Hsub Hin Hf) in Hck.
    discriminate Hck. }
  revert Hfound. generalize (fs_glob fs checkpoint_dir). intros subs Hfound.
  induction subs as [|s subs IH]; simpl; [reflexivity |].
  fold (found fs s). rewrite (Hfound s) by left.
  apply IH. intros subdir Hsub. apply Hfound. right. exact Hsub.
Qed.

(** ** Strategy, input shape and logging utilities *)

(** X20. [init_distribution_strategy] connects to and initialises a TPU
    exactly when it returns a [TPUStrategy], which is when neither
    [force_use_cpu] nor [use_gpu] is set; it changes the environment only
    under [force_use_cpu], and then only [CUDA_VISIBLE_DEVICES]; it logs
    one line. Without [force_use_cpu] it behaves as the strategy selection
    at the start of [main] in [condconv.py]. *)
Theorem init_distribution_strategy_effects (force_use_cpu use_gpu : bool)
  (tpu_name : option string) (h : host) :
  let on_tpu := negb (force_use_cpu || use_gpu) in
  let outcome := init_distribution_strategy force_use_cpu use_gpu tpu_name h in
  init_distribution_strategy false use_gpu tpu_name h
    = main_strategy use_gpu tpu_name h
  /\ outcome.1 = (if on_tpu then TPUStrategy tpu_name else MirroredStrategy)
  /\ connected outcome.2 = connected h ++ (if on_tpu then [tpu_name] else [])
  /\ initialized outcome.2
     = initialized h ++ (if on_tpu then [tpu_name] else [])
  /\ environ outcome.2 =
       (if force_use_cpu
        then <["CUDA_VISIBLE_DEVICES"%string := "-1"%string]> (environ h)
        else environ h)
  /\ log outcome.2 =
       log h ++ [ if force_use_cpu then "Use CPU"%string
                  else if use_gpu then "Use GPU"%string
                  else tpu_log_line tpu_name ].
Proof.
  destruct force_use_cpu, use_gpu; cbn; rewrite ?app_nil_r; auto 10.
Qed.

(** X21. [load_input_shape] returns the feature shape without its first
    (batch) dimension, whatever that dimension is, for a plain
    [TensorSpec] and for a [PerReplicaSpec], of which only the first
    replica is read; a scalar feature gives the empty shape. Without a
    ['features'] entry it raises [KeyError], and on a [PerReplicaSpec]
    without replicas [IndexError]. *)
Theorem load_input_shape_drops_batch_dimension
  (element_spec : gmap string spec) (batch : option Z)
  (dims : list (option Z)) (other_replicas : list tensor_shape) :
  load_input_shape
    (<["features"%string := TensorSpec (Some (batch :: dims))]> element_spec)
    = Ok dims
  /\ load_input_shape
       (<["features"%string :=
            PerReplicaSpec (Some (batch :: dims) :: other_replicas)]>
          element_spec)
     = Ok dims
  /\ load_input_shape
       (<["features"%string := TensorSpec (Some [])]> element_spec) = Ok []
  /\ load_input_shape (delete "features"%string element_spec)
     = Raise (KeyError "features")
  /\ load_input_shape
       (<["features"%string := PerReplicaSpec []]> element_spec)
     = Raise IndexError.
Proof.
  unfold load_input_shape, getitem.
  rewrite !lookup_insert_eq, lookup_delete_eq. repeat split.
Qed.

Section LogEpochMetrics.

Lemma traverse_getitem_returns {V} (d : gmap string V) (keys : list string) :
  returns (traverse (getitem d) keys) <->
  Forall (fun k => is_Some (d !! k)) keys.
Proof.
  unfold returns. induction keys as [|k keys IH]; simpl.
  - split; [constructor | eauto].
  - rewrite Forall_cons, <- IH. unfold getitem at 1.
    destruct (d !! k) as [v |]; cbn [bind].
    + destruct (traverse (getitem d) keys) as [vs | e]; cbn [bind].
      * split; [eauto | eauto].
      * split; [intros [a Ha]; discriminate |].
        intros [_ [a Ha]]. discriminate.
    + split; [intros [a Ha]; discriminate |].
      intros [[v Hv] _]. discriminate.
Qed.

Lemma traverse_getitem_raise {V} (d : gmap string V) (keys : list string)
  (e : exn) :
  traverse (getitem d) keys = Raise e <->
  exists before k after,
    keys = before ++ k :: after
    /\ Forall (fun k' => is_Some (d !! k')) before
    /\ d !! k = None
    /\ e = KeyError k.
Proof.
  induction keys as [|k keys IH]; simpl.
  - split; [discriminate |].
    intros (before & k & after & Heq & _). destruct before; discriminate.
  - unfold getitem at 1. destruct (d !! k) as [v |] eqn:Hk; cbn [bind].
    + destruct (traverse (getitem d) keys) as [vs' | e'] eqn:Hrest;
        cbn [bind].
      * split; [discriminate |].
        intros (before & k' & after & Heq & Hall & Hnone & ->).
        destruct before as [|b before]; simpl in Heq.
        -- injection Heq as -> ->. congruence.
        -- injection Heq as -> ->. apply Forall_cons in Hall.
           assert (H : @Ok (list V) vs' = Raise (KeyError k')).
           { apply IH. exists before, k', after. tauto. }
           discriminate H.
      * split.
        -- intros Heq. injection Heq as ->.
           destruct (proj1 IH eq_refl)
             as (before & k' & after & -> & Hall & Hnone & ->).
           exists (k :: before), k', after. split; [reflexivity |].
           split; [constructor; [rewrite Hk; eauto | exact Hall] |]. auto.
        -- intros (before & k' & after & Heq & Hall & Hnone & ->).
           destruct before as [|b before]; simpl in Heq.
           ++ injection Heq as -> ->. congruence.
           ++ injection Heq as -> ->. apply Forall_cons in Hall.
              apply IH. exists before, k', after. tauto.
    + split.
      * intros Heq. injection Heq as <-. exists [], k, keys.
        split; [reflexivity |]. split; [constructor |]. auto.
      * intros (before & k' & after & Heq & Hall & Hnone & ->).
        destruct before as [|b before]; simpl in Heq.
        -- injection Heq as -> ->. reflexivity.
        -- injection Heq as -> ->. apply Forall_cons in Hall.
           destruct Hall as [[v Hv] _]. congruence.
Qed.

End LogEpochMetrics.

(** X25. [log_epoch_metrics] returns exactly when the dictionary holds
    every key it reads; otherwise it raises [KeyError] for the first key, in
    reading order, that is missing. *)
Theorem log_epoch_metrics_outcome
  (metrics : gmap string Retinopathy.metric) (use_tpu : bool) :
  (returns (Retinopathy.log_epoch_metrics metrics use_tpu) <->
   Forall (fun k => is_Some (metrics !! k))
     (Retinopathy.log_epoch_metrics_keys use_tpu))
  /\ forall e,
       Retinopathy.log_epoch_metrics metrics use_tpu = Raise e <->
       exists before k after,
         Retinopathy.log_epoch_metrics_keys use_tpu = before ++ k :: after
         /\ Forall (fun k' => is_Some (metrics !! k')) before
         /\ metrics !! k = None
         /\ e = KeyError k.
Proof.
  unfold Retinopathy.log_epoch_metrics. split.
  - apply traverse_getitem_returns.
  - intros e. apply traverse_getitem_raise.
Qed.

Section LrDecay.
Local Open Scope Z_scope.

Lemma traverse_ok_map {A B C} (f : A -> result B) (g : B -> C)
  (xs : list A) (ys : list B) :
  traverse f xs = Ok ys ->
  traverse (fun x => do y <- f x; Ok (g y)) xs = Ok (map g ys).
Proof.
  revert ys. induction xs as [|x xs IH]; intros ys; simpl.
  - intros Heq. injection Heq as <-. reflexivity.
  - destruct (f x) as [y | e]; cbn [bind]; [| discriminate].
    destruct (traverse f xs) as [ys' | e]; cbn [bind]; [| discriminate].
    intros Heq. injection Heq as <-. rewrite (IH ys' eq_refl). reflexivity.
Qed.

End LrDecay.

(** X7. When every string of the [lr_decay_epochs] flag parses as an
    integer and [train_epochs] is not negative, [lr_decay_epochs] has one
    entry for each string; for 200 epochs the entries are the parsed values
    themselves, and values between 0 and 200 give decay epochs between 0 and
    [train_epochs]. *)
Theorem lr_decay_epochs_scaled (parse : string -> result Z)
  (flag : list string) (starts : list Z) (train_epochs : Z) :
  traverse parse flag = Ok starts ->
  (0 <= train_epochs)%Z ->
  exists decay_epochs,
    lr_decay_epochs parse flag train_epochs = Ok decay_epochs
    /\ length decay_epochs = length flag
    /\ (train_epochs = 200%Z -> decay_epochs = starts)
    /\ (Forall (fun s => 0 <= s <= 200)%Z starts ->
        Forall (fun d => 0 <= d <= train_epochs)%Z decay_epochs).
Proof.
  intros Hparse Hnonneg. unfold lr_decay_epochs.
  rewrite (traverse_ok_map parse (fun start => start * train_epochs / 200)%Z
             flag starts Hparse).
  eexists. split; [reflexivity |].
  assert (Hlen : length starts = length flag).
  { clear Hnonneg. revert starts Hparse.
    induction flag as [|x xs IH]; intros ys; simpl.
    - intros Heq. injection Heq as <-. reflexivity.
    - destruct (parse x) as [y | e]; cbn [bind]; [| discriminate].
      destruct (traverse parse xs) as [ys' | e] eqn:Hrest; cbn [bind];
        [| discriminate].
      intros Heq. injection Heq as <-. simpl. f_equal. apply IH.
      reflexivity. }
  split; [rewrite length_map; exact Hlen |]. split.
  - intros ->. rewrite <- (map_id starts) at 2. apply map_ext. intros s.
    apply Z.div_mul. lia.
  - intros Hall. apply Forall_map. eapply Forall_impl; [exact Hall |].
    intros s Hs. cbv beta in Hs |- *. split.
    + apply Z.div_pos; nia.
    + apply Z.div_le_upper_bound; nia.
Qed.

(** X7 for the default flag value and 100 epochs. *)
Lemma lr_decay_epochs_scaled_witness :
  exists decay_epochs,
    lr_decay_epochs parse_default_epochs ["60"; "120"; "160"]%string 100
      = Ok decay_epochs
    /\ length decay_epochs = length ["60"; "120"; "160"]%string
    /\ (100%Z = 200%Z -> decay_epochs = [60; 120; 160]%Z)
    /\ (Forall (fun s => 0 <= s <= 200)%Z [60; 120; 160]%Z ->
        Forall (fun d => 0 <= d <= 100)%Z decay_epochs).
Proof.
  apply (lr_decay_epochs_scaled parse_default_epochs
           ["60"; "120"; "160"]%string [60; 120; 160]%Z 100).
  - reflexivity.
  - lia.
Defined.

(** X24 on a directory written with the default names. *)
Lemma parse_checkpoint_dir_no_index_file_witness :
  parse_checkpoint_dir default_names_fs "/runs/*" = Paths [].
Proof.
  apply parse_checkpoint_dir_no_index_file.
  intros subdir path dirs files f _ Hwalk Hf. simpl in Hwalk.
  apply list_elem_of_singleton in Hwalk. injection Hwalk as _ _ ->.
  rewrite !elem_of_cons, elem_of_nil in Hf.
  destruct Hf as [-> | [-> | [-> | []]]]; reflexivity.
Defined.

(** X26. Off TPU, [log_epoch_metrics] returns on the base metrics once
    the caller has added entries for ['train/auc'] and ['test/auc'],
    whatever else the added dictionary holds or overrides. *)
Theorem log_epoch_metrics_after_adding_auc (num_bins : Z)
  (added : gmap string Retinopathy.metric) :
  is_Some (added !! "train/auc"%string) ->
  is_Some (added !! "test/auc"%string) ->
  returns
    (Retinopathy.log_epoch_metrics
       (dict_update
          (Retinopathy.get_diabetic_retinopathy_base_metrics false num_bins)
          added)
       false).
Proof.
  intros Htrain Htest. unfold Retinopathy.log_epoch_metrics.
  apply traverse_getitem_returns. unfold dict_update.
  cbn [Retinopathy.log_epoch_metrics_keys].
  repeat constructor; apply lookup_union_is_Some;
    first [ left; assumption | right; eexists; reflexivity ].
Qed.

(** X26 with the two AUC metrics added. *)
Lemma log_epoch_metrics_after_adding_auc_witness :
  returns
    (Retinopathy.log_epoch_metrics
       (dict_update
          (Retinopathy.get_diabetic_retinopathy_base_metrics false 15)
          (dict_of [ ("train/auc"%string, Retinopathy.AUC);
                     ("test/auc"%string, Retinopathy.AUC) ]))
       false).
Proof.
  apply (log_epoch_metrics_after_adding_auc 15); eexists; reflexivity.
Defined.

(** X14 in the sample run. *)
Lemma update_corrupt_plain_returns_witness :
  exists cm,
    build_corrupt_metrics demo_flags (corruption_types demo_env)
      (max_intensity demo_env) = Some cm
    /\ returns (update_corrupt_plain (corrupted_name "brightness" 2) cm).
Proof.
  apply (update_corrupt_plain_returns demo_flags (corruption_types demo_env)
           (max_intensity demo_env) "brightness" 2).
  - simpl. lia.
  - right. left.
  - simpl. lia.
Defined.

Section TupleCheck.

Import Steps.

Lemma traced_not_shape_error {A} (shape_message : string) (c : result A) :
  c <> Raise ShapeError -> traced shape_message c = c.
Proof. intros H. destruct c as [a | []]; try reflexivity. contradiction. Qed.

End TupleCheck.

(** X15. Without [--use_bfloat16] each step raises the [ValueError] of
    its explicit check (['Logits are not a tuple.'] in [train_step],
    ['Logits not a tuple'] in [test_step]) exactly when the model's output
    is not a tuple. The shape errors of the framework, which are
    [ValueError]s too while the step is traced, carry other messages. *)
Theorem tuple_check_without_bfloat16 (shape_message : string) (F : flags)
  (model_output : value) (labels : list nat) (l2_loss : R)
  (metrics : gmap string metric) (cm : option (gmap string metric))
  (dataset_name : string) :
  FLAGS_use_bfloat16 F = false ->
  shape_message <> "Logits are not a tuple."%string ->
  shape_message <> "Logits not a tuple"%string ->
  (Steps.train_step shape_message F metrics model_output labels l2_loss
     = Raise (ValueError "Logits are not a tuple.")
   <-> is_tuple model_output = false)
  /\ (Steps.test_step shape_message F metrics cm dataset_name model_output
        labels
      = Raise (ValueError "Logits not a tuple")
      <-> is_tuple model_output = false).
Proof.
  intros Hbf Hm1 Hm2. unfold Steps.train_step, Steps.test_step.
  split; split.
  - intros Hraise. destruct model_output as [t | t | logits rws];
      try reflexivity.
    exfalso.
    pose proof (train_step_fn_tuple_no_value_error F metrics logits rws
                  labels l2_loss Hbf) as Hno.
    destruct (train_step_fn F metrics (Tuple logits rws) labels l2_loss)
      as [a | e]; [discriminate Hraise |].
    destruct e; cbn [Steps.traced] in Hraise;
      try discriminate Hraise.
    + apply (Hno message). reflexivity.
    + injection Hraise as Hmsg. contradiction.
  - intros Ht. unfold train_step_fn. rewrite Hbf.
    destruct model_output; try discriminate Ht; reflexivity.
  - intros Hraise. destruct model_output as [t | t | logits rws];
      try reflexivity.
    exfalso.
    pose proof (test_step_fn_tuple_no_value_error F metrics cm dataset_name
                  logits rws labels Hbf) as Hno.
    destruct (test_step_fn F metrics cm dataset_name (Tuple logits rws)
                labels) as [a | e]; [discriminate Hraise |].
    destruct e; cbn [Steps.traced] in Hraise;
      try discriminate Hraise.
    + apply (Hno message). reflexivity.
    + injection Hraise as Hmsg. contradiction.
  - intros Ht. unfold test_step_fn. rewrite Hbf.
    destruct model_output; try discriminate Ht; reflexivity.
Qed.

(** X15 on a model output that is a tensor. *)
Lemma tuple_check_without_bfloat16_witness :
  (Steps.train_step "Dimensions must be equal" demo_flags
     (build_metrics demo_flags) (Tensor3 ones_logits) zero_labels 0
     = Raise (ValueError "Logits are not a tuple.")
   <-> is_tuple (Tensor3 ones_logits) = false)
  /\ (Steps.test_step "Dimensions must be equal" demo_flags
        (build_metrics demo_flags) None "clean" (Tensor3 ones_logits)
        zero_labels
      = Raise (ValueError "Logits not a tuple")
      <-> is_tuple (Tensor3 ones_logits) = false).
Proof.
  apply (tuple_check_without_bfloat16 "Dimensions must be equal" demo_flags
           (Tensor3 ones_logits) zero_labels 0 (build_metrics demo_flags)
           None "clean"); [reflexivity | discriminate | discriminate].
Defined.

(** On a tuple whose experts do not match [FLAGS.num_experts] the training
    step raises a [ValueError] too: the framework's, with its own
    message. *)
Lemma shape_error_is_a_value_error (shape_message : string) :
  Steps.train_step shape_message default_flags (build_metrics default_flags)
    (Tuple ones_logits [half_weights]) zero_labels 0
  = Raise (ValueError shape_message).
Proof. reflexivity. Qed.

(** X17 on the sample input. *)
Lemma weighted_probs_normalised_witness :
  exists r,
    _process_3d_logits demo_flags mixed_logits half_weights zero_labels = Ok r
    /\ at2 (weighted_probs r) 0 0 =
         weighted_mean (nth 0 half_weights [])
           (expert_values (nth 0 (softmax3 mixed_logits) []) 0).
Proof.
  apply (weighted_probs_normalised 1 2 2 demo_flags mixed_logits half_weights
           zero_labels 0 0).
  - split; [reflexivity |]. repeat constructor.
  - exact half_weights_shape.
  - reflexivity.
  - exact zero_labels_in_range.
  - reflexivity.
  - lia.
  - cbv [half_weights nth sum_list]. lra.
Defined.
